(** * Pixel-contrast agent: a shallow embedding of [pixel_contrast_agent.py]

    The agent renders every slide of a presentation, samples the pixels
    under each text shape, separates them into two luminance clusters
    (Otsu), measures the WCAG contrast ratio of the text colour against
    the sampled background and recolours the runs of a shape whose ratio
    is below a threshold.

    Number domains.  The colorimetric part ([srgb_to_linear],
    [rel_luminance], [contrast_ratio], the decision of the remediation
    policy) raises to the power [2.4] and is idealised as exact
    arithmetic in [R].  Where the result of the code depends on the
    rounding of binary64 the rounding is written out: a float is the
    rational it denotes, and [b64] rounds the exact result of an
    operation to the nearest binary64 number, ties to even.  This is how
    the gray level of a pixel, the between-class variance of Otsu's loop
    and the pixel box of a shape are computed.  The pixel counts and the
    sums of gray levels of Otsu's loop are whole numbers, which binary64
    holds and adds exactly below [2^53]; they are kept exact.  Medians
    and the percentile are taken on whole gray levels and channels and
    are exact as well.  [emu_to_px], whose only use is the expected page
    size behind the scale factors, is the exact rounding of the exact
    product.  Overflow to infinity (above [1.8e308]) is outside the
    model.

    Strings are Python strings of code points below 256, one character
    of a Rocq string per code point.

    The library objects are modelled by what the agent reads and writes
    of them: a shape has integer geometry in EMU (python-pptx's [None]
    for an inherited position is left out), reading [font.color.rgb] is a
    pure read, and [assert] statements are enabled.  LibreOffice, the
    file system and PyMuPDF answer through a [world] record, and the
    files a run writes are part of its result. *)

From Stdlib Require Import ZArith QArith Qround Reals Lra Lia Psatz.
From Stdlib Require Import List Ascii String Bool Sorted Permutation.
Import ListNotations.

(* ================================================================== *)
(** * Part I: definitions                                              *)
(* ================================================================== *)

(** ** Colours *)

(** A Python [Tuple[int,int,int]]. *)
Definition rgb : Type := (Z * Z * Z)%type.

(** The colours the program works with have 8-bit channels: they come
    from [uint8] arrays, from [RGBColor] or from two hex digits. *)
Definition rgb8 (c : rgb) : Prop :=
  let '(r, g, b) := c in
  (0 <= r <= 255 /\ 0 <= g <= 255 /\ 0 <= b <= 255)%Z.

(** ** Colour and contrast utilities (floats idealised as reals) *)

Section ContrastDefs.
Local Open Scope R_scope.

(** [srgb_to_linear(c)]: [c/12.92 if c <= 0.04045 else ((c + 0.055)/1.055) ** 2.4]. *)
Definition srgb_to_linear (c : R) : R :=
  if Rle_dec c 0.04045 then c / 12.92
  else Rpower ((c + 0.055) / 1.055) 2.4.

(** [rel_luminance(rgb)]. *)
Definition rel_luminance (c : rgb) : R :=
  let '(r, g, b) := c in
  let R_ := srgb_to_linear (IZR r / 255) in
  let G_ := srgb_to_linear (IZR g / 255) in
  let B_ := srgb_to_linear (IZR b / 255) in
  0.2126 * R_ + 0.7152 * G_ + 0.0722 * B_.

(** [contrast_ratio(fg, bg)]. *)
Definition contrast_ratio (fg bg : rgb) : R :=
  let L1 := rel_luminance fg in
  let L2 := rel_luminance bg in
  let '(Lmax, Lmin) := if Rge_dec L1 L2 then (L1, L2) else (L2, L1) in
  (Lmax + 0.05) / (Lmin + 0.05).

(** The contrast law in the words of the specification, to be compared
    with the code: a channel strictly below the cutoff is divided by
    12.92, any other goes through the power curve; the ratio puts the
    lighter luminance over the darker one. *)
Definition wcag_linear (c : R) : R :=
  if Rlt_dec c 0.04045 then c / 12.92
  else Rpower ((c + 0.055) / 1.055) 2.4.

Definition wcag_luminance (c : rgb) : R :=
  let '(r, g, b) := c in
  0.2126 * wcag_linear (IZR r / 255)
  + 0.7152 * wcag_linear (IZR g / 255)
  + 0.0722 * wcag_linear (IZR b / 255).

Definition wcag_contrast (a b : rgb) : R :=
  (Rmax (wcag_luminance a) (wcag_luminance b) + 0.05)
  / (Rmin (wcag_luminance a) (wcag_luminance b) + 0.05).

End ContrastDefs.

(** ** Python and numpy helpers *)

(** [int(x)] of a float: truncation toward zero. *)
Definition py_int (q : Q) : Z := Z.quot (Qnum q) (Zpos (Qden q)).

(** [round(x)] of a float: the nearest integer, ties to the even one. *)
Definition py_round (q : Q) : Z :=
  let n := Qfloor q in
  match (q - inject_Z n ?= 1 # 2)%Q with
  | Lt => n
  | Gt => (n + 1)%Z
  | Eq => if Z.even n then n else (n + 1)%Z
  end.

(** *** Binary64 rounding *)

(** [2^s] for any integer [s]. *)
Definition pow2 (s : Z) : Q :=
  if (0 <=? s)%Z then inject_Z (2 ^ s) else 1 # Z.to_pos (2 ^ (- s)).

(** The binary exponent of a positive rational: the [e] with
    [2^e <= q < 2^(e+1)]. *)
Definition ilog2 (q : Q) : Z :=
  let e := (Z.log2 (Qnum q) - Z.log2 (Zpos (Qden q)))%Z in
  if Qle_bool (pow2 e) q then e else (e - 1)%Z.

(** The binary64 number nearest to a positive rational, ties to the even
    mantissa: 53 significant bits, and no bit below [2^-1074]. *)
Definition b64_pos (q : Q) : Q :=
  let s := Z.max (ilog2 q - 52) (-1074) in
  (inject_Z (py_round (q / pow2 s)) * pow2 s)%Q.

(** The binary64 number nearest to a rational: the value a correctly
    rounded operation returns for the exact result [q], and the value of
    [a / b] for Python integers with [q = a/b]. *)
Definition b64 (q : Q) : Q :=
  let q := Qred q in
  match Qnum q with
  | Z0 => 0
  | Zpos _ => b64_pos q
  | Zneg _ => (- b64_pos (- q))%Q
  end.

(** [a.astype(np.uint8)] of a float: truncation, then 8 bits. *)
Definition astype_uint8 (q : Q) : Z := (py_int q mod 256)%Z.

(** [l[a:b]] with Python's treatment of negative and oversized bounds. *)
Definition py_slice_index (n i : Z) : Z :=
  if (i <? 0)%Z then Z.max 0 (i + n) else Z.min i n.

Definition py_slice {A : Type} (a b : Z) (l : list A) : list A :=
  let n := Z.of_nat (List.length l) in
  let a' := py_slice_index n a in
  let b' := py_slice_index n b in
  firstn (Z.to_nat (b' - a')) (skipn (Z.to_nat a') l).

(** [np.sort] on integers. *)
Fixpoint insert_sorted (x : Z) (l : list Z) : list Z :=
  match l with
  | [] => [x]
  | y :: l' => if (x <=? y)%Z then x :: l else y :: insert_sorted x l'
  end.

Definition np_sort (l : list Z) : list Z := fold_right insert_sorted [] l.

(** [np.median]: the middle element, or the mean of the two middle ones. *)
Definition np_median (l : list Z) : Q :=
  let s := np_sort l in
  let n := List.length s in
  if Nat.even n
  then ((inject_Z (nth (n / 2 - 1) s 0%Z) + inject_Z (nth (n / 2) s 0%Z)) / 2)%Q
  else inject_Z (nth (n / 2) s 0%Z).

(** [np.percentile(a, q)] with the default linear interpolation. *)
Definition np_percentile (l : list Z) (q : Q) : Q :=
  let s := np_sort l in
  let n := Z.of_nat (List.length s) in
  let idx := (inject_Z (n - 1) * (q / 100))%Q in
  let lo := Qfloor idx in
  let hi := Z.min (lo + 1) (n - 1) in
  let a := inject_Z (nth (Z.to_nat lo) s 0%Z) in
  let b := inject_Z (nth (Z.to_nat hi) s 0%Z) in
  (a + (b - a) * (idx - inject_Z lo))%Q.

(** [mask.mean()] of a boolean array. *)
Definition mask_mean (mask : list bool) : Q :=
  (inject_Z (Z.of_nat (List.length (filter (fun b => b) mask)))
   / inject_Z (Z.of_nat (List.length mask)))%Q.

(** [a[mask]] and [a[~mask]]. *)
Fixpoint select {A : Type} (mask : list bool) (l : list A) : list A :=
  match mask, l with
  | m :: mask', x :: l' => if m then x :: select mask' l' else select mask' l'
  | _, _ => []
  end.

(** [np.median(pixels, axis=0).astype(np.uint8)] as an int triple. *)
Definition median_rgb (px : list rgb) : rgb :=
  (astype_uint8 (np_median (map (fun p => fst (fst p)) px)),
   astype_uint8 (np_median (map (fun p => snd (fst p)) px)),
   astype_uint8 (np_median (map snd px))).

(** [str.strip()] removes the characters Python calls whitespace; below
    256 these are the space, the controls 9 to 13, the separators 28 to
    31, NEL (133) and the no-break space (160). *)
Definition is_space (c : Ascii.ascii) : bool :=
  let n := Ascii.nat_of_ascii c in
  ((n =? 32) || ((9 <=? n) && (n <=? 13)) || ((28 <=? n) && (n <=? 31))
   || (n =? 133) || (n =? 160))%nat.

Fixpoint lstrip (s : string) : string :=
  match s with
  | String c s' => if is_space c then lstrip s' else s
  | EmptyString => EmptyString
  end.

Fixpoint rstrip (s : string) : string :=
  match s with
  | String c s' =>
      match rstrip s' with
      | EmptyString => if is_space c then EmptyString else String c EmptyString
      | t => String c t
      end
  | EmptyString => EmptyString
  end.

Definition strip (s : string) : string := rstrip (lstrip s).

(** ** Geometry mapping *)

Definition EMU_PER_INCH : Z := 914400.

(** [emu_to_px(emu, dpi)]. *)
Definition emu_to_px (emu dpi : Z) : Z :=
  let inches := (inject_Z emu / inject_Z EMU_PER_INCH)%Q in
  py_int (inject_Z (py_round (inches * inject_Z dpi)%Q)).

(** ** Otsu segmentation *)

(** [np.bincount(gray.ravel(), minlength=256).astype(np.float64)], read
    at bin [t]. *)
Definition bincount (gray : list Z) (t : Z) : Q :=
  inject_Z (Z.of_nat (count_occ Z.eq_dec gray t)).

(** [range(256)]. *)
Definition range256 : list Z := map Z.of_nat (seq 0 256).

(** The variables the loop of [otsu_threshold] updates. *)
Record otsu_state : Type := mk_otsu {
  sum_b : Q;
  w_b : Q;
  max_var : Q;
  threshold : Z
}.

(** The body of [for t in range(256)], with its [continue] and [break].
    The counts [hist t], [w_b], [w_f] and the sums [sum_b], [sum_all] are
    whole numbers and exact; the two means, their difference, its square
    and the two products are rounded to binary64, so that a tie between
    two splits is decided as the code decides it. *)
Fixpoint otsu_loop (hist : Z -> Q) (total sum_all : Q)
         (ts : list Z) (st : otsu_state) : otsu_state :=
  match ts with
  | [] => st
  | t :: rest =>
      let w_b' := (w_b st + hist t)%Q in
      if Qeq_bool w_b' 0 then
        otsu_loop hist total sum_all rest
          (mk_otsu (sum_b st) w_b' (max_var st) (threshold st))
      else
        let w_f := (total - w_b')%Q in
        if Qeq_bool w_f 0 then
          mk_otsu (sum_b st) w_b' (max_var st) (threshold st)
        else
          let sum_b' := (sum_b st + inject_Z t * hist t)%Q in
          let m_b := b64 (sum_b' / w_b') in
          let m_f := b64 ((sum_all - sum_b') / w_f) in
          let var_between :=
            b64 (b64 (w_b' * w_f) * b64 (b64 (m_b - m_f) ^ 2)) in
          if Qlt_le_dec (max_var st) var_between then
            otsu_loop hist total sum_all rest
              (mk_otsu sum_b' w_b' var_between t)
          else
            otsu_loop hist total sum_all rest
              (mk_otsu sum_b' w_b' (max_var st) (threshold st))
  end.

(** [otsu_threshold(gray)]. *)
Definition otsu_threshold (gray : list Z) : Z :=
  let hist := bincount gray in
  let total := inject_Z (Z.of_nat (List.length gray)) in
  let sum_all :=
    fold_left (fun acc t => (acc + inject_Z t * hist t)%Q) range256 0%Q in
  threshold
    (otsu_loop hist total sum_all range256 (mk_otsu 0 0 (-1) 127)).

(** The gray level of a pixel:
    [(0.2126*R + 0.7152*G + 0.0722*B).astype(np.uint8)], in binary64:
    three products and two sums from left to right, each rounded, then
    truncated.  White comes out as 254. *)
Definition gray_of (p : rgb) : Z :=
  let '(r, g, b) := p in
  let R_ := b64 (b64 0.2126 * inject_Z r) in
  let G_ := b64 (b64 0.7152 * inject_Z g) in
  let B_ := b64 (b64 0.0722 * inject_Z b) in
  astype_uint8 (b64 (b64 (R_ + G_) + B_)).

(** Lines 250-258 of [estimate_fg_bg_from_region]: the boolean array
    [mask_dark], aligned with the pixels of the region in row-major
    order.  Otsu's threshold decides it, unless the dark side then holds
    under 2% or over 98% of the pixels: the 10th percentile of the gray
    levels decides it in that case. *)
Definition dark_mask (region_rgb : list rgb) : list bool :=
  let gray := map gray_of region_rgb in
  let t := otsu_threshold gray in
  let mask_dark := map (fun g => (g <=? t)%Z) gray in
  let pct := mask_mean mask_dark in
  if (if Qlt_le_dec pct 0.02 then true
      else if Qlt_le_dec 0.98 pct then true else false)
  then
    let thresh := np_percentile gray 10 in
    map (fun g => Qle_bool (inject_Z g) thresh) gray
  else mask_dark.

(** [estimate_fg_bg_from_region(region_rgb)], on the pixels of the region
    in row-major order (lines 260-275 after the mask). *)
Definition estimate_fg_bg_from_region (region_rgb : list rgb) : rgb * rgb :=
  let mask_dark := dark_mask region_rgb in
  let fg_pixels := select mask_dark region_rgb in
  let bg_pixels := select (map negb mask_dark) region_rgb in
  match fg_pixels, bg_pixels with
  | [], _ | _, [] => ((0, 0, 0)%Z, median_rgb region_rgb)
  | _, _ =>
      let fg_median := median_rgb fg_pixels in
      let bg_median := median_rgb bg_pixels in
      if Rgt_dec (rel_luminance fg_median) (rel_luminance bg_median)
      then (bg_median, fg_median)
      else (fg_median, bg_median)
  end.

(** ** Presentation model (the python-pptx objects the agent touches) *)

(** The attributes of an XML element, in document order. *)
Definition attrs : Type := list (string * string).

(** lxml's [element.set(k, v)]: overwrite the attribute, or add it. *)
Fixpoint set_attr (k v : string) (m : attrs) : attrs :=
  match m with
  | [] => [(k, v)]
  | (k', v') :: m' =>
      if String.eqb k k' then (k, v) :: m' else (k', v') :: set_attr k v m'
  end.

Fixpoint get_attr (k : string) (m : attrs) : option string :=
  match m with
  | [] => None
  | (k', v') :: m' => if String.eqb k k' then Some v' else get_attr k m'
  end.

(** A run: its text, its explicit RGB colour ([font.color.rgb], [None]
    when there is none or when reading it raises) and its language id. *)
Record run : Type := mk_run {
  run_text : string;
  run_color : option rgb;
  run_language_id : option Z
}.

(** A paragraph: its [a:pPr] element, when present, and its runs. *)
Record paragraph : Type := mk_paragraph {
  pPr : option attrs;
  runs : list run
}.

Definition text_frame : Type := list paragraph.

Module Shape.
Record t : Type := mk {
  shape_id : Z;
  name : string;
  left : Z;
  top : Z;
  width : Z;
  height : Z;
  text_frame : option (list paragraph)
}.
End Shape.

Definition slide : Type := list Shape.t.

Record presentation : Type := mk_presentation {
  slide_width : Z;
  slide_height : Z;
  slides : list slide
}.

(** A rendered page: rows of pixels, as [np.array(img)] has them. *)
Definition image : Type := list (list rgb).
Definition img_height (img : image) : Z := Z.of_nat (List.length img).
Definition img_width (img : image) : Z := Z.of_nat (List.length (hd [] img)).

(** ** PPT helpers *)

(** [MSO_LANGUAGE_ID.ARABIC_SAUDI_ARABIA]. *)
Definition ARABIC_SAUDI_ARABIA : Z := 1025.

(** [p._p.get_or_add_pPr()]. *)
Definition get_or_add_pPr (p : paragraph) : attrs :=
  match pPr p with Some a => a | None => [] end.

(** [r.font.language_id = v]; [None] stands for a raised exception.
    python-pptx's setter writes the [lang] attribute and does not fail. *)
Definition set_language_id (r : run) (v : Z) : option run :=
  Some (mk_run (run_text r) (run_color r) (Some v)).

(** [ensure_paragraph_rtl(tf)].  [p.alignment = PP_ALIGN.RIGHT] is
    python-pptx's way of writing [algn="r"] on the paragraph properties;
    an exception of the language setter is swallowed and leaves the run
    as it was. *)
Definition ensure_paragraph_rtl (tf : text_frame) : text_frame :=
  map (fun p =>
         let a := set_attr "algn" "r" (get_or_add_pPr p) in
         let a := set_attr "rtl" "1" a in
         let a := set_attr "algn" "r" a in
         mk_paragraph (Some a)
           (map (fun r =>
                   match set_language_id r ARABIC_SAUDI_ARABIA with
                   | Some r' => r'
                   | None => r
                   end) (runs p)))
      tf.

(** [set_runs_color(tf, rgb)]. *)
Definition set_runs_color (tf : text_frame) (c : rgb) : text_frame :=
  map (fun p =>
         mk_paragraph (pPr p)
           (map (fun r => mk_run (run_text r) (Some c) (run_language_id r))
                (runs p)))
      tf.

(** The explicit run colours of a text frame, in document order: the
    list [current_colors] that [process_pptx] gathers. *)
Definition current_colors (tf : text_frame) : list rgb :=
  flat_map (fun p =>
              flat_map (fun r => match run_color r with
                                 | Some c => [c]
                                 | None => []
                                 end) (runs p))
           tf.

(** ** Audit *)

Module Audit.
Record AuditItem : Type := mk {
  slide : Z;
  shape_id : Z;
  name : string;
  bbox_px : Z * Z * Z * Z;
  measured_fg : rgb;
  measured_bg : rgb;
  ratio_before : R;
  ratio_after : R;
  fixed : bool;
  applied_color : option rgb;
  note : string
}.
End Audit.

(** ** Main logic *)

Section MainLogic.
Local Open Scope R_scope.

(** [round(x)] on the reals, ties to even, and [round(x, 3)]. *)
Definition py_round_R (y : R) : Z :=
  let n := Int_part y in
  let d := y - IZR n in
  if Rlt_dec d (1 / 2) then n
  else if Rgt_dec d (1 / 2) then (n + 1)%Z
  else if Z.even n then n else (n + 1)%Z.

Definition py_round3 (x : R) : R := IZR (py_round_R (x * 1000)) / 1000.

(** The command-line configuration of the agent. *)
Record config : Type := mk_config {
  brand_dark : rgb;
  brand_light : rgb;
  min_contrast : R;
  dpi : Z;
  pad_px : Z
}.

(** What the remediation of one shape decides: the local variables
    [applied], [ratio_before], [ratio_after], [fixed], [note]. *)
Record decision : Type := mk_decision {
  applied : option rgb;
  d_ratio_before : R;
  d_ratio_after : R;
  d_fixed : bool;
  d_note : string
}.

(** Lines 386-415 of [process_pptx]: measure, and recolour the runs of
    the text frame when the ratio is below the threshold. *)
Definition remediate (cfg : config) (tf : text_frame) (fg_before bg_rgb : rgb)
  : text_frame * decision :=
  let ratio_before := contrast_ratio fg_before bg_rgb in
  if Rlt_dec ratio_before (min_contrast cfg) then
    let cr_dark := contrast_ratio (brand_dark cfg) bg_rgb in
    let cr_light := contrast_ratio (brand_light cfg) bg_rgb in
    let best_rgb :=
      if Rge_dec cr_dark cr_light then brand_dark cfg else brand_light cfg in
    let best_cr := Rmax cr_dark cr_light in
    if Rgt_dec best_cr ratio_before then
      (set_runs_color tf best_rgb,
       mk_decision (Some best_rgb) ratio_before best_cr true "")
    else
      let bw_dark := (0, 0, 0)%Z in
      let bw_light := (255, 255, 255)%Z in
      let cr_b := contrast_ratio bw_dark bg_rgb in
      let cr_w := contrast_ratio bw_light bg_rgb in
      let best := if Rge_dec cr_b cr_w then bw_dark else bw_light in
      (set_runs_color tf best,
       mk_decision (Some best) ratio_before (Rmax cr_b cr_w) true
                   "used BW fallback")
  else
    (tf, mk_decision None ratio_before ratio_before false "").

(** The pixel box of a shape (lines 350-358): [(x1, y1, x2, y2)]. *)
Definition bbox_of (dpi pad_px : Z) (img : image) (scale_x scale_y : Q)
           (shp : Shape.t) : Z * Z * Z * Z :=
  let px_w := img_width img in
  let px_h := img_height img in
  let to_px (emu : Z) (scale : Q) : Z :=
    py_int (b64 (b64 (b64 (inject_Z emu / inject_Z EMU_PER_INCH)
                      * b64 (inject_Z dpi))
                 * b64 scale))%Q in
  let left_px := to_px (Shape.left shp) scale_x in
  let top_px := to_px (Shape.top shp) scale_y in
  let w_px := to_px (Shape.width shp) scale_x in
  let h_px := to_px (Shape.height shp) scale_y in
  let x1 := Z.max 0 (left_px - pad_px) in
  let y1 := Z.max 0 (top_px - pad_px) in
  let x2 := Z.min px_w (left_px + w_px + pad_px) in
  let y2 := Z.min px_h (top_px + h_px + pad_px) in
  (x1, y1, x2, y2).

(** [img_np[y1:y2, x1:x2, :]]. *)
Definition region_of (img : image) (box : Z * Z * Z * Z) : list (list rgb) :=
  let '(x1, y1, x2, y2) := box in
  map (py_slice x1 x2) (py_slice y1 y2 img).

(** [region.size]. *)
Definition region_size (region : list (list rgb)) : Z :=
  (3 * Z.of_nat (List.length (List.concat region)))%Z.

(** The body of [for shp in slide.shapes] (lines 341-429): the shape as
    the pass leaves it, and the audit record it appends, if any. *)
Definition process_shape (cfg : config) (idx : Z) (img : image)
           (scale_x scale_y : Q) (shp : Shape.t)
  : Shape.t * option Audit.AuditItem :=
  let name := strip (Shape.name shp) in
  match Shape.text_frame shp with
  | None => (shp, None)
  | Some tf0 =>
      let tf := ensure_paragraph_rtl tf0 in
      let with_tf (f : text_frame) : Shape.t :=
        Shape.mk (Shape.shape_id shp) (Shape.name shp) (Shape.left shp)
                 (Shape.top shp) (Shape.width shp) (Shape.height shp)
                 (Some f) in
      let box := bbox_of (dpi cfg) (pad_px cfg) img scale_x scale_y shp in
      let region := region_of img box in
      if (region_size region =? 0)%Z then (with_tf tf, None)
      else
        let '(fg_rgb, bg_rgb) :=
          estimate_fg_bg_from_region (List.concat region) in
        let fg_before :=
          match current_colors tf with
          | [] => fg_rgb
          | cs => median_rgb cs
          end in
        let '(tf', d) := remediate cfg tf fg_before bg_rgb in
        (with_tf tf',
         Some (Audit.mk (idx + 1) (Shape.shape_id shp) name box
                        fg_before bg_rgb
                        (py_round3 (d_ratio_before d))
                        (py_round3 (d_ratio_after d))
                        (d_fixed d) (applied d) (d_note d)))
  end.

(** The loop over the shapes of one slide: the shapes as the pass leaves
    them, and the audit records appended, in order. *)
Fixpoint process_shapes (cfg : config) (idx : Z) (img : image)
         (scale_x scale_y : Q) (shapes : list Shape.t)
  : list Shape.t * list Audit.AuditItem :=
  match shapes with
  | [] => ([], [])
  | shp :: rest =>
      let '(shp', a) := process_shape cfg idx img scale_x scale_y shp in
      let '(rest', audits) := process_shapes cfg idx img scale_x scale_y rest in
      (shp' :: rest', match a with Some x => x :: audits | None => audits end)
  end.

(** The body of [for idx, slide in enumerate(prs.slides)]. *)
Definition process_slide (cfg : config) (slide_w_emu slide_h_emu : Z)
           (idx : Z) (img : image) (sl : slide)
  : slide * list Audit.AuditItem :=
  let px_w := img_width img in
  let px_h := img_height img in
  let exp_w := emu_to_px slide_w_emu (dpi cfg) in
  let exp_h := emu_to_px slide_h_emu (dpi cfg) in
  let scale_x := (inject_Z px_w / inject_Z (Z.max 1 exp_w))%Q in
  let scale_y := (inject_Z px_h / inject_Z (Z.max 1 exp_h))%Q in
  process_shapes cfg idx img scale_x scale_y sl.

Fixpoint process_slides (cfg : config) (slide_w_emu slide_h_emu : Z)
         (idx : Z) (sls : list slide) (images : list image)
  : list slide * list Audit.AuditItem :=
  match sls, images with
  | sl :: sls', img :: images' =>
      let '(sl', a1) := process_slide cfg slide_w_emu slide_h_emu idx img sl in
      let '(rest, a2) :=
        process_slides cfg slide_w_emu slide_h_emu (idx + 1) sls' images' in
      (sl' :: rest, (a1 ++ a2)%list)
  | _, _ => ([], [])
  end.

(** *** The outside world: LibreOffice, the file system, PyMuPDF *)

Inductive exn : Type :=
| RuntimeError (msg : string)
| AssertionError (msg : string).

(** What the calls to the outside answer during one run. *)
Record world : Type := mk_world {
  which_soffice : option string;      (* [shutil.which("soffice")] *)
  returncode : Z;                     (* [cp.returncode] *)
  cp_stdout : string;
  cp_stderr : string;
  stem_pdf_exists : bool;             (* [pdf_path.exists()] *)
  glob_pdf : list string;             (* [out_dir.glob("*.pdf")] *)
  render_pdf_pages : string -> Z -> list image
}.

(** The files the run has written. *)
Record outputs : Type := mk_outputs {
  saved_pptx : option presentation;
  audit_json : option (list Audit.AuditItem)
}.

Definition nl : string := String (Ascii.ascii_of_nat 10) EmptyString.

(** [ensure_soffice()]. *)
Definition ensure_soffice (w : world) : exn + string :=
  match which_soffice w with
  | None =>
      inl (RuntimeError
        "LibreOffice `soffice` not found on PATH. Install via Homebrew: brew install --cask libreoffice")
  | Some soffice => inr soffice
  end.

(** [pptx_to_pdf(pptx_path, out_dir)], where [stem_pdf] is the path
    [out_dir / (pptx_path.stem + ".pdf")]. *)
Definition pptx_to_pdf (w : world) (stem_pdf : string) : exn + string :=
  match ensure_soffice w with
  | inl e => inl e
  | inr _ =>
      if negb (returncode w =? 0)%Z then
        inl (RuntimeError
               ("LibreOffice export failed:" ++ nl ++ "STDOUT:" ++ nl
                ++ cp_stdout w ++ nl ++ "STDERR:" ++ nl ++ cp_stderr w)%string)
      else if stem_pdf_exists w then inr stem_pdf
      else
        match glob_pdf w with
        | [] => inl (RuntimeError "LibreOffice export produced no PDF.")
        | p :: _ => inr p
        end
  end.

(** [process_pptx]: the outcome of the call and the files it has
    written.  [audit_out] tells whether an audit path was given. *)
Definition process_pptx (w : world) (prs : presentation) (stem_pdf : string)
           (cfg : config) (audit_out : bool) : (exn + unit) * outputs :=
  let slide_w_emu := slide_width prs in
  let slide_h_emu := slide_height prs in
  match pptx_to_pdf w stem_pdf with
  | inl e => (inl e, mk_outputs None None)
  | inr pdf_path =>
      let images := render_pdf_pages w pdf_path (dpi cfg) in
      if negb (Nat.eqb (List.length images) (List.length (slides prs))) then
        (inl (AssertionError "Rendered page count differs from slide count."),
         mk_outputs None None)
      else
        let '(sls, audits) :=
          process_slides cfg slide_w_emu slide_h_emu 0 (slides prs) images in
        (inr tt,
         mk_outputs (Some (mk_presentation slide_w_emu slide_h_emu sls))
                    (if audit_out then Some audits else None))
  end.

End MainLogic.

(** ** Mirror transform *)

(** Modelled from the spec: the mirror transform of the RTL transformer
    ([mirror_left] of [rtl_pptx_transformer.py], a file that is not among
    the sources): [mirror(left, width, containerWidth) =
    containerWidth - (left + width)], on integer document units. *)
Definition mirror (left width containerWidth : Z) : Z :=
  (containerWidth - (left + width))%Z.

(** ** Predicates used by the statements *)

(** The colour of every run of a text frame, paragraph by paragraph. *)
Definition run_colors (tf : text_frame) : list (list (option rgb)) :=
  map (fun p => map run_color (runs p)) tf.

(** A shape whose text frame, if any, went through RTL enforcement and
    nothing else. *)
Definition rtl_enforced (shp : Shape.t) : Shape.t :=
  Shape.mk (Shape.shape_id shp) (Shape.name shp) (Shape.left shp)
           (Shape.top shp) (Shape.width shp) (Shape.height shp)
           (option_map ensure_paragraph_rtl (Shape.text_frame shp)).

(** The pixels sampled under a shape. *)
Definition sampled_region (cfg : config) (img : image) (scale_x scale_y : Q)
           (shp : Shape.t) : list (list rgb) :=
  region_of img (bbox_of (dpi cfg) (pad_px cfg) img scale_x scale_y shp).

(** The paragraph-level state RTL enforcement establishes. *)
Definition paragraph_is_rtl (p : paragraph) : Prop :=
  (exists a, pPr p = Some a
             /\ get_attr "rtl" a = Some "1"%string
             /\ get_attr "algn" a = Some "r"%string)
  /\ Forall (fun r => run_language_id r = Some ARABIC_SAUDI_ARABIA) (runs p).

(** The integer test behind an enclosure [lo/10^9 < lin(x/255) < hi/10^9]
    of a channel [x] above the cutoff: the base of the power is
    [(1000 x + 14025) / 269025]. *)
Definition chan_enclosed (x lo hi : Z) : bool :=
  ((11 <=? x) && (x <=? 255) && (0 <=? lo) && (0 <=? hi)
   && (lo ^ 5 * 269025 ^ 12 <? (1000 * x + 14025) ^ 12 * (10 ^ 9) ^ 5)
   && ((1000 * x + 14025) ^ 12 * (10 ^ 9) ^ 5 <? hi ^ 5 * 269025 ^ 12))%Z.

Section OtsuSpec.
Local Open Scope Q_scope.

(** Otsu's quantities for a histogram: the weight and the first moment of
    the bins below [n], the between-class variance of a class of weight
    [w_b] and moment [sum_b] against the rest, and the split after bin
    [i]. *)
Fixpoint weight_below (hist : Z -> Q) (n : nat) : Q :=
  match n with
  | O => 0
  | S k => weight_below hist k + hist (Z.of_nat k)
  end.

Fixpoint moment_below (hist : Z -> Q) (n : nat) : Q :=
  match n with
  | O => 0
  | S k => moment_below hist k + inject_Z (Z.of_nat k) * hist (Z.of_nat k)
  end.

Definition class_variance (w_b w_f sum_b sum_all : Q) : Q :=
  b64 (b64 (w_b * w_f)
       * b64 (b64 (b64 (sum_b / w_b) - b64 ((sum_all - sum_b) / w_f)) ^ 2)).

Definition between_class_variance (hist : Z -> Q) (total : Q) (i : nat) : Q :=
  class_variance (weight_below hist (S i))
                 (total - weight_below hist (S i))
                 (moment_below hist (S i))
                 (moment_below hist 256).

(** Both classes of the split after bin [i] hold pixels. *)
Definition two_classes (hist : Z -> Q) (total : Q) (i : nat) : Prop :=
  ~ weight_below hist (S i) == 0 /\ ~ total - weight_below hist (S i) == 0.

(** The best split among the bins below [k], as the loop variables
    [max_var] and [threshold] record it: none with two classes yet, or
    the recorded one, the first of maximal between-class variance. *)
Definition best_split (hist : Z -> Q) (total : Q) (k : nat)
           (mv : Q) (th : Z) : Prop :=
  (mv == -1 /\ th = 127%Z
   /\ forall j, (j < k)%nat -> ~ two_classes hist total j)
  \/ exists i, (i < k)%nat /\ th = Z.of_nat i
               /\ two_classes hist total i
               /\ mv == between_class_variance hist total i
               /\ (forall j, (j < k)%nat -> two_classes hist total j ->
                             between_class_variance hist total j
                             <= between_class_variance hist total i)
               /\ (forall j, (j < i)%nat -> two_classes hist total j ->
                             between_class_variance hist total j
                             < between_class_variance hist total i).

(** What the loop of [otsu_threshold] has established before bin [k]. *)
Definition otsu_invariant (hist : Z -> Q) (total : Q) (k : nat)
           (st : otsu_state) : Prop :=
  w_b st = weight_below hist k
  /\ sum_b st == moment_below hist k
  /\ best_split hist total k (max_var st) (threshold st).

End OtsuSpec.

(** ** Example data

    A one-slide deck rendered at 1 dpi to a page of one row and two
    pixels; the slide is two inches by one, so the expected and the
    measured page size agree and both scale factors are 1. *)

(** Scenario A: light text (234,239,241) over a light gray block. *)
Definition scenario_fg : rgb := (234, 239, 241)%Z.
Definition scenario_bg : rgb := (242, 242, 242)%Z.
Definition scenario_dark : rgb := (13, 42, 71)%Z.
Definition scenario_light : rgb := (255, 255, 255)%Z.

(** The default threshold, 1 dpi, no padding. *)
Definition ex_cfg (dark light : rgb) : config :=
  mk_config dark light 4.5%R 1 0.

(** The scale factors [process_pptx] derives for the example page:
    measured over expected size. *)
Definition ex_scale (px emu : Z) : Q :=
  (inject_Z px / inject_Z (Z.max 1 (emu_to_px emu 1)))%Q.

(** A text box over the whole slide; [c] is the explicit colour of its
    single run, if any. *)
Definition ex_shape (c : option rgb) : Shape.t :=
  Shape.mk 7 " Title 1 " 0 0 1828800 914400
           (Some [mk_paragraph None [mk_run "Vision" c None]]).

(** A text box of the same size placed beyond the right edge of the
    slide. *)
Definition ex_shape_off : Shape.t :=
  Shape.mk 9 "Caption" 9144000 0 1828800 914400
           (Some [mk_paragraph None [mk_run "Mission" (Some scenario_fg) None]]).

(** A text box over the right half of the slide. *)
Definition ex_shape_half : Shape.t :=
  Shape.mk 12 "Body" 914400 0 914400 914400
           (Some [mk_paragraph None [mk_run "Goals" None None]]).

Definition ex_prs (shapes : list Shape.t) : presentation :=
  mk_presentation 1828800 914400 [shapes].

(** One black (text) pixel beside one background pixel. *)
Definition ex_img (bg : rgb) : image := [[(0, 0, 0)%Z; bg]].

(** A run of the converter that succeeds and renders [pages]. *)
Definition ex_world (pages : list image) : world :=
  mk_world (Some "/usr/local/bin/soffice"%string) 0 "" "" true [] (fun _ _ => pages).

(** ** Command-line colours *)

(** The value of a hexadecimal digit, in either case. *)
Definition hex_digit (c : Ascii.ascii) : option Z :=
  let n := Z.of_nat (Ascii.nat_of_ascii c) in
  if ((48 <=? n) && (n <=? 57))%Z then Some (n - 48)%Z
  else if ((65 <=? n) && (n <=? 70))%Z then Some (n - 55)%Z
  else if ((97 <=? n) && (n <=? 102))%Z then Some (n - 87)%Z
  else None.

(** The blanks [int] skips around a number: space and the controls 9 to
    13 (C's [isspace]) and, turned into spaces beforehand, NEL (133) and
    the no-break space (160); the separators 28 to 31, which [str.strip]
    removes, are not among them. *)
Definition is_c_space (c : Ascii.ascii) : bool :=
  let n := Ascii.nat_of_ascii c in
  ((n =? 32) || ((9 <=? n) && (n <=? 13)) || (n =? 133) || (n =? 160))%nat.

(** [int(s, 16)] on a slice [s] of at most two characters, which is all
    [hex_to_rgb_tuple] passes; [None] stands for [ValueError].
    Python skips blanks around the digits and reads one sign before
    them; a lone sign, an underscore or the prefix [0x] without digits is
    an error. *)
Definition int16 (s : string) : option Z :=
  match s with
  | String c EmptyString => hex_digit c
  | String c1 (String c2 EmptyString) =>
      match hex_digit c1, hex_digit c2 with
      | Some a, Some b => Some (16 * a + b)%Z
      | Some a, None => if is_c_space c2 then Some a else None
      | None, Some b =>
          if is_c_space c1 then Some b
          else if Ascii.eqb c1 "+"%char then Some b
          else if Ascii.eqb c1 "-"%char then Some (- b)%Z
          else None
      | None, None => None
      end
  | _ => None
  end.

(** [s.lstrip("#")]. *)
Fixpoint lstrip_hash (s : string) : string :=
  match s with
  | String c s' => if Ascii.eqb c "#"%char then lstrip_hash s' else s
  | EmptyString => EmptyString
  end.

(** ["".join([c*2 for c in s])]. *)
Fixpoint double_chars (s : string) : string :=
  match s with
  | String c s' => String c (String c (double_chars s'))
  | EmptyString => EmptyString
  end.

(** [hex_to_rgb_tuple(s)]. *)
Definition hex_to_rgb_tuple (s : string) : option rgb :=
  let s := lstrip_hash (strip s) in
  let s := if Nat.eqb (String.length s) 3 then double_chars s else s in
  match int16 (substring 0 2 s), int16 (substring 2 2 s),
        int16 (substring 4 2 s) with
  | Some r, Some g, Some b => Some (r, g, b)
  | _, _, _ => None
  end.

(** The usual way of writing a colour, to compare the parser with: two
    upper-case (or lower-case) hexadecimal digits per channel after a
    [#]. *)
Definition hex_char (upper : bool) (d : Z) : Ascii.ascii :=
  Ascii.ascii_of_nat
    (Z.to_nat (if (d <? 10)%Z then d + 48 else if upper then d + 55 else d + 87)%Z).

Definition format_hex (upper : bool) (c : rgb) : string :=
  let '(r, g, b) := c in
  String "#"%char
    (String (hex_char upper (r / 16)) (String (hex_char upper (r mod 16))
    (String (hex_char upper (g / 16)) (String (hex_char upper (g mod 16))
    (String (hex_char upper (b / 16)) (String (hex_char upper (b mod 16))
     EmptyString)))))).

(** ** Predicates on pages and slices *)

(** Every row of a page has the width of the first: what a numpy array
    of shape [(H, W, 3)] is. *)
Definition rectangular (img : image) : Prop :=
  Forall (fun row => Z.of_nat (List.length row) = img_width img) img.

(** The number of elements [l[a:b]] keeps of a list of [n]. *)
Definition slice_len (n a b : Z) : Z :=
  Z.max 0 (py_slice_index n b - py_slice_index n a).

(** A colour none of whose channels exceeds the other's. *)
Definition channelwise_le (a b : rgb) : Prop :=
  let '(r1, g1, b1) := a in
  let '(r2, g2, b2) := b in
  (r1 <= r2 /\ g1 <= g2 /\ b1 <= b2)%Z.

(** ** What the pass must not change *)

(** The text of every run of a text frame, paragraph by paragraph. *)
Definition run_texts (tf : text_frame) : list (list string) :=
  map (fun p => map run_text (runs p)) tf.

(** A shape without what the pass is allowed to write: paragraph
    properties, run colours and run language ids. *)
Definition shape_skeleton (shp : Shape.t)
  : Z * string * Z * Z * Z * Z * option (list (list string)) :=
  (Shape.shape_id shp, Shape.name shp, Shape.left shp, Shape.top shp,
   Shape.width shp, Shape.height shp,
   option_map run_texts (Shape.text_frame shp)).

Definition skeleton (prs : presentation) :=
  (slide_width prs, slide_height prs, map (map shape_skeleton) (slides prs)).

(** Every paragraph of the text frame of a shape, if it has one, is in
    the state RTL enforcement establishes. *)
Definition shape_is_rtl (shp : Shape.t) : Prop :=
  match Shape.text_frame shp with
  | Some tf => Forall paragraph_is_rtl tf
  | None => True
  end.




(** The paragraph properties RTL enforcement does not write: every
    attribute but [rtl] and [algn], in document order. *)
Definition other_attrs (a : attrs) : attrs :=
  filter (fun kv => negb (String.eqb (fst kv) "rtl"
                          || String.eqb (fst kv) "algn")) a.

(** The number of pixels of gray level [g]. *)
Definition count_level (g : Z) (gray : list Z) : nat :=
  List.length (filter (Z.eqb g) gray).

(** The text shapes of a slide that get an audit record: those whose
    sampled region is not empty. *)
Definition audited (cfg : config) (img : image) (scale_x scale_y : Q)
           (shp : Shape.t) : bool :=
  match Shape.text_frame shp with
  | Some _ =>
      negb (region_size (sampled_region cfg img scale_x scale_y shp) =? 0)%Z
  | None => false
  end.

(* ================================================================== *)
(** * Part II: theorems                                                *)
(* ================================================================== *)

(** ** The helpers on small inputs *)

Example py_round_ties_to_even :
  (py_round (5 # 2), py_round (7 # 2), py_round (-5 # 2), py_round (26 # 10))
  = (2, 4, -2, 3)%Z.
Proof. reflexivity. Qed.

Example py_int_truncates : (py_int (-5 # 2), py_int (26 # 10)) = (-2, 2)%Z.
Proof. reflexivity. Qed.

Example py_slice_negative_stop : py_slice 0 (-1) [1; 2; 3; 4]%Z = [1; 2; 3]%Z.
Proof. reflexivity. Qed.

Example py_slice_past_the_end : py_slice 10 2 [1; 2]%Z = [].
Proof. reflexivity. Qed.

Example strip_both_ends : strip "  Title 1 " = "Title 1"%string.
Proof. reflexivity. Qed.

Example emu_to_px_ten_inches : emu_to_px 9144000 300 = 3000%Z.
Proof. reflexivity. Qed.

Example np_median_even : np_median [3; 1; 2; 10]%Z = (5 # 2)%Q.
Proof. reflexivity. Qed.

Example np_percentile_tenth :
  (np_percentile [1; 2; 3; 4; 5; 6; 7; 8; 9; 10; 11]%Z 10 == 2)%Q.
Proof. vm_compute. reflexivity. Qed.

Example gray_of_mid_gray : gray_of (200, 200, 200)%Z = 200%Z.
Proof. reflexivity. Qed.

Example otsu_threshold_bimodal :
  otsu_threshold [10; 10; 10; 200; 200; 220; 30]%Z = 30%Z.
Proof. vm_compute. reflexivity. Qed.

Example otsu_threshold_uniform : otsu_threshold [200; 200; 200]%Z = 127%Z.
Proof. vm_compute. reflexivity. Qed.

(** Binary64 at work: [0.1] is the double just above one tenth; the gray
    level of white is 254, because the rounded sum is just below 255;
    the splits after 0 and after 4 of the levels 0, 4, 4, 8 tie in exact
    arithmetic and the rounded variance of the second is the larger one;
    [8796528 / 914400 * 300] is just below 2886. *)
Example b64_one_tenth :
  (b64 (1 # 10) == 3602879701896397 # 36028797018963968)%Q.
Proof. vm_compute. reflexivity. Qed.

Example gray_of_white :
  map gray_of [(255, 255, 255); (5, 5, 5); (6, 5, 5); (4, 4, 4)]%Z
  = [254; 4; 5; 4]%Z.
Proof. vm_compute. reflexivity. Qed.

Example otsu_threshold_tie : otsu_threshold [0; 4; 8; 4]%Z = 4%Z.
Proof. vm_compute. reflexivity. Qed.

Example bbox_of_truncates_the_double :
  bbox_of 300 6 [repeat (0, 0, 0)%Z 8] 1 1
          (Shape.mk 1 "" 8796528 0 914400 914400 None)
  = (2879, 0, 8, 1)%Z.
Proof. vm_compute. reflexivity. Qed.

(** [-167640 / 914400 * 300] is [-54.99999999999999] as a double, cut
    to [-54]; the width gives [2.0] and the right bound is [-52]. *)
Example bbox_of_left_of_page :
  bbox_of 300 0 [repeat (0, 0, 0)%Z 100] 1 1
          (Shape.mk 1 "" (-167640) 0 6096 914400 None)
  = (0, 0, -52, 1)%Z.
Proof. vm_compute. reflexivity. Qed.

Section Binary64.
Local Open Scope Q_scope.

Lemma pow2_pos (s : Z) : 0 < pow2 s.
Proof.
  unfold pow2. destruct (Z.leb_spec 0 s).
  - change 0 with (inject_Z 0). rewrite <- Zlt_Qlt.
    apply Z.pow_pos_nonneg; lia.
  - unfold Qlt. cbn. lia.
Qed.

Lemma py_round_nonneg (q : Q) : 0 <= q -> (0 <= py_round q)%Z.
Proof.
  intros H. unfold py_round.
  assert (0 <= Qfloor q)%Z as H0
    by (change 0%Z with (Qfloor 0); apply Qfloor_resp_le; exact H).
  destruct (_ ?= _); [destruct (Z.even _)| |]; lia.
Qed.

Lemma b64_pos_nonneg (q : Q) : 0 <= q -> 0 <= b64_pos q.
Proof.
  intros H. unfold b64_pos.
  set (s := Z.max (ilog2 q - 52) (-1074)).
  pose proof (pow2_pos s) as Hp.
  apply Qmult_le_0_compat; [|apply Qlt_le_weak; exact Hp].
  change 0 with (inject_Z 0). rewrite <- Zle_Qle. apply py_round_nonneg.
  apply Qle_shift_div_l; [exact Hp|]. rewrite Qmult_0_l. exact H.
Qed.

(** Rounding keeps the sign, and depends on the value only. *)
Lemma b64_nonneg (q : Q) : 0 <= q -> 0 <= b64 q.
Proof.
  intros H. unfold b64. pose proof (Qred_correct q) as E.
  destruct (Qnum (Qred q)) eqn:En.
  - apply Qle_refl.
  - apply b64_pos_nonneg. rewrite E. exact H.
  - exfalso. rewrite <- E in H. unfold Qle in H. rewrite En in H.
    cbn in H. lia.
Qed.

Lemma b64_comp (p q : Q) : p == q -> b64 p = b64 q.
Proof. intros H. unfold b64. rewrite (Qred_complete p q H). reflexivity. Qed.

End Binary64.

Section ContrastFacts.
Local Open Scope R_scope.

Lemma Rpower_one_base (y : R) : Rpower 1 y = 1.
Proof. unfold Rpower. rewrite ln_1, Rmult_0_r. apply exp_0. Qed.

Lemma srgb_to_linear_0 : srgb_to_linear 0 = 0.
Proof.
  unfold srgb_to_linear. destruct (Rle_dec 0 0.04045) as [_|H]; lra.
Qed.

Lemma srgb_to_linear_1 : srgb_to_linear 1 = 1.
Proof.
  unfold srgb_to_linear. destruct (Rle_dec 1 0.04045) as [H|_]; [lra|].
  replace ((1 + 0.055) / 1.055) with 1 by lra. apply Rpower_one_base.
Qed.

(** On [0 <= c] the linearised channel is non-negative, and it is
    monotone on its whole domain; at and below the cutoff it is linear,
    above it the argument of the power is positive. *)
Lemma srgb_to_linear_nonneg (c : R) : 0 <= c -> 0 <= srgb_to_linear c.
Proof.
  intros Hc. unfold srgb_to_linear.
  destruct (Rle_dec c 0.04045); [lra|].
  left. unfold Rpower. apply exp_pos.
Qed.

Lemma srgb_to_linear_le_1 (c : R) : c <= 1 -> srgb_to_linear c <= 1.
Proof.
  intros Hc. unfold srgb_to_linear.
  destruct (Rle_dec c 0.04045) as [H|H]; [lra|].
  rewrite <- (Rpower_one_base 2.4).
  apply Rle_Rpower_l; lra.
Qed.

Lemma rel_luminance_white : rel_luminance (255, 255, 255)%Z = 1.
Proof.
  unfold rel_luminance. replace (255 / 255) with 1 by lra.
  rewrite srgb_to_linear_1. lra.
Qed.

Lemma rel_luminance_black : rel_luminance (0, 0, 0)%Z = 0.
Proof.
  unfold rel_luminance. replace (0 / 255) with 0 by lra.
  rewrite srgb_to_linear_0. lra.
Qed.

Lemma channel_unit (x : Z) : (0 <= x <= 255)%Z -> 0 <= IZR x / 255 <= 1.
Proof.
  intros [H0 H1]. apply IZR_le in H0, H1. lra.
Qed.

Lemma rel_luminance_range (c : rgb) : rgb8 c -> 0 <= rel_luminance c <= 1.
Proof.
  destruct c as [[r g] b]. intros (Hr & Hg & Hb).
  apply channel_unit in Hr, Hg, Hb. unfold rel_luminance.
  pose proof (srgb_to_linear_nonneg _ (proj1 Hr)).
  pose proof (srgb_to_linear_nonneg _ (proj1 Hg)).
  pose proof (srgb_to_linear_nonneg _ (proj1 Hb)).
  pose proof (srgb_to_linear_le_1 _ (proj2 Hr)).
  pose proof (srgb_to_linear_le_1 _ (proj2 Hg)).
  pose proof (srgb_to_linear_le_1 _ (proj2 Hb)).
  lra.
Qed.

Lemma contrast_ratio_white_black :
  contrast_ratio (255, 255, 255)%Z (0, 0, 0)%Z = 21.
Proof.
  unfold contrast_ratio. rewrite rel_luminance_white, rel_luminance_black.
  destruct (Rge_dec 1 0); lra.
Qed.

Lemma contrast_ratio_self (c : rgb) : rgb8 c -> contrast_ratio c c = 1.
Proof.
  intros Hc. pose proof (rel_luminance_range c Hc) as HL.
  unfold contrast_ratio.
  destruct (Rge_dec (rel_luminance c) (rel_luminance c)); field; lra.
Qed.

Lemma contrast_ratio_sym (a b : rgb) : contrast_ratio a b = contrast_ratio b a.
Proof.
  unfold contrast_ratio.
  destruct (Rge_dec (rel_luminance a) (rel_luminance b)) as [H1|H1];
    destruct (Rge_dec (rel_luminance b) (rel_luminance a)) as [H2|H2];
    try reflexivity.
  - assert (rel_luminance a = rel_luminance b) as -> by lra. reflexivity.
  - lra.
Qed.

End ContrastFacts.

(** ** Rational enclosures of the power curve

    [b ^ 2.4] is the fifth root of [b ^ 12], so a rational [lo] lies below
    it exactly when [lo ^ 5 < b ^ 12]: a comparison of integers. *)

Section PowerBounds.
Local Open Scope R_scope.

Lemma Rpower_24_pow5 (b : R) : 0 < b -> (Rpower b 2.4) ^ 5 = b ^ 12.
Proof.
  intros Hb.
  rewrite <- (Rpower_pow 5 (Rpower b 2.4)) by (unfold Rpower; apply exp_pos).
  rewrite Rpower_mult.
  replace (2.4 * INR 5) with (INR 12) by (simpl; lra).
  apply Rpower_pow; assumption.
Qed.

Lemma Rpower_24_lower (b lo : R) :
  0 < b -> 0 <= lo -> lo ^ 5 < b ^ 12 -> lo < Rpower b 2.4.
Proof.
  intros Hb Hlo H. rewrite <- (Rpower_24_pow5 b Hb) in H.
  destruct (Rlt_dec lo (Rpower b 2.4)) as [|Hn]; [assumption|].
  exfalso. apply Rnot_lt_le in Hn.
  assert (0 <= Rpower b 2.4) by (left; unfold Rpower; apply exp_pos).
  pose proof (pow_incr (Rpower b 2.4) lo 5 (conj H0 Hn)). lra.
Qed.

Lemma Rpower_24_upper (b hi : R) :
  0 < b -> 0 <= hi -> b ^ 12 < hi ^ 5 -> Rpower b 2.4 < hi.
Proof.
  intros Hb Hhi H. rewrite <- (Rpower_24_pow5 b Hb) in H.
  destruct (Rlt_dec (Rpower b 2.4) hi) as [|Hn]; [assumption|].
  exfalso. apply Rnot_lt_le in Hn.
  pose proof (pow_incr hi (Rpower b 2.4) 5 (conj Hhi Hn)). lra.
Qed.

Lemma frac_pow_lt (p q n d : Z) (i j : nat) :
  (0 < q)%Z -> (0 < d)%Z ->
  (p ^ Z.of_nat i * d ^ Z.of_nat j < n ^ Z.of_nat j * q ^ Z.of_nat i)%Z ->
  (IZR p / IZR q) ^ i < (IZR n / IZR d) ^ j.
Proof.
  intros Hq Hd H.
  assert (0 < IZR q) as Hq' by (apply IZR_lt; assumption).
  assert (0 < IZR d) as Hd' by (apply IZR_lt; assumption).
  unfold Rdiv. rewrite !Rpow_mult_distr, !pow_inv.
  assert (0 < IZR q ^ i) as Hqi by (apply pow_lt; assumption).
  assert (0 < IZR d ^ j) as Hdj by (apply pow_lt; assumption).
  apply IZR_lt in H. rewrite !mult_IZR, <- !pow_IZR in H.
  apply Rmult_lt_reg_r with (IZR q ^ i * IZR d ^ j); [nra|].
  replace (IZR p ^ i * / IZR q ^ i * (IZR q ^ i * IZR d ^ j))
    with (IZR p ^ i * IZR d ^ j) by (field; lra).
  replace (IZR n ^ j * / IZR d ^ j * (IZR q ^ i * IZR d ^ j))
    with (IZR n ^ j * IZR q ^ i) by (field; lra).
  exact H.
Qed.

Lemma chan_enclosed_sound (x lo hi : Z) :
  chan_enclosed x lo hi = true ->
  IZR lo / 1000000000 < srgb_to_linear (IZR x / 255) < IZR hi / 1000000000.
Proof.
  unfold chan_enclosed. rewrite !andb_true_iff.
  intros [[[[[Hx1 Hx2] Hlo] Hhi] H1] H2].
  apply Z.leb_le in Hx1, Hx2, Hlo, Hhi. apply Z.ltb_lt in H1, H2.
  assert (11 <= IZR x) as Hx1' by (apply IZR_le in Hx1; exact Hx1).
  unfold srgb_to_linear.
  destruct (Rle_dec (IZR x / 255) 0.04045) as [Hc|_]; [lra|].
  replace ((IZR x / 255 + 0.055) / 1.055)
    with (IZR (1000 * x + 14025) / IZR 269025)
    by (rewrite plus_IZR, mult_IZR; lra).
  assert (0 < IZR (1000 * x + 14025) / IZR 269025) as Hb.
  { rewrite plus_IZR, mult_IZR. apply Rdiv_lt_0_compat; lra. }
  replace 1000000000 with (IZR (10 ^ 9)) by (simpl; lra).
  assert (0 < IZR (10 ^ 9)) as H9 by (simpl; lra).
  split.
  - apply Rpower_24_lower; [assumption| |].
    + apply Rmult_le_pos; [apply IZR_le; assumption | left; apply Rinv_0_lt_compat; assumption].
    + apply frac_pow_lt; [reflexivity | reflexivity | exact H1].
  - apply Rpower_24_upper; [assumption| |].
    + apply Rmult_le_pos; [apply IZR_le; assumption | left; apply Rinv_0_lt_compat; assumption].
    + apply frac_pow_lt; [reflexivity | reflexivity | exact H2].
Qed.

Lemma lum_234_239_241 :
  0.855763027 < rel_luminance (234, 239, 241)%Z < 0.855763029.
Proof.
  pose proof (chan_enclosed_sound 234 822785754 822785755 eq_refl).
  pose proof (chan_enclosed_sound 239 863157213 863157214 eq_refl).
  pose proof (chan_enclosed_sound 241 879622396 879622397 eq_refl).
  unfold rel_luminance. lra.
Qed.

Lemma lum_242 :
  0.887923117 < rel_luminance (242, 242, 242)%Z < 0.887923118.
Proof.
  pose proof (chan_enclosed_sound 242 887923117 887923118 eq_refl).
  unfold rel_luminance. lra.
Qed.

Lemma lum_13_42_71 :
  0.021964265 < rel_luminance (13, 42, 71)%Z < 0.021964267.
Proof.
  pose proof (chan_enclosed_sound 13 4024717 4024718 eq_refl).
  pose proof (chan_enclosed_sound 42 23153366 23153367 eq_refl).
  pose proof (chan_enclosed_sound 71 63010017 63010018 eq_refl).
  unfold rel_luminance. lra.
Qed.

End PowerBounds.

(** ** The contrast law (claims C2 and C10) *)

Section ContrastLaw.
Local Open Scope R_scope.

(** No integer channel sits exactly on the cutoff, so reading "below the
    cutoff" strictly or not makes no difference on colours. *)
Lemma channel_off_cutoff (x : Z) : IZR x / 255 <> 0.04045.
Proof.
  intros H.
  assert (IZR (x * 100000) = IZR 1031475) as E by (rewrite mult_IZR; lra).
  apply eq_IZR in E. lia.
Qed.

Lemma wcag_linear_channel (x : Z) :
  wcag_linear (IZR x / 255) = srgb_to_linear (IZR x / 255).
Proof.
  pose proof (channel_off_cutoff x) as Hx.
  unfold wcag_linear, srgb_to_linear.
  destruct (Rlt_dec (IZR x / 255) 0.04045), (Rle_dec (IZR x / 255) 0.04045);
    try reflexivity; lra.
Qed.

Lemma wcag_luminance_eq (c : rgb) : wcag_luminance c = rel_luminance c.
Proof.
  destruct c as [[r g] b]. unfold wcag_luminance, rel_luminance.
  rewrite !wcag_linear_channel. reflexivity.
Qed.

Lemma contrast_ratio_wcag (a b : rgb) : contrast_ratio a b = wcag_contrast a b.
Proof.
  unfold wcag_contrast, contrast_ratio. rewrite !wcag_luminance_eq.
  destruct (Rge_dec (rel_luminance a) (rel_luminance b)) as [H|H].
  - rewrite Rmax_left, Rmin_right by lra. reflexivity.
  - rewrite Rmax_right, Rmin_left by lra. reflexivity.
Qed.

(** C2. The contrast evaluator is the WCAG two-colour law as the
    specification words it ([wcag_contrast]: linearisation with the
    12.92 divisor below the 0.04045 cutoff and the 2.4 power curve above,
    luminance weights 0.2126, 0.7152, 0.0722, lighter over darker with
    the 0.05 offsets); white against black gives 21 and every 8-bit
    colour against itself gives 1. *)
Theorem contrast_law (a b c : rgb) :
  rgb8 c ->
  contrast_ratio a b = wcag_contrast a b
  /\ contrast_ratio (255, 255, 255)%Z (0, 0, 0)%Z = 21
  /\ contrast_ratio c c = 1.
Proof.
  intros Hc. split; [apply contrast_ratio_wcag|].
  split; [apply contrast_ratio_white_black | apply contrast_ratio_self, Hc].
Qed.

Lemma contrast_law_witness :
  contrast_ratio (234, 239, 241)%Z (242, 242, 242)%Z
  = wcag_contrast (234, 239, 241)%Z (242, 242, 242)%Z
  /\ contrast_ratio (255, 255, 255)%Z (0, 0, 0)%Z = 21
  /\ contrast_ratio (13, 42, 71)%Z (13, 42, 71)%Z = 1.
Proof.
  apply (contrast_law (234, 239, 241)%Z (242, 242, 242)%Z (13, 42, 71)%Z).
  unfold rgb8. lia.
Defined.

(** C10. The contrast ratio is symmetric in its two colours. *)
Theorem contrast_ratio_symmetric (a b : rgb) :
  contrast_ratio a b = contrast_ratio b a.
Proof. apply contrast_ratio_sym. Qed.

End ContrastLaw.

(** ** The mirror transform (claim C7) *)

(** C7. Mirroring twice in the same container restores the left
    coordinate. *)
Theorem mirror_involution (left width containerWidth : Z) :
  mirror left width containerWidth = (containerWidth - (left + width))%Z
  /\ mirror (mirror left width containerWidth) width containerWidth = left.
Proof. unfold mirror. split; lia. Qed.

(** ** RTL enforcement (claim C8) *)

Section RtlFacts.

Lemma get_set_attr_same (k v : string) (m : attrs) :
  get_attr k (set_attr k v m) = Some v.
Proof.
  induction m as [|[k' v'] m IH]; simpl.
  - rewrite String.eqb_refl. reflexivity.
  - destruct (String.eqb k k') eqn:E; simpl; rewrite ?E, ?String.eqb_refl; auto.
Qed.

Lemma get_set_attr_other (k k' v : string) (m : attrs) :
  k <> k' -> get_attr k (set_attr k' v m) = get_attr k m.
Proof.
  intros Hk. apply String.eqb_neq in Hk.
  induction m as [|[k2 v2] m IH]; simpl.
  - rewrite Hk. reflexivity.
  - destruct (String.eqb k' k2) eqn:E; simpl.
    + apply String.eqb_eq in E. subst k2. rewrite Hk. reflexivity.
    + destruct (String.eqb k k2); auto.
Qed.

(** Writing the value an attribute already has changes nothing. *)
Lemma set_attr_present (k v : string) (m : attrs) :
  get_attr k m = Some v -> set_attr k v m = m.
Proof.
  induction m as [|[k' v'] m IH]; simpl; [discriminate|].
  destruct (String.eqb k k') eqn:E.
  - intros [= ->]. apply String.eqb_eq in E. subst. reflexivity.
  - intros H. rewrite IH by assumption. reflexivity.
Qed.

Lemma rtl_attrs_fixpoint (a : attrs) :
  get_attr "rtl" a = Some "1"%string ->
  get_attr "algn" a = Some "r"%string ->
  set_attr "algn" "r" (set_attr "rtl" "1" (set_attr "algn" "r" a)) = a.
Proof.
  intros Hr Ha. rewrite (set_attr_present "algn" "r" a Ha).
  rewrite (set_attr_present "rtl" "1" a Hr).
  apply set_attr_present, Ha.
Qed.

Lemma rtl_attrs_established (a : attrs) :
  let a' := set_attr "algn" "r" (set_attr "rtl" "1" (set_attr "algn" "r" a)) in
  get_attr "rtl" a' = Some "1"%string /\ get_attr "algn" a' = Some "r"%string.
Proof.
  simpl. split.
  - rewrite get_set_attr_other by discriminate. apply get_set_attr_same.
  - apply get_set_attr_same.
Qed.

Lemma ensure_paragraph_rtl_establishes (tf : text_frame) :
  Forall paragraph_is_rtl (ensure_paragraph_rtl tf).
Proof.
  unfold ensure_paragraph_rtl. apply Forall_forall. intros p Hp.
  apply in_map_iff in Hp. destruct Hp as (p0 & <- & _). split; simpl.
  - eexists. split; [reflexivity|]. apply rtl_attrs_established.
  - apply Forall_forall. intros r Hr. apply in_map_iff in Hr.
    destruct Hr as (r0 & <- & _). reflexivity.
Qed.

Lemma ensure_paragraph_rtl_stable (tf : text_frame) :
  Forall paragraph_is_rtl tf -> ensure_paragraph_rtl tf = tf.
Proof.
  induction 1 as [|p tf Hp _ IH]; [reflexivity|].
  change (ensure_paragraph_rtl (p :: tf))
    with (hd p (ensure_paragraph_rtl [p]) :: ensure_paragraph_rtl tf).
  rewrite IH. f_equal. simpl.
  destruct p as [pp rs]. destruct Hp as [(a & Ha & Hrtl & Halgn) Hruns].
  simpl in *. subst pp. unfold get_or_add_pPr. simpl.
  rewrite rtl_attrs_fixpoint by assumption. f_equal.
  clear -Hruns. induction Hruns as [|r rs Hr _ IHr]; [reflexivity|].
  simpl. rewrite IHr. f_equal. destruct r as [t c l]. simpl in *.
  subst l. reflexivity.
Qed.


End RtlFacts.

(** ** Rounding of the audit figures *)

Section Rounding.
Local Open Scope R_scope.

Lemma Int_part_spec (x : R) : IZR (Int_part x) <= x < IZR (Int_part x) + 1.
Proof. pose proof (base_Int_part x). lra. Qed.

Lemma py_round_R_bounds (x : R) :
  (Int_part x <= py_round_R x <= Int_part x + 1)%Z.
Proof.
  unfold py_round_R.
  destruct (Rlt_dec _ _); [lia|].
  destruct (Rgt_dec _ _); [lia|].
  destruct (Z.even _); lia.
Qed.

Lemma Int_part_mono (x y : R) : x <= y -> (Int_part x <= Int_part y)%Z.
Proof.
  intros H. pose proof (Int_part_spec x). pose proof (Int_part_spec y).
  assert (IZR (Int_part x) < IZR (Int_part y + 1)) as Hlt
    by (rewrite plus_IZR; lra).
  apply lt_IZR in Hlt. lia.
Qed.

Lemma py_round_R_mono (x y : R) : x <= y -> (py_round_R x <= py_round_R y)%Z.
Proof.
  intros H. pose proof (Int_part_mono x y H) as Hk.
  destruct (Z.eq_dec (Int_part x) (Int_part y)) as [E|E].
  - unfold py_round_R. rewrite E.
    destruct (Rlt_dec (x - IZR (Int_part y)) (1 / 2)),
             (Rlt_dec (y - IZR (Int_part y)) (1 / 2));
      try lia; try lra;
      destruct (Rgt_dec (x - IZR (Int_part y)) (1 / 2)),
               (Rgt_dec (y - IZR (Int_part y)) (1 / 2));
      try lia; try lra; destruct (Z.even (Int_part y)); lia.
  - pose proof (py_round_R_bounds x). pose proof (py_round_R_bounds y). lia.
Qed.

Lemma py_round3_mono (x y : R) : x <= y -> py_round3 x <= py_round3 y.
Proof.
  intros H. unfold py_round3.
  assert (x * 1000 <= y * 1000) as H' by lra.
  apply py_round_R_mono, IZR_le in H'. lra.
Qed.

(** A real strictly within one half of an integer rounds to it. *)
Lemma py_round_R_near (y : R) (n : Z) :
  IZR n - 1 / 2 < y < IZR n + 1 / 2 -> py_round_R y = n.
Proof.
  intros [Hlo Hhi]. pose proof (Int_part_spec y) as [Hk1 Hk2].
  assert (IZR (Int_part y) < IZR (n + 1)) as H1 by (rewrite plus_IZR; lra).
  assert (IZR (n - 2) < IZR (Int_part y)) as H2 by (rewrite minus_IZR; lra).
  apply lt_IZR in H1, H2.
  assert (Int_part y = n \/ Int_part y = (n - 1)%Z) as [E|E] by lia;
    unfold py_round_R; rewrite E.
  - destruct (Rlt_dec (y - IZR n) (1 / 2)); [reflexivity | lra].
  - rewrite E, minus_IZR in Hk1, Hk2.
    rewrite minus_IZR.
    destruct (Rlt_dec (y - (IZR n - 1)) (1 / 2)); [lra|].
    destruct (Rgt_dec (y - (IZR n - 1)) (1 / 2)); [lia | lra].
Qed.


Lemma py_round3_near (x : R) (n : Z) :
  IZR n / 1000 - 1 / 2000 < x < IZR n / 1000 + 1 / 2000 ->
  py_round3 x = IZR n / 1000.
Proof.
  intros H. unfold py_round3. rewrite (py_round_R_near (x * 1000) n); [reflexivity | lra].
Qed.

End Rounding.

(** ** The remediation policy (claims C1, C3, C4) *)

Section Remediation.
Local Open Scope R_scope.

Lemma div_le_div (a b c d : R) :
  0 < b -> 0 < d -> a * d <= c * b -> a / b <= c / d.
Proof.
  intros Hb Hd H. unfold Rdiv.
  apply Rmult_le_reg_r with (b * d); [nra|].
  replace (a * / b * (b * d)) with (a * d) by (field; lra).
  replace (c * / d * (b * d)) with (c * b) by (field; lra).
  exact H.
Qed.

Lemma contrast_ratio_maxmin (a b : rgb) :
  contrast_ratio a b
  = (Rmax (rel_luminance a) (rel_luminance b) + 0.05)
    / (Rmin (rel_luminance a) (rel_luminance b) + 0.05).
Proof.
  rewrite contrast_ratio_wcag. unfold wcag_contrast.
  rewrite !wcag_luminance_eq. reflexivity.
Qed.

Lemma contrast_ratio_black (bg : rgb) :
  rgb8 bg -> contrast_ratio (0, 0, 0)%Z bg = (rel_luminance bg + 0.05) / 0.05.
Proof.
  intros Hb. pose proof (rel_luminance_range bg Hb).
  rewrite contrast_ratio_maxmin, rel_luminance_black.
  rewrite Rmax_right, Rmin_left by lra. f_equal. lra.
Qed.

Lemma contrast_ratio_white (bg : rgb) :
  rgb8 bg ->
  contrast_ratio (255, 255, 255)%Z bg = 1.05 / (rel_luminance bg + 0.05).
Proof.
  intros Hb. pose proof (rel_luminance_range bg Hb).
  rewrite contrast_ratio_maxmin, rel_luminance_white.
  rewrite Rmax_left, Rmin_right by lra. f_equal. lra.
Qed.

(** No 8-bit colour contrasts better with a background than the better
    of black and white does. *)
Lemma contrast_ratio_le_bw (fg bg : rgb) :
  rgb8 fg -> rgb8 bg ->
  contrast_ratio fg bg
  <= Rmax (contrast_ratio (0, 0, 0)%Z bg) (contrast_ratio (255, 255, 255)%Z bg).
Proof.
  intros Hf Hb.
  pose proof (rel_luminance_range fg Hf) as HLf.
  pose proof (rel_luminance_range bg Hb) as HLb.
  rewrite (contrast_ratio_black bg Hb), (contrast_ratio_white bg Hb).
  rewrite contrast_ratio_maxmin.
  destruct (Rle_dec (rel_luminance fg) (rel_luminance bg)) as [H|H].
  - rewrite Rmax_right, Rmin_left by lra.
    eapply Rle_trans; [|apply Rmax_l].
    apply div_le_div; nra.
  - rewrite Rmax_left, Rmin_right by lra.
    eapply Rle_trans; [|apply Rmax_r].
    apply div_le_div; nra.
Qed.

(** The ratio the policy records after is never below the one before. *)
Lemma remediate_monotone (cfg : config) (tf : text_frame) (fg bg : rgb) :
  rgb8 fg -> rgb8 bg ->
  d_ratio_before (snd (remediate cfg tf fg bg))
  <= d_ratio_after (snd (remediate cfg tf fg bg)).
Proof.
  intros Hf Hb. unfold remediate.
  destruct (Rlt_dec _ _) as [Hlow|Hok]; simpl; [|lra].
  destruct (Rgt_dec _ _) as [Hbest|Hnot]; simpl; [lra|].
  apply contrast_ratio_le_bw; assumption.
Qed.

(** At or above the threshold the policy does nothing. *)
Lemma remediate_passing (cfg : config) (tf : text_frame) (fg bg : rgb) :
  min_contrast cfg <= contrast_ratio fg bg ->
  remediate cfg tf fg bg
  = (tf, mk_decision None (contrast_ratio fg bg) (contrast_ratio fg bg)
                     false "").
Proof.
  intros H. unfold remediate. destruct (Rlt_dec _ _); [lra | reflexivity].
Qed.

End Remediation.

(** ** Scenario A in numbers *)

Section ScenarioA.
Local Open Scope R_scope.

Lemma div_gt_const (c n d : R) : 0 < d -> c * d < n -> c < n / d.
Proof.
  intros Hd H. apply Rmult_lt_reg_r with d; [assumption|].
  replace (n / d * d) with n by (field; lra). exact H.
Qed.

Lemma div_lt_const (c n d : R) : 0 < d -> n < c * d -> n / d < c.
Proof.
  intros Hd H. apply Rmult_lt_reg_r with d; [assumption|].
  replace (n / d * d) with n by (field; lra). exact H.
Qed.

Lemma contrast_ratio_darker_first (a b : rgb) :
  rel_luminance a <= rel_luminance b ->
  contrast_ratio a b = (rel_luminance b + 0.05) / (rel_luminance a + 0.05).
Proof.
  intros H. rewrite contrast_ratio_maxmin, Rmax_right, Rmin_left by lra.
  reflexivity.
Qed.

Lemma scenario_ratio_before :
  1.035506 < contrast_ratio scenario_fg scenario_bg < 1.035507.
Proof.
  pose proof lum_234_239_241 as Hf. pose proof lum_242 as Hb.
  unfold scenario_fg, scenario_bg.
  rewrite contrast_ratio_darker_first by lra.
  split; [apply div_gt_const | apply div_lt_const]; lra.
Qed.

Lemma scenario_ratio_dark :
  13.03317 < contrast_ratio scenario_dark scenario_bg < 13.03318.
Proof.
  pose proof lum_13_42_71 as Hd. pose proof lum_242 as Hb.
  unfold scenario_dark, scenario_bg.
  rewrite contrast_ratio_darker_first by lra.
  split; [apply div_gt_const | apply div_lt_const]; lra.
Qed.

Lemma scenario_ratio_light :
  1.11 < contrast_ratio scenario_light scenario_bg < 1.12.
Proof.
  pose proof lum_242 as Hb. unfold scenario_light, scenario_bg.
  rewrite contrast_ratio_white by (unfold rgb8; lia).
  split; [apply div_gt_const | apply div_lt_const]; lra.
Qed.

(** With the scenario's brand colours and the default threshold the
    policy picks the dark brand colour. *)
Lemma scenario_remediate (cfg : config) (tf : text_frame) :
  brand_dark cfg = scenario_dark -> brand_light cfg = scenario_light ->
  min_contrast cfg = 4.5 ->
  remediate cfg tf scenario_fg scenario_bg
  = (set_runs_color tf scenario_dark,
     mk_decision (Some scenario_dark)
                 (contrast_ratio scenario_fg scenario_bg)
                 (contrast_ratio scenario_dark scenario_bg) true "").
Proof.
  intros Hd Hl Hm.
  pose proof scenario_ratio_before. pose proof scenario_ratio_dark.
  pose proof scenario_ratio_light.
  unfold remediate. rewrite Hd, Hl, Hm.
  destruct (Rlt_dec _ _) as [_|Hn]; [|lra].
  destruct (Rge_dec _ _) as [_|Hn]; [|lra].
  rewrite Rmax_left by lra.
  destruct (Rgt_dec _ _) as [_|Hn]; [reflexivity | lra].
Qed.

Lemma scenario_round_before :
  py_round3 (contrast_ratio scenario_fg scenario_bg) = 1.036.
Proof.
  pose proof scenario_ratio_before.
  rewrite (py_round3_near _ 1036); lra.
Qed.

Lemma scenario_round_after :
  py_round3 (contrast_ratio scenario_dark scenario_bg) = 13.033.
Proof.
  pose proof scenario_ratio_dark.
  rewrite (py_round3_near _ 13033); lra.
Qed.

End ScenarioA.

(** ** The pass over shapes, slides and the deck *)

Section ProcessFacts.
Local Open Scope R_scope.

Lemma astype_uint8_range (q : Q) : (0 <= astype_uint8 q <= 255)%Z.
Proof.
  unfold astype_uint8. pose proof (Z.mod_pos_bound (py_int q) 256). lia.
Qed.

Lemma median_rgb_rgb8 (px : list rgb) : rgb8 (median_rgb px).
Proof. unfold median_rgb, rgb8. repeat split; apply astype_uint8_range. Qed.

Lemma black_rgb8 : rgb8 (0, 0, 0)%Z.
Proof. unfold rgb8. lia. Qed.

Lemma estimate_rgb8 (region : list rgb) :
  rgb8 (fst (estimate_fg_bg_from_region region))
  /\ rgb8 (snd (estimate_fg_bg_from_region region)).
Proof.
  unfold estimate_fg_bg_from_region.
  destruct (select (dark_mask region) region);
    [cbn [fst snd]; split; [apply black_rgb8 | apply median_rgb_rgb8]|].
  destruct (select (map negb (dark_mask region)) region);
    [cbn [fst snd]; split; [apply black_rgb8 | apply median_rgb_rgb8]|].
  destruct (Rgt_dec _ _); cbn [fst snd]; split; apply median_rgb_rgb8.
Qed.

Lemma run_colors_rtl (tf : text_frame) :
  run_colors (ensure_paragraph_rtl tf) = run_colors tf.
Proof.
  unfold run_colors, ensure_paragraph_rtl. rewrite map_map.
  apply map_ext. intros p. simpl. rewrite map_map. reflexivity.
Qed.

(** What an audit record says about the shape it was written for. *)
Lemma process_shape_inv (cfg : config) (idx : Z) (img : image)
      (sx sy : Q) (shp : Shape.t) (a : Audit.AuditItem) :
  snd (process_shape cfg idx img sx sy shp) = Some a ->
  exists tf0,
    Shape.text_frame shp = Some tf0
    /\ region_size (sampled_region cfg img sx sy shp) <> 0%Z
    /\ rgb8 (Audit.measured_fg a) /\ rgb8 (Audit.measured_bg a)
    /\ Audit.shape_id a = Shape.shape_id shp
    /\ let r := remediate cfg (ensure_paragraph_rtl tf0)
                          (Audit.measured_fg a) (Audit.measured_bg a) in
       fst (process_shape cfg idx img sx sy shp)
       = Shape.mk (Shape.shape_id shp) (Shape.name shp) (Shape.left shp)
                  (Shape.top shp) (Shape.width shp) (Shape.height shp)
                  (Some (fst r))
       /\ Audit.ratio_before a = py_round3 (d_ratio_before (snd r))
       /\ Audit.ratio_after a = py_round3 (d_ratio_after (snd r))
       /\ Audit.fixed a = d_fixed (snd r)
       /\ Audit.applied_color a = applied (snd r)
       /\ Audit.note a = d_note (snd r).
Proof.
  unfold process_shape, sampled_region.
  destruct (Shape.text_frame shp) as [tf0|]; [|discriminate].
  destruct (region_size _ =? 0)%Z eqn:E; [discriminate|].
  apply Z.eqb_neq in E.
  pose proof (estimate_rgb8
    (List.concat (region_of img (bbox_of (dpi cfg) (pad_px cfg) img sx sy shp))))
    as [Hfg Hbg].
  destruct (estimate_fg_bg_from_region _) as [fg_rgb bg_rgb].
  simpl in Hfg, Hbg.
  match goal with
  | |- context [remediate cfg _ ?f _] => remember f as fg_before eqn:Hfb0
  end.
  assert (rgb8 fg_before) as Hfb.
  { subst fg_before. destruct (current_colors _); [assumption|].
    apply median_rgb_rgb8. }
  clear Hfb0.
  destruct (remediate cfg (ensure_paragraph_rtl tf0) fg_before bg_rgb)
    as [tf' d] eqn:Er.
  simpl. intros [= <-]. exists tf0. simpl. rewrite Er. simpl.
  repeat split; auto.
Qed.

Lemma process_shape_monotone (cfg : config) (idx : Z) (img : image)
      (sx sy : Q) (shp : Shape.t) (a : Audit.AuditItem) :
  snd (process_shape cfg idx img sx sy shp) = Some a ->
  Audit.ratio_before a <= Audit.ratio_after a.
Proof.
  intros H. apply process_shape_inv in H.
  destruct H as (tf0 & _ & _ & Hf & Hb & _ & _ & -> & -> & _).
  apply py_round3_mono, remediate_monotone; assumption.
Qed.

Lemma process_shapes_audit (cfg : config) (idx : Z) (img : image)
      (sx sy : Q) (shapes : list Shape.t) (a : Audit.AuditItem) :
  In a (snd (process_shapes cfg idx img sx sy shapes)) ->
  exists shp, In shp shapes
              /\ snd (process_shape cfg idx img sx sy shp) = Some a.
Proof.
  induction shapes as [|shp rest IH]; simpl; [tauto|].
  destruct (process_shape cfg idx img sx sy shp) as [shp' o] eqn:E.
  destruct (process_shapes cfg idx img sx sy rest) as [rest' audits].
  simpl in *. intros Hin.
  assert (o = Some a \/ In a audits) as [->|Hin'].
  { destruct o; simpl in Hin; [destruct Hin; [left; congruence | right; assumption]
                              | right; assumption]. }
  - exists shp. split; [left; reflexivity | rewrite E; reflexivity].
  - destruct (IH Hin') as (s & Hs & Hs'). exists s. split; [right|]; assumption.
Qed.

Lemma process_slides_audit (cfg : config) (sw sh : Z) (sls : list slide) :
  forall (idx : Z) (images : list image) (a : Audit.AuditItem),
  In a (snd (process_slides cfg sw sh idx sls images)) ->
  exists idx' img sx sy shp,
    snd (process_shape cfg idx' img sx sy shp) = Some a.
Proof.
  induction sls as [|sl sls IH]; intros idx images a; simpl; [tauto|].
  destruct images as [|img images]; simpl; [tauto|].
  destruct (process_slide cfg sw sh idx img sl) as [sl' a1] eqn:E1.
  destruct (process_slides cfg sw sh (idx + 1) sls images) as [rest a2] eqn:E2.
  simpl. intros Hin. apply in_app_or in Hin. destruct Hin as [Hin|Hin].
  - unfold process_slide in E1.
    match type of E1 with
    | process_shapes _ _ _ ?sx ?sy _ = _ =>
        pose proof (process_shapes_audit cfg idx img sx sy sl a) as Hs
    end.
    rewrite E1 in Hs. destruct (Hs Hin) as (shp & _ & Hshp).
    eauto 6.
  - apply (IH (idx + 1)%Z images a). rewrite E2. exact Hin.
Qed.

(** The audit report is written only by a run that went through. *)
Lemma process_pptx_audits (w : world) (prs : presentation) (stem : string)
      (cfg : config) (audit_out : bool) (audits : list Audit.AuditItem) :
  audit_json (snd (process_pptx w prs stem cfg audit_out)) = Some audits ->
  exists images,
    audits = snd (process_slides cfg (slide_width prs) (slide_height prs) 0
                                 (slides prs) images).
Proof.
  unfold process_pptx.
  destruct (pptx_to_pdf w stem) as [e|pdf]; [discriminate|].
  destruct (negb _); [discriminate|].
  destruct (process_slides _ _ _ _ _ _) as [sls au] eqn:E. simpl.
  destruct audit_out; [|discriminate]. intros [= <-].
  eexists. rewrite E. reflexivity.
Qed.

End ProcessFacts.

(** ** Two runs on the example deck *)

Section ExampleRuns.
Local Open Scope R_scope.

(** One black pixel beside one pixel of a lighter colour: Otsu splits
    them, and black is the foreground. *)
Lemma estimate_black_beside (bg : rgb) :
  dark_mask (List.concat (ex_img bg)) = [true; false] ->
  median_rgb [bg] = bg ->
  0 < rel_luminance bg ->
  estimate_fg_bg_from_region (List.concat (ex_img bg)) = ((0, 0, 0)%Z, bg).
Proof.
  intros Hm Hmed Hl. unfold estimate_fg_bg_from_region. rewrite Hm.
  cbn [select map negb List.concat ex_img app]. rewrite Hmed.
  set (m := median_rgb _).
  assert (m = (0, 0, 0)%Z) as -> by reflexivity.
  destruct (Rgt_dec _ _) as [H|_]; [|reflexivity].
  rewrite rel_luminance_black in H. lra.
Qed.

(** The example text box on the example page. *)
Lemma ex_process_shape (dark light : rgb) (c : option rgb) (bg fg_before : rgb) :
  dark_mask (List.concat (ex_img bg)) = [true; false] ->
  median_rgb [bg] = bg ->
  0 < rel_luminance bg ->
  match c with Some x => median_rgb [x] | None => (0, 0, 0)%Z end = fg_before ->
  process_shape (ex_cfg dark light) 0 (ex_img bg)
                (ex_scale 2 1828800) (ex_scale 1 914400) (ex_shape c)
  = (let r := remediate (ex_cfg dark light)
                (ensure_paragraph_rtl [mk_paragraph None [mk_run "Vision" c None]])
                fg_before bg in
     (Shape.mk 7 " Title 1 " 0 0 1828800 914400 (Some (fst r)),
      Some (Audit.mk 1 7 "Title 1" (0, 0, 2, 1)%Z fg_before bg
                     (py_round3 (d_ratio_before (snd r)))
                     (py_round3 (d_ratio_after (snd r)))
                     (d_fixed (snd r)) (applied (snd r)) (d_note (snd r))))).
Proof.
  intros Hm Hmed Hl Hfg.
  unfold process_shape.
  cbn [ex_shape Shape.text_frame Shape.shape_id Shape.name Shape.left
       Shape.top Shape.width Shape.height ex_cfg dpi pad_px].
  replace (bbox_of 1 0 (ex_img bg) _ _ _) with (0, 0, 2, 1)%Z
    by (vm_compute; reflexivity).
  change (region_of (ex_img bg) (0, 0, 2, 1)%Z) with (ex_img bg).
  change (region_size (ex_img bg) =? 0)%Z with false.
  rewrite (estimate_black_beside bg Hm Hmed Hl).
  change (strip " Title 1 ") with "Title 1"%string.
  change (0 + 1)%Z with 1%Z.
  match goal with
  | |- context [remediate _ _ ?f _] =>
      assert (f = fg_before) as -> by (destruct c; exact Hfg)
  end.
  destruct (remediate _ _ _ _) as [tf' d]. reflexivity.
Qed.

(** A deck of one slide holding one shape goes through [process_pptx]
    as that shape goes through [process_shape]. *)
Lemma ex_process_pptx (dark light : rgb) (img : image) (shp : Shape.t) :
  img_width img = 2%Z -> img_height img = 1%Z ->
  process_pptx (ex_world [img]) (ex_prs [shp]) "deck.pdf"
               (ex_cfg dark light) true
  = (let r := process_shape (ex_cfg dark light) 0 img
                (ex_scale 2 1828800) (ex_scale 1 914400) shp in
     (inr tt,
      mk_outputs (Some (ex_prs [fst r]))
                 (Some match snd r with Some a => [a] | None => [] end))).
Proof.
  intros Hw Hh. unfold process_pptx.
  cbn [pptx_to_pdf ensure_soffice ex_world which_soffice returncode
       stem_pdf_exists render_pdf_pages negb Z.eqb ex_prs slides slide_width
       slide_height List.length Nat.eqb process_slides].
  unfold process_slide, process_shapes. rewrite Hw, Hh.
  change (inject_Z 2 / inject_Z (Z.max 1 (emu_to_px 1828800 (dpi (ex_cfg dark light)))))%Q
    with (ex_scale 2 1828800).
  change (inject_Z 1 / inject_Z (Z.max 1 (emu_to_px 914400 (dpi (ex_cfg dark light)))))%Q
    with (ex_scale 1 914400).
  destruct (process_shape _ _ _ _ _ _) as [shp' [a|]]; reflexivity.
Qed.

(** The scenario's measurement: the run is light (234,239,241), the
    background measures (242,242,242). *)
Lemma scenario_shape (dark light : rgb) :
  process_shape (ex_cfg dark light) 0 (ex_img scenario_bg)
                (ex_scale 2 1828800) (ex_scale 1 914400)
                (ex_shape (Some scenario_fg))
  = (let r := remediate (ex_cfg dark light)
                (ensure_paragraph_rtl
                   [mk_paragraph None [mk_run "Vision" (Some scenario_fg) None]])
                scenario_fg scenario_bg in
     (Shape.mk 7 " Title 1 " 0 0 1828800 914400 (Some (fst r)),
      Some (Audit.mk 1 7 "Title 1" (0, 0, 2, 1)%Z scenario_fg scenario_bg
                     (py_round3 (d_ratio_before (snd r)))
                     (py_round3 (d_ratio_after (snd r)))
                     (d_fixed (snd r)) (applied (snd r)) (d_note (snd r))))).
Proof.
  apply ex_process_shape;
    [ vm_compute; reflexivity | vm_compute; reflexivity
    | pose proof lum_242; unfold scenario_bg; lra
    | vm_compute; reflexivity ].
Qed.

(** Scenario A end to end. *)
Lemma scenario_run :
  process_pptx (ex_world [ex_img scenario_bg])
               (ex_prs [ex_shape (Some scenario_fg)]) "deck.pdf"
               (ex_cfg scenario_dark scenario_light) true
  = (inr tt,
     mk_outputs
       (Some (ex_prs
          [Shape.mk 7 " Title 1 " 0 0 1828800 914400
             (Some (set_runs_color
                (ensure_paragraph_rtl
                   [mk_paragraph None [mk_run "Vision" (Some scenario_fg) None]])
                scenario_dark))]))
       (Some [Audit.mk 1 7 "Title 1" (0, 0, 2, 1)%Z scenario_fg scenario_bg
                       1.036 13.033 true (Some scenario_dark) ""])).
Proof.
  rewrite ex_process_pptx by reflexivity.
  rewrite scenario_shape.
  rewrite scenario_remediate by reflexivity.
  cbn [fst snd d_ratio_before d_ratio_after d_fixed applied d_note].
  rewrite scenario_round_before, scenario_round_after. reflexivity.
Qed.

(** With two brand colours that are the background colour itself no
    brand colour improves on the text, and black is forced. *)
Lemma fallback_remediate (tf : text_frame) :
  remediate (ex_cfg scenario_bg scenario_bg) tf scenario_fg scenario_bg
  = (set_runs_color tf (0, 0, 0)%Z,
     mk_decision (Some (0, 0, 0)%Z)
                 (contrast_ratio scenario_fg scenario_bg)
                 (contrast_ratio (0, 0, 0)%Z scenario_bg) true
                 "used BW fallback").
Proof.
  pose proof scenario_ratio_before. pose proof scenario_ratio_light.
  pose proof lum_242 as Hb.
  assert (rgb8 scenario_bg) as H8 by (unfold scenario_bg, rgb8; lia).
  assert (contrast_ratio scenario_bg scenario_bg = 1) as E1
    by (apply contrast_ratio_self, H8).
  assert (18 < contrast_ratio (0, 0, 0)%Z scenario_bg) as Hk.
  { rewrite (contrast_ratio_black _ H8). unfold scenario_bg.
    apply div_gt_const; lra. }
  unfold remediate.
  cbn [ex_cfg brand_dark brand_light min_contrast]. rewrite E1.
  destruct (Rlt_dec _ _) as [_|Hn]; [|lra].
  rewrite Rmax_left by lra.
  destruct (Rgt_dec 1 _) as [Hn|_]; [lra|].
  unfold scenario_light in *.
  destruct (Rge_dec _ _) as [_|Hn]; [|lra].
  rewrite Rmax_left by lra. reflexivity.
Qed.

Lemma fallback_round_after :
  py_round3 (contrast_ratio (0, 0, 0)%Z scenario_bg) = 18.758.
Proof.
  pose proof lum_242 as Hb.
  assert (18.7584 < contrast_ratio (0, 0, 0)%Z scenario_bg < 18.7585) as Hk.
  { rewrite contrast_ratio_black by (unfold scenario_bg, rgb8; lia).
    unfold scenario_bg. split; [apply div_gt_const | apply div_lt_const]; lra. }
  rewrite (py_round3_near _ 18758); lra.
Qed.

Lemma fallback_run :
  process_pptx (ex_world [ex_img scenario_bg])
               (ex_prs [ex_shape (Some scenario_fg)]) "deck.pdf"
               (ex_cfg scenario_bg scenario_bg) true
  = (inr tt,
     mk_outputs
       (Some (ex_prs
          [Shape.mk 7 " Title 1 " 0 0 1828800 914400
             (Some (set_runs_color
                (ensure_paragraph_rtl
                   [mk_paragraph None [mk_run "Vision" (Some scenario_fg) None]])
                (0, 0, 0)%Z))]))
       (Some [Audit.mk 1 7 "Title 1" (0, 0, 2, 1)%Z scenario_fg scenario_bg
                       1.036 18.758 true (Some (0, 0, 0)%Z)
                       "used BW fallback"])).
Proof.
  rewrite ex_process_pptx by reflexivity.
  rewrite scenario_shape.
  rewrite fallback_remediate.
  cbn [fst snd d_ratio_before d_ratio_after d_fixed applied d_note].
  rewrite scenario_round_before, fallback_round_after. reflexivity.
Qed.

(** A text box without explicit colours whose pixels are black on white
    measures 21 and passes. *)
Lemma passing_shape :
  process_shape (ex_cfg scenario_dark scenario_light) 0
                (ex_img (255, 255, 255)%Z)
                (ex_scale 2 1828800) (ex_scale 1 914400) (ex_shape None)
  = (rtl_enforced (ex_shape None),
     Some (Audit.mk 1 7 "Title 1" (0, 0, 2, 1)%Z (0, 0, 0)%Z (255, 255, 255)%Z
                    21 21 false None "")).
Proof.
  rewrite (ex_process_shape _ _ None (255, 255, 255)%Z (0, 0, 0)%Z);
    [ | vm_compute; reflexivity | vm_compute; reflexivity
      | rewrite rel_luminance_white; lra | reflexivity ].
  assert (contrast_ratio (0, 0, 0)%Z (255, 255, 255)%Z = 21) as E21
    by (rewrite contrast_ratio_sym; apply contrast_ratio_white_black).
  rewrite remediate_passing by (rewrite E21; unfold ex_cfg; simpl; lra).
  cbn [fst snd d_ratio_before d_ratio_after d_fixed applied d_note].
  rewrite E21.
  rewrite (py_round3_near 21 21000) by lra.
  replace (IZR 21000 / 1000) with 21 by lra. reflexivity.
Qed.

(** A text box placed beyond the right edge of the page samples no
    pixel: the pass enforces RTL on it and moves on, and the report of
    the run is empty. *)
Lemma off_page_run :
  region_size (sampled_region (ex_cfg scenario_dark scenario_light)
                 (ex_img scenario_bg) (ex_scale 2 1828800)
                 (ex_scale 1 914400) ex_shape_off) = 0%Z
  /\ process_pptx (ex_world [ex_img scenario_bg]) (ex_prs [ex_shape_off])
                  "deck.pdf" (ex_cfg scenario_dark scenario_light) true
     = (inr tt,
        mk_outputs (Some (ex_prs [rtl_enforced ex_shape_off])) (Some [])).
Proof.
  assert (region_size (sampled_region (ex_cfg scenario_dark scenario_light)
                 (ex_img scenario_bg) (ex_scale 2 1828800)
                 (ex_scale 1 914400) ex_shape_off) = 0%Z) as E
    by (vm_compute; reflexivity).
  split; [exact E|].
  rewrite ex_process_pptx by reflexivity.
  unfold process_shape.
  cbn [ex_shape_off Shape.text_frame].
  unfold sampled_region in E. cbn [ex_shape_off] in E. rewrite E.
  reflexivity.
Qed.

End ExampleRuns.

(** ** The claims about the remediation pass *)

Section PassClaims.
Local Open Scope R_scope.

(** C1. Every record of the audit report a run writes has
    [ratio_after >= ratio_before], whatever the brand colours and the
    threshold, the black-or-white fallback included. *)
Theorem remediation_monotonicity (w : world) (prs : presentation)
        (stem : string) (cfg : config) (audit_out : bool)
        (audits : list Audit.AuditItem) :
  audit_json (snd (process_pptx w prs stem cfg audit_out)) = Some audits ->
  Forall (fun a => Audit.ratio_after a >= Audit.ratio_before a) audits.
Proof.
  intros H. apply process_pptx_audits in H. destruct H as (images & ->).
  apply Forall_forall. intros a Ha. apply process_slides_audit in Ha.
  destruct Ha as (idx' & img & sx & sy & shp & Hs).
  apply Rle_ge. eapply process_shape_monotone. exact Hs.
Qed.

(** The fallback run: both brand colours are rejected, black is applied,
    and the record goes from 1.036 to 18.758. *)
Lemma remediation_monotonicity_witness :
  Forall (fun a => Audit.ratio_after a >= Audit.ratio_before a)
         [Audit.mk 1 7 "Title 1" (0, 0, 2, 1)%Z scenario_fg scenario_bg
                   1.036 18.758 true (Some (0, 0, 0)%Z) "used BW fallback"].
Proof.
  apply (remediation_monotonicity
           (ex_world [ex_img scenario_bg])
           (ex_prs [ex_shape (Some scenario_fg)]) "deck.pdf"
           (ex_cfg scenario_bg scenario_bg) true).
  rewrite fallback_run. reflexivity.
Defined.









End PassClaims.

(** ** Skipped regions and failed renderings (claims C9 and C6) *)

Section SkipAndFailure.

(** Counterexample to C9 as stated: the text box beyond the right edge
    samples a zero-area region, the run succeeds, and the report it
    writes holds no record for the shape, hence no note about the skip. *)
Lemma zero_area_skip_is_not_noted :
  region_size (sampled_region (ex_cfg scenario_dark scenario_light)
                 (ex_img scenario_bg) (ex_scale 2 1828800)
                 (ex_scale 1 914400) ex_shape_off) = 0%Z
  /\ ~ (exists audits a,
          audit_json
            (snd (process_pptx (ex_world [ex_img scenario_bg])
                    (ex_prs [ex_shape_off]) "deck.pdf"
                    (ex_cfg scenario_dark scenario_light) true))
          = Some audits
          /\ In a audits
          /\ Audit.shape_id a = Shape.shape_id ex_shape_off
          /\ Audit.note a <> ""%string).
Proof.
  destruct off_page_run as [Hz Hrun]. split; [exact Hz|].
  intros (audits & a & Hau & Hin & _). rewrite Hrun in Hau.
  cbn [snd audit_json] in Hau. injection Hau as <-. destruct Hin.
Qed.

(** C9 (amended). A shape whose pixel region is zero-area is skipped
    silently: the pass appends no audit record for it, so no note, and
    leaves it as RTL enforcement alone would, every run keeping its
    colour. *)
Theorem zero_area_region_skipped (cfg : config) (idx : Z) (img : image)
        (sx sy : Q) (shp : Shape.t) :
  region_size (sampled_region cfg img sx sy shp) = 0%Z ->
  process_shape cfg idx img sx sy shp = (rtl_enforced shp, None)
  /\ option_map run_colors
       (Shape.text_frame (fst (process_shape cfg idx img sx sy shp)))
     = option_map run_colors (Shape.text_frame shp).
Proof.
  intros Hz. unfold sampled_region in Hz.
  assert (process_shape cfg idx img sx sy shp = (rtl_enforced shp, None)) as E.
  { unfold process_shape, rtl_enforced. destruct shp as [i n l t wd h [tf|]];
      cbn [Shape.text_frame Shape.shape_id Shape.name Shape.left Shape.top
           Shape.width Shape.height option_map] in *; [|reflexivity].
    rewrite Hz. reflexivity. }
  split; [exact E|]. rewrite E. unfold rtl_enforced.
  cbn [fst Shape.text_frame]. destruct (Shape.text_frame shp); [|reflexivity].
  cbn [option_map]. rewrite run_colors_rtl. reflexivity.
Qed.

Lemma zero_area_region_skipped_witness :
  process_shape (ex_cfg scenario_dark scenario_light) 0 (ex_img scenario_bg)
                (ex_scale 2 1828800) (ex_scale 1 914400) ex_shape_off
  = (rtl_enforced ex_shape_off, None).
Proof.
  apply (zero_area_region_skipped
           (ex_cfg scenario_dark scenario_light) 0 (ex_img scenario_bg)
           (ex_scale 2 1828800) (ex_scale 1 914400) ex_shape_off).
  vm_compute. reflexivity.
Defined.

(** The converter step fails exactly when LibreOffice is missing, exits
    non-zero, or leaves no PDF behind; the error is a [RuntimeError]. *)
Lemma pptx_to_pdf_fails_iff (w : world) (stem : string) :
  (which_soffice w = None \/ returncode w <> 0%Z
   \/ (stem_pdf_exists w = false /\ glob_pdf w = []))
  <-> exists msg, pptx_to_pdf w stem = inl (RuntimeError msg).
Proof.
  unfold pptx_to_pdf, ensure_soffice.
  destruct (which_soffice w) as [s|].
  - destruct (Z.eqb_spec (returncode w) 0) as [E|E]; cbn [negb].
    + destruct (stem_pdf_exists w).
      * split; [intros [H|[H|[H _]]]; congruence | intros [m H]; discriminate].
      * destruct (glob_pdf w).
        -- split; [eauto | intros _; right; right; split; reflexivity].
        -- split; [intros [H|[H|[_ H]]]; congruence | intros [m H]; discriminate].
    + split; [eauto | intros _; right; left; exact E].
  - split; [eauto | intros _; left; reflexivity].
Qed.

(** C6. When the converter is missing, exits non-zero or produces no PDF,
    or when the number of rendered pages differs from the number of
    slides, [process_pptx] ends with an error and has written neither the
    output document nor an audit report. *)
Theorem render_failure_is_atomic (w : world) (prs : presentation)
        (stem : string) (cfg : config) (audit_out : bool) :
  which_soffice w = None \/ returncode w <> 0%Z
  \/ (stem_pdf_exists w = false /\ glob_pdf w = [])
  \/ (exists pdf, pptx_to_pdf w stem = inr pdf
                  /\ List.length (render_pdf_pages w pdf (dpi cfg))
                     <> List.length (slides prs)) ->
  exists e, process_pptx w prs stem cfg audit_out
            = (inl e, mk_outputs None None).
Proof.
  intros H.
  assert ((exists msg, pptx_to_pdf w stem = inl (RuntimeError msg))
          \/ (exists pdf, pptx_to_pdf w stem = inr pdf
                          /\ List.length (render_pdf_pages w pdf (dpi cfg))
                             <> List.length (slides prs))) as [[msg E]|(pdf & E & Hn)].
  { destruct H as [H|[H|[H|H]]]; [left|left|left|right; exact H];
      apply pptx_to_pdf_fails_iff; tauto. }
  - unfold process_pptx. rewrite E. eauto.
  - unfold process_pptx. rewrite E.
    apply Nat.eqb_neq in Hn. rewrite Hn. cbn [negb]. eauto.
Qed.

Lemma render_failure_is_atomic_witness :
  exists e,
    process_pptx (mk_world None 0 "" "" false [] (fun _ _ => []))
                 (ex_prs [ex_shape None]) "deck.pdf"
                 (ex_cfg scenario_dark scenario_light) true
    = (inl e, mk_outputs None None).
Proof.
  apply (render_failure_is_atomic
           (mk_world None 0 "" "" false [] (fun _ _ => []))
           (ex_prs [ex_shape None]) "deck.pdf"
           (ex_cfg scenario_dark scenario_light) true).
  left. reflexivity.
Defined.

End SkipAndFailure.

(** ** Otsu's threshold *)

Section OtsuLoop.
Local Open Scope Q_scope.

Variable hist : Z -> Q.
Variable total : Q.
Hypothesis hist_nonneg : forall t, 0 <= hist t.
Hypothesis weight_le_total : forall n, weight_below hist n <= total.

Lemma weight_below_nonneg (n : nat) : 0 <= weight_below hist n.
Proof.
  induction n as [|n IH]; simpl; [lra|]. pose proof (hist_nonneg (Z.of_nat n)). lra.
Qed.

Lemma weight_below_mono (n m : nat) :
  (n <= m)%nat -> weight_below hist n <= weight_below hist m.
Proof.
  induction 1 as [|m _ IH]; [lra|]. simpl.
  pose proof (hist_nonneg (Z.of_nat m)). lra.
Qed.

Lemma class_variance_nonneg (wb wf sb sa : Q) :
  0 <= wb -> 0 <= wf -> 0 <= class_variance wb wf sb sa.
Proof.
  intros Hb Hf. unfold class_variance.
  apply b64_nonneg, Qmult_le_0_compat;
    [apply b64_nonneg, Qmult_le_0_compat; assumption|].
  apply b64_nonneg.
  set (x := b64 (b64 (sb / wb) - b64 ((sa - sb) / wf))).
  change (x ^ 2) with (x * x).
  destruct (Qlt_le_dec x 0) as [Hx|Hx].
  - setoid_replace (x * x) with ((- x) * (- x)) by ring.
    apply Qmult_le_0_compat; lra.
  - apply Qmult_le_0_compat; assumption.
Qed.

Lemma class_variance_sum_b (wb wf sb sb' sa : Q) :
  sb == sb' -> class_variance wb wf sb sa == class_variance wb wf sb' sa.
Proof.
  intros H. unfold class_variance.
  assert (b64 (sb / wb) = b64 (sb' / wb)) as ->
    by (apply b64_comp; rewrite H; reflexivity).
  assert (b64 ((sa - sb) / wf) = b64 ((sa - sb') / wf)) as ->
    by (apply b64_comp; rewrite H; reflexivity).
  reflexivity.
Qed.

Lemma best_split_extend (k m : nat) (mv : Q) (th : Z) :
  (k <= m)%nat ->
  (forall j, (k <= j < m)%nat -> ~ two_classes hist total j) ->
  best_split hist total k mv th -> best_split hist total m mv th.
Proof.
  intros Hkm Hnone
         [(Hmv & Hth & Hno)|(i & Hi & Hth & Htwo & Hmv & Hmax & Hfirst)].
  - left. repeat split; try assumption. intros j Hj.
    destruct (Nat.lt_ge_cases j k); [apply Hno; assumption | apply Hnone; lia].
  - right. exists i. split; [lia|split; [assumption|split; [assumption|split; [assumption|]]]].
    split; [|exact Hfirst].
    intros j Hj Hj2. destruct (Nat.lt_ge_cases j k) as [Hlt|Hge].
    + apply Hmax; assumption.
    + exfalso. apply (Hnone j); [lia | assumption].
Qed.

(** Once the upper class is empty it stays empty. *)
Lemma upper_class_stays_empty (k j : nat) :
  total - weight_below hist (S k) == 0 -> (k <= j)%nat ->
  ~ two_classes hist total j.
Proof.
  intros Hk Hkj [_ Hj]. apply Hj.
  pose proof (weight_below_mono (S k) (S j) ltac:(lia)).
  pose proof (weight_le_total (S j)). lra.
Qed.

Lemma otsu_loop_spec (n : nat) :
  forall (k : nat) (st : otsu_state),
  (k + n = 256)%nat ->
  otsu_invariant hist total k st ->
  let st' := otsu_loop hist total (moment_below hist 256)
                       (map Z.of_nat (seq k n)) st in
  best_split hist total 256 (max_var st') (threshold st').
Proof.
  induction n as [|n IH]; intros k st Hk (Hw & Hs & Hbest).
  - simpl. replace 256%nat with k by lia. exact Hbest.
  - cbn [seq map otsu_loop]. rewrite Hw.
    change (weight_below hist k + hist (Z.of_nat k))
      with (weight_below hist (S k)).
    pose proof (weight_below_nonneg k) as Hk0.
    pose proof (weight_below_nonneg (S k)) as Hk1.
    pose proof (hist_nonneg (Z.of_nat k)) as Hh.
    pose proof (weight_le_total (S k)) as Hle.
    destruct (Qeq_bool (weight_below hist (S k)) 0) eqn:Eb.
    + (* continue: the lower class is still empty *)
      apply Qeq_bool_iff in Eb.
      apply IH; [lia|]. split; [reflexivity|]. cbn [sum_b max_var threshold].
      split.
      * simpl in Eb. assert (hist (Z.of_nat k) == 0) as H0 by lra.
        simpl. rewrite H0, Hs. ring.
      * apply (best_split_extend k (S k)); [lia| |assumption].
        intros j Hj [Hj1 _]. apply Hj1.
        replace j with k by lia. exact Eb.
    + apply Qeq_bool_neq in Eb.
      destruct (Qeq_bool (total - weight_below hist (S k)) 0) eqn:Ef.
      * (* break: the upper class is empty from here on *)
        apply Qeq_bool_iff in Ef. cbn [max_var threshold].
        apply (best_split_extend k 256); [lia| |assumption].
        intros j Hj. apply (upper_class_stays_empty k j Ef). lia.
      * apply Qeq_bool_neq in Ef.
        assert (two_classes hist total k) as Htwo by (split; assumption).
        assert (sum_b st + inject_Z (Z.of_nat k) * hist (Z.of_nat k)
                == moment_below hist (S k)) as Hs'
          by (simpl; rewrite Hs; reflexivity).
        match goal with
        | |- context [Qlt_le_dec (max_var st) ?v] => set (var_between := v)
        end.
        assert (var_between == between_class_variance hist total k) as Hv.
        { subst var_between. unfold between_class_variance.
          apply (class_variance_sum_b _ _ _ _ _ Hs'). }
        assert (0 <= between_class_variance hist total k) as Hv0.
        { unfold between_class_variance. apply class_variance_nonneg; lra. }
        destruct (Qlt_le_dec (max_var st) var_between) as [Hlt|Hge].
        -- apply IH; [lia|]. split; [reflexivity|]. split; [exact Hs'|].
           cbn [max_var threshold]. right. exists k.
           split; [lia|split; [reflexivity|split; [assumption|split; [assumption|]]]].
           split.
           ++ intros j Hj Hj2.
              destruct (Nat.eq_dec j k) as [->|Hne]; [lra|].
              destruct Hbest as [(_ & _ & Hno)|(i & Hi & _ & _ & Hmv & Hmax & _)].
              ** exfalso. apply (Hno j); [lia | assumption].
              ** pose proof (Hmax j ltac:(lia) Hj2). lra.
           ++ intros j Hj Hj2.
              destruct Hbest as [(_ & _ & Hno)|(i & Hi & _ & _ & Hmv & Hmax & _)].
              ** exfalso. apply (Hno j); [lia | assumption].
              ** pose proof (Hmax j ltac:(lia) Hj2). lra.
        -- apply IH; [lia|]. split; [reflexivity|]. split; [exact Hs'|].
           cbn [max_var threshold].
           destruct Hbest
             as [(Hmv & _ & _)|(i & Hi & Hth & Hi2 & Hmv & Hmax & Hfirst)];
             [lra|].
           right. exists i. split; [lia|split; [assumption|split; [assumption|split; [assumption|]]]].
           split; [|exact Hfirst].
           intros j Hj Hj2.
           destruct (Nat.eq_dec j k) as [->|Hne]; [lra|].
           apply Hmax; [lia | assumption].
Qed.

End OtsuLoop.

Section OtsuThreshold.
Local Open Scope Q_scope.

(** The weight below bin [n] counts the pixels whose gray level is in
    [0, n). *)
Lemma count_below_step (gray : list Z) (n : nat) :
  (List.length (filter (fun g => (0 <=? g) && (g <? Z.of_nat (S n)))%Z gray)
   = List.length (filter (fun g => (0 <=? g) && (g <? Z.of_nat n))%Z gray)
     + count_occ Z.eq_dec gray (Z.of_nat n))%nat.
Proof.
  induction gray as [|x gray IH]; [reflexivity|].
  cbn [filter count_occ].
  destruct (Z.leb_spec 0 x), (Z.ltb_spec x (Z.of_nat (S n))),
           (Z.ltb_spec x (Z.of_nat n)), (Z.eq_dec x (Z.of_nat n));
    cbn [andb List.length]; lia.
Qed.

Lemma weight_below_counts (gray : list Z) (n : nat) :
  weight_below (bincount gray) n
  == inject_Z (Z.of_nat
       (List.length (filter (fun g => (0 <=? g) && (g <? Z.of_nat n))%Z gray))).
Proof.
  induction n as [|n IH].
  - cbn [weight_below Z.of_nat].
    assert (filter (fun g => (0 <=? g) && (g <? 0))%Z gray = []) as ->.
    { induction gray as [|x gray IHg]; [reflexivity|]. cbn [filter].
      destruct (Z.leb_spec 0 x), (Z.ltb_spec x 0); cbn [andb];
        try assumption; lia. }
    reflexivity.
  - cbn [weight_below]. rewrite IH. unfold bincount.
    rewrite count_below_step, Nat2Z.inj_add, inject_Z_plus. reflexivity.
Qed.

Lemma bincount_nonneg (gray : list Z) (t : Z) : 0 <= bincount gray t.
Proof.
  unfold bincount. change 0 with (inject_Z 0). rewrite <- Zle_Qle. lia.
Qed.

Lemma bincount_weight_le (gray : list Z) (n : nat) :
  weight_below (bincount gray) n <= inject_Z (Z.of_nat (List.length gray)).
Proof.
  rewrite weight_below_counts, <- Zle_Qle. apply inj_le, filter_length_le.
Qed.

Lemma sum_all_moment (hist : Z -> Q) (n : nat) :
  fold_left (fun acc t => acc + inject_Z t * hist t)
            (map Z.of_nat (seq 0 n)) 0
  = moment_below hist n.
Proof.
  induction n as [|n IH]; [reflexivity|].
  rewrite seq_S, map_app, fold_left_app, IH. reflexivity.
Qed.

(** [otsu_threshold] returns the split of maximal between-class variance
    among the splits with two non-empty classes, and the default 127
    when there is none. *)
Lemma otsu_threshold_spec (gray : list Z) :
  exists mv,
    best_split (bincount gray) (inject_Z (Z.of_nat (List.length gray))) 256
               mv (otsu_threshold gray).
Proof.
  unfold otsu_threshold.
  change (fold_left _ range256 0)
    with (fold_left (fun acc t => acc + inject_Z t * bincount gray t)
                    (map Z.of_nat (seq 0 256)) 0).
  rewrite sum_all_moment. eexists.
  apply (otsu_loop_spec (bincount gray) _ (bincount_nonneg gray)
                        (bincount_weight_le gray) 256 0%nat);
    [reflexivity|].
  split; [reflexivity|]. split; [reflexivity|].
  left. split; [reflexivity|]. split; [reflexivity|]. intros j Hj. lia.
Qed.

Lemma otsu_threshold_maximal (gray : list Z) (j : nat) :
  let hist := bincount gray in
  let total := inject_Z (Z.of_nat (List.length gray)) in
  (j < 256)%nat -> two_classes hist total j ->
  two_classes hist total (Z.to_nat (otsu_threshold gray))
  /\ between_class_variance hist total j
     <= between_class_variance hist total (Z.to_nat (otsu_threshold gray)).
Proof.
  intros hist total Hj Htwo.
  destruct (otsu_threshold_spec gray)
    as (mv & [(_ & _ & Hno)|(i & Hi & Hth & Hi2 & _ & Hmax & _)]).
  - exfalso. apply (Hno j Hj Htwo).
  - rewrite Hth, Nat2Z.id. split; [exact Hi2 | apply Hmax; assumption].
Qed.



Lemma otsu_threshold_range (gray : list Z) :
  (0 <= otsu_threshold gray <= 255)%Z.
Proof.
  destruct (otsu_threshold_spec gray)
    as (mv & [(_ & Hth & _)|(i & Hi & Hth & _)]); rewrite Hth; lia.
Qed.

End OtsuThreshold.

(** ** Masks as filters *)

Section MaskFacts.
Local Open Scope Q_scope.

Lemma gray_of_range (p : rgb) : (0 <= gray_of p <= 255)%Z.
Proof. destruct p as [[r g] b]. apply astype_uint8_range. Qed.

Lemma select_map {A : Type} (f : A -> bool) (l : list A) :
  select (map f l) l = filter f l.
Proof.
  induction l as [|x l IH]; [reflexivity|].
  cbn [map select filter]. rewrite IH. reflexivity.
Qed.

Lemma select_map_negb {A : Type} (f : A -> bool) (l : list A) :
  select (map negb (map f l)) l = filter (fun x => negb (f x)) l.
Proof. rewrite map_map. apply (select_map (fun x => negb (f x))). Qed.

Lemma filter_map_length {A B : Type} (g : A -> B) (f : B -> bool) (l : list A) :
  List.length (filter f (map g l))
  = List.length (filter (fun x => f (g x)) l).
Proof.
  induction l as [|x l IH]; [reflexivity|].
  cbn [map filter]. destruct (f (g x)); cbn [List.length]; rewrite IH; reflexivity.
Qed.

Lemma mask_mean_map {A : Type} (f : A -> bool) (l : list A) :
  mask_mean (map f l)
  = inject_Z (Z.of_nat (List.length (filter f l)))
    / inject_Z (Z.of_nat (List.length l)).
Proof.
  unfold mask_mean.
  rewrite length_map, (filter_map_length f (fun b => b) l). reflexivity.
Qed.



End MaskFacts.

(** ** Segmentation and colour estimation (claim C5) *)

Section Segmentation.





End Segmentation.

(* ================================================================== *)
(** * Part III: further properties of the code                          *)
(* ================================================================== *)

(** ** Parsing the brand colours *)

Section HexColours.

Example hex_to_rgb_tuple_default_dark :
  hex_to_rgb_tuple "#0D2A47" = Some (13, 42, 71)%Z.
Proof. reflexivity. Qed.

Example hex_to_rgb_tuple_five_chars :
  hex_to_rgb_tuple "12345" = Some (18, 52, 5)%Z.
Proof. reflexivity. Qed.

Example hex_to_rgb_tuple_signed : hex_to_rgb_tuple "#-f+f0a" = Some (-15, 15, 10)%Z.
Proof. reflexivity. Qed.

(** A leading no-break space (U+00A0) is whitespace for [str.strip]. *)
Example hex_to_rgb_tuple_nbsp :
  hex_to_rgb_tuple (String (Ascii.ascii_of_nat 160) "fa0")
  = Some (255, 170, 0)%Z.
Proof. reflexivity. Qed.

Lemma hex_digit_range (c : Ascii.ascii) (d : Z) :
  hex_digit c = Some d -> (0 <= d <= 15)%Z.
Proof.
  unfold hex_digit.
  repeat match goal with
         | |- context [if ?b then _ else _] => destruct b eqn:?
         end; intros [= <-]; lia.
Qed.

Lemma hex_digit_plain (c : Ascii.ascii) (d : Z) :
  hex_digit c = Some d -> is_space c = false /\ Ascii.eqb c "#"%char = false.
Proof.
  destruct c as [[] [] [] [] [] [] [] []]; vm_compute; intros H;
    try discriminate H; split; reflexivity.
Qed.

Lemma hex_digit_hex_char (upper : bool) (d : Z) :
  (0 <= d <= 15)%Z -> hex_digit (hex_char upper d) = Some d.
Proof.
  intros H.
  assert (d = 0 \/ d = 1 \/ d = 2 \/ d = 3 \/ d = 4 \/ d = 5 \/ d = 6 \/ d = 7
          \/ d = 8 \/ d = 9 \/ d = 10 \/ d = 11 \/ d = 12 \/ d = 13 \/ d = 14
          \/ d = 15)%Z as Hd by lia.
  destruct upper;
    repeat (destruct Hd as [->|Hd]; [reflexivity|]); subst d; reflexivity.
Qed.

Lemma lstrip_plain (c : Ascii.ascii) (s : string) :
  is_space c = false -> lstrip (String c s) = String c s.
Proof. intros H. cbn [lstrip]. rewrite H. reflexivity. Qed.

Lemma rstrip_plain (s : string) (c : Ascii.ascii) :
  is_space c = false ->
  rstrip (s ++ String c "") = (s ++ String c "")%string.
Proof.
  intros H. induction s as [|a s IH].
  - cbn [append rstrip]. rewrite H. reflexivity.
  - cbn [append rstrip]. rewrite IH. destruct s; reflexivity.
Qed.

(** Six hexadecimal digits, with or without the [#], are read pair by
    pair. *)
Lemma hex_to_rgb_tuple_digits (hash : bool) (c1 c2 c3 c4 c5 c6 : Ascii.ascii)
      (d1 d2 d3 d4 d5 d6 : Z) :
  hex_digit c1 = Some d1 -> hex_digit c2 = Some d2 ->
  hex_digit c3 = Some d3 -> hex_digit c4 = Some d4 ->
  hex_digit c5 = Some d5 -> hex_digit c6 = Some d6 ->
  let digits :=
    String c1 (String c2 (String c3 (String c4 (String c5 (String c6 ""))))) in
  hex_to_rgb_tuple (if hash then String "#"%char digits else digits)
  = Some (16 * d1 + d2, 16 * d3 + d4, 16 * d5 + d6)%Z.
Proof.
  intros H1 H2 H3 H4 H5 H6 digits.
  destruct (hex_digit_plain c1 d1 H1) as [S1 N1].
  destruct (hex_digit_plain c6 d6 H6) as [S6 _].
  assert (strip (if hash then String "#"%char digits else digits)
          = (if hash then String "#"%char digits else digits)) as E.
  { unfold strip. destruct hash.
    - rewrite lstrip_plain by reflexivity.
      change (String "#"%char digits)
        with (String "#"%char
                (String c1 (String c2 (String c3 (String c4 (String c5 ""))))
                 ++ String c6 "")%string)%string.
      change (String "#"%char
                (String c1 (String c2 (String c3 (String c4 (String c5 ""))))
                 ++ String c6 ""))%string
        with ((String "#"%char
                (String c1 (String c2 (String c3 (String c4 (String c5 ""))))))
              ++ String c6 "")%string.
      apply rstrip_plain, S6.
    - unfold digits. rewrite lstrip_plain by exact S1.
      change (String c1 (String c2 (String c3 (String c4 (String c5 (String c6 ""))))))
        with ((String c1 (String c2 (String c3 (String c4 (String c5 "")))))
              ++ String c6 "")%string.
      apply rstrip_plain, S6. }
  unfold hex_to_rgb_tuple. rewrite E.
  assert (lstrip_hash (if hash then String "#"%char digits else digits) = digits) as ->.
  { unfold digits. destruct hash; cbn [lstrip_hash]; rewrite ?Ascii.eqb_refl;
      cbn [lstrip_hash]; rewrite N1; reflexivity. }
  unfold digits. cbn [String.length Nat.eqb substring int16].
  rewrite H1, H2, H3, H4, H5, H6. reflexivity.
Qed.

(** X1. Writing an 8-bit colour as [#RRGGBB], in upper or lower case,
    and parsing it with [hex_to_rgb_tuple] gives the colour back. *)
Theorem hex_to_rgb_tuple_round_trip (upper : bool) (c : rgb) :
  rgb8 c -> hex_to_rgb_tuple (format_hex upper c) = Some c.
Proof.
  destruct c as [[r g] b]. intros (Hr & Hg & Hb). unfold format_hex.
  assert (forall x, 0 <= x <= 255 ->
                    hex_digit (hex_char upper (x / 16)) = Some (x / 16)
                    /\ hex_digit (hex_char upper (x mod 16)) = Some (x mod 16))%Z
    as Hd.
  { intros x Hx. split; apply hex_digit_hex_char.
    - split; [apply Z.div_pos; lia|].
      apply Z.lt_succ_r, Z.div_lt_upper_bound; lia.
    - pose proof (Z.mod_pos_bound x 16). lia. }
  destruct (Hd r Hr) as [R1 R2]. destruct (Hd g Hg) as [G1 G2].
  destruct (Hd b Hb) as [B1 B2].
  rewrite (hex_to_rgb_tuple_digits true _ _ _ _ _ _ _ _ _ _ _ _
                                   R1 R2 G1 G2 B1 B2).
  rewrite <- !Z.div_mod by lia. reflexivity.
Qed.

Lemma hex_to_rgb_tuple_round_trip_witness :
  hex_to_rgb_tuple (format_hex false (13, 42, 71)%Z) = Some (13, 42, 71)%Z.
Proof.
  apply (hex_to_rgb_tuple_round_trip false (13, 42, 71)%Z). unfold rgb8. lia.
Defined.

(** X2. The three-digit short form stands for the doubled digits: each
    channel is 17 times its digit, exactly what the six-digit form with
    every digit written twice parses to. *)
Theorem hex_to_rgb_tuple_short_form (hash : bool) (c1 c2 c3 : Ascii.ascii)
        (d1 d2 d3 : Z) :
  hex_digit c1 = Some d1 -> hex_digit c2 = Some d2 -> hex_digit c3 = Some d3 ->
  let short := String c1 (String c2 (String c3 "")) in
  hex_to_rgb_tuple (if hash then String "#"%char short else short)
  = Some (17 * d1, 17 * d2, 17 * d3)%Z
  /\ hex_to_rgb_tuple (if hash then String "#"%char short else short)
     = hex_to_rgb_tuple (double_chars short).
Proof.
  intros H1 H2 H3 short.
  destruct (hex_digit_plain c1 d1 H1) as [S1 N1].
  destruct (hex_digit_plain c3 d3 H3) as [S3 _].
  assert (hex_to_rgb_tuple (if hash then String "#"%char short else short)
          = Some (17 * d1, 17 * d2, 17 * d3)%Z) as E.
  { assert (strip (if hash then String "#"%char short else short)
            = (if hash then String "#"%char short else short)) as Es.
    { unfold strip. destruct hash.
      - rewrite lstrip_plain by reflexivity.
        change (String "#"%char short)
          with ((String "#"%char (String c1 (String c2 ""))) ++ String c3 "")%string.
        apply rstrip_plain, S3.
      - unfold short. rewrite lstrip_plain by exact S1.
        change (String c1 (String c2 (String c3 "")))
          with ((String c1 (String c2 "")) ++ String c3 "")%string.
        apply rstrip_plain, S3. }
    unfold hex_to_rgb_tuple. rewrite Es.
    assert (lstrip_hash (if hash then String "#"%char short else short) = short) as ->.
    { unfold short. destruct hash; cbn [lstrip_hash]; rewrite ?Ascii.eqb_refl;
        cbn [lstrip_hash]; rewrite N1; reflexivity. }
    unfold short.
    cbn [String.length Nat.eqb double_chars substring int16].
    rewrite H1, H2, H3.
    replace (16 * d1 + d1)%Z with (17 * d1)%Z by lia.
    replace (16 * d2 + d2)%Z with (17 * d2)%Z by lia.
    replace (16 * d3 + d3)%Z with (17 * d3)%Z by lia. reflexivity. }
  split; [exact E|]. rewrite E. symmetry. unfold short. cbn [double_chars].
  rewrite (hex_to_rgb_tuple_digits false c1 c1 c2 c2 c3 c3 d1 d1 d2 d2 d3 d3)
    by assumption.
  replace (16 * d1 + d1)%Z with (17 * d1)%Z by lia.
  replace (16 * d2 + d2)%Z with (17 * d2)%Z by lia.
  replace (16 * d3 + d3)%Z with (17 * d3)%Z by lia. reflexivity.
Qed.

Lemma hex_to_rgb_tuple_short_form_witness :
  hex_to_rgb_tuple "#fa0" = Some (17 * 15, 17 * 10, 17 * 0)%Z
  /\ hex_to_rgb_tuple "#fa0" = hex_to_rgb_tuple "ffaa00".
Proof.
  apply (hex_to_rgb_tuple_short_form true "f" "a" "0" 15 10 0); reflexivity.
Defined.

Lemma int16_range (s : string) (v : Z) :
  int16 s = Some v -> (-15 <= v <= 255)%Z.
Proof.
  destruct s as [|c1 [|c2 [|c3 s]]]; unfold int16; try discriminate.
  - intros H. apply hex_digit_range in H. lia.
  - destruct (hex_digit c1) as [a|] eqn:E1, (hex_digit c2) as [b|] eqn:E2;
      try discriminate;
      try (apply hex_digit_range in E1); try (apply hex_digit_range in E2).
    + intros H. assert (v = 16 * a + b)%Z as -> by congruence. lia.
    + destruct (is_c_space c2); [intros [= <-]; lia | discriminate].
    + destruct (is_c_space c1); [intros [= <-]; lia|].
      destruct (Ascii.eqb c1 "+"); [intros [= <-]; lia|].
      destruct (Ascii.eqb c1 "-"); [intros [= <-]; lia | discriminate].
Qed.

(** X3. Whatever string [hex_to_rgb_tuple] accepts, no channel it returns
    exceeds 255; a channel can be negative, down to -15, because a slice
    such as [-f] is a signed number for [int(_, 16)]. *)
Theorem hex_to_rgb_tuple_range (s : string) (r g b : Z) :
  hex_to_rgb_tuple s = Some (r, g, b) ->
  (-15 <= r <= 255 /\ -15 <= g <= 255 /\ -15 <= b <= 255)%Z.
Proof.
  unfold hex_to_rgb_tuple.
  destruct (int16 (substring 0 2 _)) as [r'|] eqn:Er; [|discriminate].
  destruct (int16 (substring 2 2 _)) as [g'|] eqn:Eg; [|discriminate].
  destruct (int16 (substring 4 2 _)) as [b'|] eqn:Eb; [|discriminate].
  intros [= <- <- <-].
  apply int16_range in Er, Eg, Eb. auto.
Qed.

Lemma hex_to_rgb_tuple_range_witness :
  (-15 <= -15 <= 255 /\ -15 <= 15 <= 255 /\ -15 <= 10 <= 255)%Z.
Proof.
  apply (hex_to_rgb_tuple_range "#-f+f0a" (-15) 15 10). reflexivity.
Defined.

(** X4. A colour string that, once stripped of whitespace as
    [str.strip] does it (the no-break space and NEL included) and of
    leading [#], has fewer than five characters and not exactly three is
    rejected: the slice of the blue channel is empty. *)
Theorem hex_to_rgb_tuple_too_short (s : string) :
  (String.length (lstrip_hash (strip s)) < 5)%nat ->
  String.length (lstrip_hash (strip s)) <> 3%nat ->
  hex_to_rgb_tuple s = None.
Proof.
  intros Hlen H3. unfold hex_to_rgb_tuple.
  apply Nat.eqb_neq in H3. rewrite H3.
  destruct (lstrip_hash (strip s)) as [|a [|b [|c [|d [|e t]]]]];
    cbn [String.length] in *; try lia;
    cbn [substring int16];
    repeat match goal with
           | |- context [match ?x with Some _ => _ | None => _ end] => destruct x
           end; reflexivity.
Qed.

Lemma hex_to_rgb_tuple_too_short_witness : hex_to_rgb_tuple " #12ab " = None.
Proof.
  apply (hex_to_rgb_tuple_too_short " #12ab ");
    [vm_compute; lia | vm_compute; lia].
Defined.

End HexColours.

(** ** Geometry: from EMU to pixels *)

Section Geometry.
Local Open Scope Q_scope.

Lemma py_round_near (q : Q) :
  inject_Z (py_round q) - (1 # 2) <= q /\ q <= inject_Z (py_round q) + (1 # 2).
Proof.
  unfold py_round.
  pose proof (Qfloor_le q) as Hlo. pose proof (Qlt_floor q) as Hhi.
  rewrite inject_Z_plus in Hhi. change (inject_Z 1) with 1 in Hhi.
  destruct (Qcompare_spec (q - inject_Z (Qfloor q)) (1 # 2)) as [H|H|H].
  - destruct (Z.even (Qfloor q)); rewrite ?inject_Z_plus;
      change (inject_Z 1) with 1; split; lra.
  - split; lra.
  - rewrite inject_Z_plus. change (inject_Z 1) with 1. split; lra.
Qed.

Lemma py_round_mono (p q : Q) : p <= q -> (py_round p <= py_round q)%Z.
Proof.
  intros Hpq. pose proof (Qfloor_resp_le p q Hpq) as Hfl.
  pose proof (Qfloor_le p) as Hp. pose proof (Qlt_floor q) as Hq.
  rewrite inject_Z_plus in Hq. change (inject_Z 1) with 1 in Hq.
  assert (Qfloor p <= py_round p <= Qfloor p + 1)%Z as Bp.
  { unfold py_round. destruct (_ ?= _); [destruct (Z.even _)| |]; lia. }
  assert (Qfloor q <= py_round q <= Qfloor q + 1)%Z as Bq.
  { unfold py_round. destruct (_ ?= _); [destruct (Z.even _)| |]; lia. }
  destruct (Z.eq_dec (Qfloor p) (Qfloor q)) as [E|E]; [|lia].
  unfold py_round. rewrite E.
  destruct (Qcompare_spec (p - inject_Z (Qfloor q)) (1 # 2)) as [H1|H1|H1];
    destruct (Qcompare_spec (q - inject_Z (Qfloor q)) (1 # 2)) as [H2|H2|H2];
    try lia; try (exfalso; lra); destruct (Z.even (Qfloor q)); lia.
Qed.

Lemma py_round_integer (q : Q) (m : Z) : q == inject_Z m -> py_round q = m.
Proof.
  intros H. unfold py_round. rewrite (Qfloor_comp _ _ H), Qfloor_Z.
  destruct (Qcompare_spec (q - inject_Z m) (1 # 2)) as [H1|H1|H1];
    [exfalso; lra | reflexivity | exfalso; lra].
Qed.

Lemma py_int_integer (m : Z) : py_int (inject_Z m) = m.
Proof. unfold py_int. simpl. apply Z.quot_1_r. Qed.

Lemma emu_to_px_eq (emu dpi : Z) :
  emu_to_px emu dpi
  = py_round (inject_Z emu / inject_Z EMU_PER_INCH * inject_Z dpi).
Proof. unfold emu_to_px. apply py_int_integer. Qed.

(** X5. [emu_to_px] is within half a pixel of the exact length
    [emu * dpi / 914400], exact on whole inches, and monotone in the
    length for a non-negative resolution. *)
Theorem emu_to_px_accuracy (emu emu' dpi k : Z) :
  (0 <= dpi)%Z -> (emu <= emu')%Z ->
  (2 * Z.abs (EMU_PER_INCH * emu_to_px emu dpi - emu * dpi) <= EMU_PER_INCH)%Z
  /\ emu_to_px (EMU_PER_INCH * k) dpi = (k * dpi)%Z
  /\ (emu_to_px emu dpi <= emu_to_px emu' dpi)%Z.
Proof.
  intros Hdpi Hle. rewrite !emu_to_px_eq. unfold EMU_PER_INCH.
  split; [|split].
  - set (q := inject_Z emu / inject_Z 914400 * inject_Z dpi).
    destruct (py_round_near q) as [H1 H2].
    assert (q * 914400 == inject_Z (emu * dpi)) as Hq.
    { unfold q. rewrite inject_Z_mult. field. }
    set (p := py_round q) in *.
    assert (inject_Z (2 * (914400 * p - emu * dpi)) <= inject_Z 914400
            /\ inject_Z (- 914400) <= inject_Z (2 * (914400 * p - emu * dpi)))
      as [Ha Hb].
    { replace (2 * (914400 * p - emu * dpi))%Z
        with (2 * 914400 * p + - (2 * (emu * dpi)))%Z by lia.
      rewrite inject_Z_plus, inject_Z_opp, !inject_Z_mult.
      rewrite inject_Z_mult in Hq.
      change (inject_Z 2) with 2. change (inject_Z 914400) with 914400.
      change (inject_Z (-914400)) with (-914400).
      split; nra. }
    rewrite <- Zle_Qle in Ha, Hb. lia.
  - apply py_round_integer. rewrite !inject_Z_mult. field.
  - apply py_round_mono.
    apply Qmult_le_compat_r; [|change 0 with (inject_Z 0); rewrite <- Zle_Qle; lia].
    unfold Qdiv.
    apply Qmult_le_compat_r; [rewrite <- Zle_Qle; lia | vm_compute; discriminate].
Qed.

Lemma emu_to_px_accuracy_witness :
  (2 * Z.abs (EMU_PER_INCH * emu_to_px 1371600 300 - 1371600 * 300)
   <= EMU_PER_INCH)%Z
  /\ emu_to_px (EMU_PER_INCH * 10) 300 = (10 * 300)%Z
  /\ (emu_to_px 1371600 300 <= emu_to_px 1828800 300)%Z.
Proof.
  apply (emu_to_px_accuracy 1371600 1828800 300 10); lia.
Defined.

End Geometry.

(** ** The sampled region *)

Section SampledRegion.

Lemma py_slice_index_range (n i : Z) :
  (0 <= n -> 0 <= py_slice_index n i <= n)%Z.
Proof. unfold py_slice_index. destruct (Z.ltb_spec i 0); lia. Qed.

Lemma py_slice_length {A : Type} (a b : Z) (l : list A) :
  Z.of_nat (List.length (py_slice a b l))
  = slice_len (Z.of_nat (List.length l)) a b.
Proof.
  unfold py_slice, slice_len.
  pose proof (py_slice_index_range (Z.of_nat (List.length l)) a ltac:(lia)).
  pose proof (py_slice_index_range (Z.of_nat (List.length l)) b ltac:(lia)).
  rewrite length_firstn, length_skipn. lia.
Qed.

Lemma py_slice_incl {A : Type} (a b : Z) (l : list A) (x : A) :
  In x (py_slice a b l) -> In x l.
Proof.
  unfold py_slice. intros H.
  set (k := Z.to_nat (py_slice_index (Z.of_nat (List.length l)) a)) in *.
  set (m := Z.to_nat (_ - _)) in H.
  rewrite <- (firstn_skipn k l). apply in_or_app. right.
  rewrite <- (firstn_skipn m (skipn k l)). apply in_or_app. left. exact H.
Qed.

Lemma length_concat_uniform {A : Type} (k : nat) (L : list (list A)) :
  Forall (fun r => List.length r = k) L ->
  List.length (List.concat L) = (List.length L * k)%nat.
Proof.
  induction 1 as [|r L Hr _ IH]; [reflexivity|].
  cbn [List.concat List.length]. rewrite length_app, IH, Hr. lia.
Qed.

(** The pixels of [img_np[y1:y2, x1:x2, :]]: a rectangle whose sides are
    the lengths of the two slices. *)
Lemma region_size_formula (img : image) (x1 y1 x2 y2 : Z) :
  rectangular img ->
  region_size (region_of img (x1, y1, x2, y2))
  = (3 * (slice_len (img_height img) y1 y2 * slice_len (img_width img) x1 x2))%Z.
Proof.
  intros Hrect. unfold region_size, region_of.
  rewrite (length_concat_uniform
             (Z.to_nat (slice_len (img_width img) x1 x2))).
  - rewrite length_map, Nat2Z.inj_mul, py_slice_length.
    fold (img_height img).
    assert (0 <= slice_len (img_width img) x1 x2)%Z by (unfold slice_len; lia).
    rewrite Z2Nat.id by assumption. reflexivity.
  - apply Forall_forall. intros r Hr. apply in_map_iff in Hr.
    destruct Hr as (row & <- & Hrow). apply py_slice_incl in Hrow.
    unfold rectangular in Hrect. rewrite Forall_forall in Hrect.
    specialize (Hrect row Hrow).
    rewrite <- Hrect, <- py_slice_length. symmetry. apply Nat2Z.id.
Qed.

(** A text shape whose region is not empty gets its record, with the
    box the region was cut with. *)
Lemma process_shape_audited (cfg : config) (idx : Z) (img : image)
      (sx sy : Q) (shp : Shape.t) (tf0 : text_frame) :
  Shape.text_frame shp = Some tf0 ->
  region_size (sampled_region cfg img sx sy shp) <> 0%Z ->
  exists a, snd (process_shape cfg idx img sx sy shp) = Some a
            /\ Audit.bbox_px a
               = bbox_of (dpi cfg) (pad_px cfg) img sx sy shp
            /\ Audit.shape_id a = Shape.shape_id shp.
Proof.
  intros Htf Hz. unfold sampled_region in Hz. unfold process_shape.
  rewrite Htf. apply Z.eqb_neq in Hz. rewrite Hz.
  destruct (estimate_fg_bg_from_region _) as [fg_rgb bg_rgb].
  destruct (remediate _ _ _ _) as [tf' d].
  eexists. cbn [snd]. split; [reflexivity|]. split; reflexivity.
Qed.

(** X6. A text shape is skipped exactly when one of the two slices of
    its box is empty; otherwise it samples the rectangle the slices cut,
    read with Python's rules for bounds, and gets an audit record. *)
Theorem skipped_iff_empty_slice (cfg : config) (idx : Z) (img : image)
        (sx sy : Q) (shp : Shape.t) (tf0 : text_frame) (x1 y1 x2 y2 : Z) :
  rectangular img ->
  Shape.text_frame shp = Some tf0 ->
  bbox_of (dpi cfg) (pad_px cfg) img sx sy shp = (x1, y1, x2, y2) ->
  region_size (sampled_region cfg img sx sy shp)
  = (3 * (slice_len (img_height img) y1 y2 * slice_len (img_width img) x1 x2))%Z
  /\ (snd (process_shape cfg idx img sx sy shp) = None
      <-> slice_len (img_height img) y1 y2 = 0%Z
          \/ slice_len (img_width img) x1 x2 = 0%Z).
Proof.
  intros Hrect Htf Hbox.
  assert (region_size (sampled_region cfg img sx sy shp)
          = (3 * (slice_len (img_height img) y1 y2
                  * slice_len (img_width img) x1 x2))%Z) as E.
  { unfold sampled_region. rewrite Hbox. apply region_size_formula, Hrect. }
  split; [exact E|]. split.
  - intros Hnone.
    destruct (Z.eq_dec (region_size (sampled_region cfg img sx sy shp)) 0)
      as [Hz|Hz].
    + rewrite E in Hz. lia.
    + destruct (process_shape_audited cfg idx img sx sy shp tf0 Htf Hz)
        as (a & Ha & _). congruence.
  - intros Hzero.
    assert (region_size (sampled_region cfg img sx sy shp) = 0%Z) as Hz
      by (rewrite E; lia).
    unfold sampled_region in Hz. unfold process_shape. rewrite Htf, Hz.
    reflexivity.
Qed.

Lemma skipped_iff_empty_slice_witness :
  snd (process_shape (ex_cfg scenario_dark scenario_light) 0
         (ex_img scenario_bg) (ex_scale 2 1828800) (ex_scale 1 914400)
         ex_shape_off) = None
  <-> slice_len (img_height (ex_img scenario_bg)) 0 1 = 0%Z
      \/ slice_len (img_width (ex_img scenario_bg)) 10 2 = 0%Z.
Proof.
  apply (skipped_iff_empty_slice
           (ex_cfg scenario_dark scenario_light) 0 (ex_img scenario_bg)
           (ex_scale 2 1828800) (ex_scale 1 914400) ex_shape_off
           [mk_paragraph None [mk_run "Mission" (Some scenario_fg) None]]
           10 0 2 1).
  - repeat constructor.
  - reflexivity.
  - vm_compute. reflexivity.
Defined.

(** X7. The right bound of the box is clamped from above only.  For a
    text shape that ends left of the page the bound is negative, numpy
    counts it from the right edge, and the shape is not skipped: it
    samples the [W + x2] leftmost columns and its record carries the
    negative bound. *)
Theorem shape_left_of_page_is_sampled (cfg : config) (idx : Z) (img : image)
        (sx sy : Q) (shp : Shape.t) (tf0 : text_frame) (y1 x2 y2 : Z) :
  rectangular img ->
  Shape.text_frame shp = Some tf0 ->
  bbox_of (dpi cfg) (pad_px cfg) img sx sy shp = (0, y1, x2, y2)%Z ->
  (- img_width img < x2 < 0)%Z ->
  (0 <= y1 < y2)%Z -> (y2 <= img_height img)%Z ->
  region_size (sampled_region cfg img sx sy shp)
  = (3 * ((y2 - y1) * (img_width img + x2)))%Z
  /\ exists a, snd (process_shape cfg idx img sx sy shp) = Some a
               /\ Audit.bbox_px a = (0, y1, x2, y2)%Z.
Proof.
  intros Hrect Htf Hbox Hx Hy Hy2.
  assert (region_size (sampled_region cfg img sx sy shp)
          = (3 * ((y2 - y1) * (img_width img + x2)))%Z) as E.
  { unfold sampled_region. rewrite Hbox, (region_size_formula _ _ _ _ _ Hrect).
    unfold slice_len, py_slice_index.
    destruct (Z.ltb_spec y2 0), (Z.ltb_spec y1 0), (Z.ltb_spec x2 0),
             (Z.ltb_spec 0 0); try lia.
    f_equal. f_equal; unfold img_width, img_height in *; lia. }
  split; [exact E|].
  destruct (process_shape_audited cfg idx img sx sy shp tf0 Htf) as (a & Ha & Hb & _).
  - rewrite E. nia.
  - exists a. split; [exact Ha|]. rewrite Hb. exact Hbox.
Qed.

Lemma shape_left_of_page_is_sampled_witness :
  exists a,
    snd (process_shape (ex_cfg scenario_dark scenario_light) 0
           (ex_img scenario_bg) (ex_scale 2 1828800) (ex_scale 1 914400)
           (Shape.mk 11 "Aside" (-2743200) 0 1828800 914400
              (Some [mk_paragraph None [mk_run "Goals" None None]])))
    = Some a
    /\ Audit.bbox_px a = (0, 0, -1, 1)%Z.
Proof.
  apply (shape_left_of_page_is_sampled
           (ex_cfg scenario_dark scenario_light) 0 (ex_img scenario_bg)
           (ex_scale 2 1828800) (ex_scale 1 914400)
           (Shape.mk 11 "Aside" (-2743200) 0 1828800 914400
              (Some [mk_paragraph None [mk_run "Goals" None None]]))
           [mk_paragraph None [mk_run "Goals" None None]] 0 (-1) 1).
  - repeat constructor.
  - reflexivity.
  - vm_compute. reflexivity.
  - vm_compute. split; reflexivity.
  - lia.
  - vm_compute. discriminate.
Defined.

End SampledRegion.

(** ** More on luminance and contrast *)

Section ContrastOrder.
Local Open Scope R_scope.

(** At the cutoff the power curve starts just above the linear piece. *)
Lemma cutoff_gap : 0.04045 / 12.92 < Rpower ((0.04045 + 0.055) / 1.055) 2.4.
Proof.
  replace (0.04045 / 12.92) with (IZR 4045 / IZR 1292000) by lra.
  replace ((0.04045 + 0.055) / 1.055) with (IZR 9545 / IZR 105500) by lra.
  apply Rpower_24_lower; [lra | lra |].
  apply (frac_pow_lt 4045 1292000 9545 105500 5 12); reflexivity.
Qed.

Lemma srgb_to_linear_mono (c1 c2 : R) :
  c1 <= c2 -> srgb_to_linear c1 <= srgb_to_linear c2.
Proof.
  intros H. unfold srgb_to_linear.
  destruct (Rle_dec c1 0.04045) as [H1|H1], (Rle_dec c2 0.04045) as [H2|H2].
  - lra.
  - pose proof cutoff_gap as Hg.
    assert (Rpower ((0.04045 + 0.055) / 1.055) 2.4
            <= Rpower ((c2 + 0.055) / 1.055) 2.4) as Hp
      by (apply Rle_Rpower_l; lra).
    lra.
  - lra.
  - apply Rle_Rpower_l; lra.
Qed.

Lemma rel_luminance_mono (a b : rgb) :
  channelwise_le a b -> rel_luminance a <= rel_luminance b.
Proof.
  destruct a as [[r1 g1] b1], b as [[r2 g2] b2]. intros (Hr & Hg & Hb).
  apply IZR_le in Hr, Hg, Hb. unfold rel_luminance.
  pose proof (srgb_to_linear_mono (IZR r1 / 255) (IZR r2 / 255) ltac:(lra)).
  pose proof (srgb_to_linear_mono (IZR g1 / 255) (IZR g2 / 255) ltac:(lra)).
  pose proof (srgb_to_linear_mono (IZR b1 / 255) (IZR b2 / 255) ltac:(lra)).
  lra.
Qed.

Lemma div_between (lo hi n d : R) :
  0 < d -> lo * d <= n -> n <= hi * d -> lo <= n / d <= hi.
Proof.
  intros Hd H1 H2.
  assert (n / d * d = n) as E by (field; lra).
  split; apply Rmult_le_reg_r with d; try assumption; rewrite E; assumption.
Qed.

Lemma contrast_ratio_bounds (a b : rgb) :
  rgb8 a -> rgb8 b -> 1 <= contrast_ratio a b <= 21.
Proof.
  intros Ha Hb.
  pose proof (rel_luminance_range a Ha). pose proof (rel_luminance_range b Hb).
  rewrite contrast_ratio_maxmin.
  destruct (Rle_dec (rel_luminance a) (rel_luminance b)).
  - rewrite Rmax_right, Rmin_left by lra. apply div_between; lra.
  - rewrite Rmax_left, Rmin_right by lra. apply div_between; lra.
Qed.

Lemma div_eq_one (n d : R) : 0 < d -> (n / d = 1 <-> n = d).
Proof.
  intros Hd. split; intros H.
  - assert (n / d * d = n) as E by (field; lra). rewrite H in E. lra.
  - subst n. field. lra.
Qed.

(** X8. The contrast ratio of two 8-bit colours lies between 1 and 21;
    it is 1 exactly when the two colours have the same luminance, and 21
    exactly when one has luminance 0 and the other luminance 1. *)
Theorem contrast_ratio_range (a b : rgb) :
  rgb8 a -> rgb8 b ->
  1 <= contrast_ratio a b <= 21
  /\ (contrast_ratio a b = 1 <-> rel_luminance a = rel_luminance b)
  /\ (contrast_ratio a b = 21 <->
      Rmin (rel_luminance a) (rel_luminance b) = 0
      /\ Rmax (rel_luminance a) (rel_luminance b) = 1).
Proof.
  intros Ha Hb. split; [apply contrast_ratio_bounds; assumption|].
  pose proof (rel_luminance_range a Ha). pose proof (rel_luminance_range b Hb).
  rewrite contrast_ratio_maxmin.
  destruct (Rle_dec (rel_luminance a) (rel_luminance b)).
  - rewrite Rmax_right, Rmin_left by lra. split.
    + rewrite div_eq_one by lra. split; intros; lra.
    + split.
      * intros E.
        assert ((rel_luminance b + 0.05) / (rel_luminance a + 0.05)
                * (rel_luminance a + 0.05) = rel_luminance b + 0.05) as E'
          by (field; lra).
        rewrite E in E'. split; lra.
      * intros [-> ->]. replace (0 + 0.05) with 0.05 by lra. lra.
  - rewrite Rmax_left, Rmin_right by lra. split.
    + rewrite div_eq_one by lra. split; intros; lra.
    + split.
      * intros E.
        assert ((rel_luminance a + 0.05) / (rel_luminance b + 0.05)
                * (rel_luminance b + 0.05) = rel_luminance a + 0.05) as E'
          by (field; lra).
        rewrite E in E'. split; lra.
      * intros [-> ->]. replace (0 + 0.05) with 0.05 by lra. lra.
Qed.

Lemma contrast_ratio_range_witness :
  1 <= contrast_ratio scenario_fg scenario_bg <= 21.
Proof.
  apply (contrast_ratio_range scenario_fg scenario_bg); unfold rgb8; simpl; lia.
Defined.

(** X9. Luminance is monotone in every channel, the jump between the
    linear piece and the power curve included; so against a background
    at least as light as the text, darkening the text channel by channel
    never lowers the contrast. *)
Theorem darker_text_contrasts_more (fg fg' bg : rgb) :
  channelwise_le fg' fg ->
  rel_luminance fg <= rel_luminance bg ->
  rgb8 fg' ->
  rel_luminance fg' <= rel_luminance fg
  /\ contrast_ratio fg bg <= contrast_ratio fg' bg.
Proof.
  intros Hle Hbg H8. pose proof (rel_luminance_mono fg' fg Hle) as Hm.
  pose proof (rel_luminance_range fg' H8) as H0.
  split; [exact Hm|].
  rewrite !contrast_ratio_darker_first by lra.
  apply div_le_div; nra.
Qed.

Lemma darker_text_contrasts_more_witness :
  rel_luminance scenario_dark <= rel_luminance scenario_fg
  /\ contrast_ratio scenario_fg scenario_bg
     <= contrast_ratio scenario_dark scenario_bg.
Proof.
  apply (darker_text_contrasts_more scenario_fg scenario_dark scenario_bg).
  - unfold channelwise_le, scenario_dark, scenario_fg. lia.
  - pose proof lum_234_239_241. pose proof lum_242.
    unfold scenario_fg, scenario_bg. lra.
  - unfold scenario_dark, rgb8. lia.
Defined.

(** X10. Against any 8-bit background the contrasts of black and of white
    multiply to 21, so the better of the two is above 4.58: the
    black-or-white fallback always clears the default threshold 4.5,
    and no 8-bit colour does better than it. *)
Theorem black_white_fallback_suffices (fg bg : rgb) :
  rgb8 fg -> rgb8 bg ->
  let cr_b := contrast_ratio (0, 0, 0)%Z bg in
  let cr_w := contrast_ratio (255, 255, 255)%Z bg in
  cr_b * cr_w = 21
  /\ 4.58 < Rmax cr_b cr_w
  /\ contrast_ratio fg bg <= Rmax cr_b cr_w.
Proof.
  intros Hf Hb cr_b cr_w.
  pose proof (rel_luminance_range bg Hb) as HL.
  assert (cr_b * cr_w = 21) as E.
  { subst cr_b cr_w.
    rewrite (contrast_ratio_black bg Hb), (contrast_ratio_white bg Hb).
    assert ((rel_luminance bg + 0.05) * / (rel_luminance bg + 0.05) = 1) as Hx
      by (apply Rinv_r; lra).
    unfold Rdiv. set (x := rel_luminance bg + 0.05) in *.
    set (y := / x) in *. nra. }
  split; [exact E|]. split.
  - pose proof (contrast_ratio_bounds (0, 0, 0)%Z bg black_rgb8 Hb) as Rb.
    pose proof (contrast_ratio_bounds (255, 255, 255)%Z bg
                  ltac:(unfold rgb8; lia) Hb) as Rw.
    fold cr_b in Rb. fold cr_w in Rw.
    pose proof (Rmax_l cr_b cr_w). pose proof (Rmax_r cr_b cr_w).
    destruct (Rlt_dec 4.58 (Rmax cr_b cr_w)) as [|Hn]; [assumption|].
    exfalso. nra.
  - apply contrast_ratio_le_bw; assumption.
Qed.

Lemma black_white_fallback_suffices_witness :
  contrast_ratio (0, 0, 0)%Z scenario_bg
  * contrast_ratio (255, 255, 255)%Z scenario_bg = 21.
Proof.
  apply (black_white_fallback_suffices scenario_fg scenario_bg);
    unfold rgb8; simpl; lia.
Defined.

End ContrastOrder.

(** ** What the pass writes and what it leaves alone *)

Section PassFrame.
Local Open Scope R_scope.

Lemma run_texts_rtl (tf : text_frame) :
  run_texts (ensure_paragraph_rtl tf) = run_texts tf.
Proof.
  unfold run_texts, ensure_paragraph_rtl. rewrite map_map.
  apply map_ext. intros p. cbn [runs]. rewrite map_map. reflexivity.
Qed.

Lemma run_texts_set_runs_color (tf : text_frame) (c : rgb) :
  run_texts (set_runs_color tf c) = run_texts tf.
Proof.
  unfold run_texts, set_runs_color. rewrite map_map.
  apply map_ext. intros p. cbn [runs]. rewrite map_map. reflexivity.
Qed.

Lemma set_runs_color_keeps_rtl (tf : text_frame) (c : rgb) :
  Forall paragraph_is_rtl tf -> Forall paragraph_is_rtl (set_runs_color tf c).
Proof.
  intros H. unfold set_runs_color. apply Forall_map.
  eapply Forall_impl; [|exact H].
  intros p [Hp Hr]. split; cbn [pPr runs]; [exact Hp|].
  apply Forall_map. eapply Forall_impl; [|exact Hr]. intros r Hl. exact Hl.
Qed.

(** The policy hands back the text frame, or the text frame recoloured
    with one of four colours. *)
Lemma remediate_text_frame (cfg : config) (tf : text_frame) (fg bg : rgb) :
  (applied (snd (remediate cfg tf fg bg)) = None
   /\ fst (remediate cfg tf fg bg) = tf
   /\ d_fixed (snd (remediate cfg tf fg bg)) = false
   /\ d_note (snd (remediate cfg tf fg bg)) = ""%string)
  \/ exists c,
       applied (snd (remediate cfg tf fg bg)) = Some c
       /\ fst (remediate cfg tf fg bg) = set_runs_color tf c
       /\ d_fixed (snd (remediate cfg tf fg bg)) = true
       /\ d_ratio_after (snd (remediate cfg tf fg bg)) = contrast_ratio c bg
       /\ ((d_note (snd (remediate cfg tf fg bg)) = ""%string
            /\ (c = brand_dark cfg \/ c = brand_light cfg))
           \/ (d_note (snd (remediate cfg tf fg bg)) = "used BW fallback"%string
               /\ (c = (0, 0, 0)%Z \/ c = (255, 255, 255)%Z))).
Proof.
  unfold remediate.
  destruct (Rlt_dec _ _) as [Hlow|Hok]; [|left; repeat split; reflexivity].
  right. destruct (Rgt_dec _ _) as [Hbest|Hnot].
  - destruct (Rge_dec _ _) as [Hge|Hlt]; eexists; cbn [fst snd applied d_fixed d_ratio_after d_note];
      (split; [reflexivity|]); (split; [reflexivity|]); (split; [reflexivity|]).
    + split; [rewrite Rmax_left by lra; reflexivity | left; split; [reflexivity | left; reflexivity]].
    + split; [rewrite Rmax_right by lra; reflexivity | left; split; [reflexivity | right; reflexivity]].
  - destruct (Rge_dec _ _) as [Hge|Hlt]; eexists; cbn [fst snd applied d_fixed d_ratio_after d_note];
      (split; [reflexivity|]); (split; [reflexivity|]); (split; [reflexivity|]).
    + split; [rewrite Rmax_left by lra; reflexivity | right; split; [reflexivity | left; reflexivity]].
    + split; [rewrite Rmax_right by lra; reflexivity | right; split; [reflexivity | right; reflexivity]].
Qed.

(** The three ways out of the loop body, shape by shape. *)
Lemma process_shape_cases (cfg : config) (idx : Z) (img : image)
      (sx sy : Q) (shp : Shape.t) :
  (Shape.text_frame shp = None
   /\ process_shape cfg idx img sx sy shp = (shp, None))
  \/ (exists tf0, Shape.text_frame shp = Some tf0
        /\ region_size (sampled_region cfg img sx sy shp) = 0%Z
        /\ process_shape cfg idx img sx sy shp = (rtl_enforced shp, None))
  \/ (exists tf0 a, Shape.text_frame shp = Some tf0
        /\ region_size (sampled_region cfg img sx sy shp) <> 0%Z
        /\ snd (process_shape cfg idx img sx sy shp) = Some a).
Proof.
  destruct (Shape.text_frame shp) as [tf0|] eqn:Htf.
  - right. destruct (Z.eq_dec (region_size (sampled_region cfg img sx sy shp)) 0)
      as [Hz|Hz].
    + left. exists tf0. split; [reflexivity|]. split; [exact Hz|].
      unfold process_shape, rtl_enforced. unfold sampled_region in Hz.
      rewrite Htf, Hz. reflexivity.
    + right. destruct (process_shape_audited cfg idx img sx sy shp tf0 Htf Hz)
        as (a & Ha & _).
      exists tf0, a. auto.
  - left. split; [reflexivity|]. unfold process_shape. rewrite Htf. reflexivity.
Qed.

Lemma rtl_enforced_skeleton (shp : Shape.t) :
  shape_skeleton (rtl_enforced shp) = shape_skeleton shp.
Proof.
  unfold shape_skeleton, rtl_enforced. cbn.
  destruct (Shape.text_frame shp); cbn [option_map]; [|reflexivity].
  rewrite run_texts_rtl. reflexivity.
Qed.

Lemma rtl_enforced_is_rtl (shp : Shape.t) : shape_is_rtl (rtl_enforced shp).
Proof.
  unfold shape_is_rtl, rtl_enforced. cbn.
  destruct (Shape.text_frame shp); cbn [option_map]; [|exact I].
  apply ensure_paragraph_rtl_establishes.
Qed.

Lemma process_shape_frame (cfg : config) (idx : Z) (img : image)
      (sx sy : Q) (shp : Shape.t) :
  shape_skeleton (fst (process_shape cfg idx img sx sy shp)) = shape_skeleton shp
  /\ (Shape.text_frame shp <> None ->
      shape_is_rtl (fst (process_shape cfg idx img sx sy shp)))
  /\ (Shape.text_frame shp = None ->
      fst (process_shape cfg idx img sx sy shp) = shp).
Proof.
  destruct (process_shape_cases cfg idx img sx sy shp)
    as [[Htf E]|[(tf0 & Htf & Hz & E)|(tf0 & a & Htf & Hz & Ha)]].
  - rewrite E. cbn [fst]. repeat split; congruence.
  - rewrite E. cbn [fst]. split; [apply rtl_enforced_skeleton|].
    split; [intros _; apply rtl_enforced_is_rtl | congruence].
  - apply process_shape_inv in Ha.
    destruct Ha as (tf1 & Htf1 & _ & _ & _ & _ & E & _).
    assert (tf1 = tf0) as -> by congruence.
    rewrite E. split; [|split; [intros _ | congruence]].
    + unfold shape_skeleton. cbn. rewrite Htf. cbn [option_map]. do 2 f_equal.
      destruct (remediate_text_frame cfg (ensure_paragraph_rtl tf0)
                  (Audit.measured_fg a) (Audit.measured_bg a))
        as [(_ & -> & _)|(c & _ & -> & _)];
        rewrite ?run_texts_set_runs_color; apply run_texts_rtl.
    + unfold shape_is_rtl. cbn.
      destruct (remediate_text_frame cfg (ensure_paragraph_rtl tf0)
                  (Audit.measured_fg a) (Audit.measured_bg a))
        as [(_ & -> & _)|(c & _ & -> & _)];
        [|apply set_runs_color_keeps_rtl];
        apply ensure_paragraph_rtl_establishes.
Qed.

Lemma process_shapes_fst (cfg : config) (idx : Z) (img : image)
      (sx sy : Q) (shapes : list Shape.t) :
  fst (process_shapes cfg idx img sx sy shapes)
  = map (fun s => fst (process_shape cfg idx img sx sy s)) shapes.
Proof.
  induction shapes as [|shp rest IH]; [reflexivity|].
  cbn [process_shapes map].
  destruct (process_shape cfg idx img sx sy shp) as [shp' o].
  destruct (process_shapes cfg idx img sx sy rest) as [rest' audits].
  cbn [fst] in *. rewrite IH. reflexivity.
Qed.

(** The slides a successful run saves, each as the loop left it. *)
Lemma process_slides_fst (cfg : config) (sw sh : Z) (sls : list slide) :
  forall (idx : Z) (images : list image),
  List.length images = List.length sls ->
  Forall2 (fun sl sl' =>
             exists idx' img sx sy,
               sl' = map (fun s => fst (process_shape cfg idx' img sx sy s)) sl)
          sls (fst (process_slides cfg sw sh idx sls images)).
Proof.
  induction sls as [|sl sls IH]; intros idx images Hlen.
  - destruct images; constructor.
  - destruct images as [|img images]; [discriminate|].
    cbn [process_slides].
    destruct (process_slide cfg sw sh idx img sl) as [sl' a1] eqn:E1.
    specialize (IH (idx + 1)%Z images ltac:(simpl in Hlen; lia)).
    destruct (process_slides cfg sw sh (idx + 1) sls images) as [rest a2].
    cbn [fst] in *. constructor; [|exact IH].
    unfold process_slide in E1.
    match type of E1 with
    | process_shapes _ _ _ ?sx ?sy _ = _ =>
        pose proof (process_shapes_fst cfg idx img sx sy sl) as Hs;
        exists idx, img, sx, sy
    end.
    rewrite E1 in Hs. exact Hs.
Qed.

Lemma process_pptx_saved (w : world) (prs prs' : presentation) (stem : string)
      (cfg : config) (audit_out : bool) :
  saved_pptx (snd (process_pptx w prs stem cfg audit_out)) = Some prs' ->
  slide_width prs' = slide_width prs
  /\ slide_height prs' = slide_height prs
  /\ Forall2 (fun sl sl' =>
                exists idx' img sx sy,
                  sl' = map (fun s => fst (process_shape cfg idx' img sx sy s)) sl)
             (slides prs) (slides prs').
Proof.
  unfold process_pptx.
  destruct (pptx_to_pdf w stem) as [e|pdf]; [discriminate|].
  destruct (Nat.eqb _ _) eqn:Hlen; cbn [negb]; [|discriminate].
  apply Nat.eqb_eq in Hlen.
  pose proof (process_slides_fst cfg (slide_width prs) (slide_height prs)
                (slides prs) 0 _ Hlen) as H.
  destruct (process_slides _ _ _ _ _ _) as [sls au].
  cbn [snd saved_pptx fst] in *. intros [= <-]. cbn. auto.
Qed.

(** X11. The document a run saves differs from the input only in what
    RTL enforcement and recolouring write: slide size, the number and
    order of slides and shapes, every shape's id, name and geometry and
    the text of every run are the same. *)
Theorem pass_preserves_skeleton (w : world) (prs prs' : presentation)
        (stem : string) (cfg : config) (audit_out : bool) :
  saved_pptx (snd (process_pptx w prs stem cfg audit_out)) = Some prs' ->
  skeleton prs' = skeleton prs.
Proof.
  intros H. apply process_pptx_saved in H. destruct H as (Hw & Hh & Hs).
  unfold skeleton. rewrite Hw, Hh. f_equal.
  induction Hs as [|sl sl' sls sls' (idx & img & sx & sy & ->) _ IH];
    [reflexivity|].
  cbn [map]. rewrite IH. f_equal. rewrite map_map. apply map_ext.
  intros s. apply process_shape_frame.
Qed.

Lemma pass_preserves_skeleton_witness :
  skeleton (ex_prs
     [Shape.mk 7 " Title 1 " 0 0 1828800 914400
        (Some (set_runs_color
           (ensure_paragraph_rtl
              [mk_paragraph None [mk_run "Vision" (Some scenario_fg) None]])
           scenario_dark))])
  = skeleton (ex_prs [ex_shape (Some scenario_fg)]).
Proof.
  apply (pass_preserves_skeleton
           (ex_world [ex_img scenario_bg])
           (ex_prs [ex_shape (Some scenario_fg)]) _ "deck.pdf"
           (ex_cfg scenario_dark scenario_light) true).
  rewrite scenario_run. reflexivity.
Defined.



End PassFrame.

(** ** The audit records *)

Section AuditRecords.
Local Open Scope R_scope.

Lemma py_round3_integer (n : Z) : py_round3 (IZR n) = IZR n.
Proof.
  rewrite (py_round3_near (IZR n) (n * 1000)).
  - rewrite mult_IZR. field.
  - rewrite mult_IZR. lra.
Qed.

(** Scenario A at the level of one shape: the first pass recolours the
    run with the dark brand colour. *)
Lemma scenario_first_pass :
  process_shape (ex_cfg scenario_dark scenario_light) 0
    (ex_img scenario_bg) (ex_scale 2 1828800) (ex_scale 1 914400)
    (ex_shape (Some scenario_fg))
  = (Shape.mk 7 " Title 1 " 0 0 1828800 914400
       (Some (set_runs_color
          (ensure_paragraph_rtl
             [mk_paragraph None [mk_run "Vision" (Some scenario_fg) None]])
          scenario_dark)),
     Some (Audit.mk 1 7 "Title 1" (0, 0, 2, 1)%Z scenario_fg scenario_bg
             1.036 13.033 true (Some scenario_dark) "")).
Proof.
  rewrite scenario_shape, scenario_remediate by reflexivity.
  cbn [fst snd d_ratio_before d_ratio_after d_fixed applied d_note].
  rewrite scenario_round_before, scenario_round_after. reflexivity.
Qed.

(** X13. A recolouring is uniform: when a record names an applied colour,
    that colour is one of the two brand colours or black or white, an
    8-bit colour when the brand colours are, and every run of the shape
    carries it afterwards, on top of RTL enforcement; the ratio recorded
    after is the rounded contrast of that colour with the measured
    background. *)
Theorem recolouring_is_uniform (cfg : config) (idx : Z) (img : image)
        (sx sy : Q) (shp : Shape.t) (a : Audit.AuditItem) (c : rgb) :
  rgb8 (brand_dark cfg) -> rgb8 (brand_light cfg) ->
  snd (process_shape cfg idx img sx sy shp) = Some a ->
  Audit.applied_color a = Some c ->
  (c = brand_dark cfg \/ c = brand_light cfg
   \/ c = (0, 0, 0)%Z \/ c = (255, 255, 255)%Z)
  /\ rgb8 c
  /\ (exists tf0,
        Shape.text_frame shp = Some tf0
        /\ Shape.text_frame (fst (process_shape cfg idx img sx sy shp))
           = Some (set_runs_color (ensure_paragraph_rtl tf0) c))
  /\ (forall tf', Shape.text_frame (fst (process_shape cfg idx img sx sy shp))
                  = Some tf' ->
                  Forall (fun p => Forall (fun r => run_color r = Some c) (runs p))
                         tf')
  /\ Audit.fixed a = true
  /\ Audit.ratio_after a = py_round3 (contrast_ratio c (Audit.measured_bg a)).
Proof.
  intros Hd Hl Ha Hc. apply process_shape_inv in Ha.
  destruct Ha as (tf0 & Htf & _ & _ & _ & _ & E & _ & Hra & Hfx & Hap & _).
  destruct (remediate_text_frame cfg (ensure_paragraph_rtl tf0)
              (Audit.measured_fg a) (Audit.measured_bg a))
    as [(Hn & _)|(c' & Hc' & Hfst & Hfixed & Hafter & Hnote)];
    [congruence|].
  assert (c' = c) as -> by congruence.
  rewrite E, Hfst. cbn [Shape.text_frame].
  assert (c = brand_dark cfg \/ c = brand_light cfg
          \/ c = (0, 0, 0)%Z \/ c = (255, 255, 255)%Z) as Hcases
    by (destruct Hnote as [(_ & [->| ->])|(_ & [->| ->])]; auto).
  split; [exact Hcases|].
  split; [destruct Hcases as [->|[->|[->| ->]]]; auto; unfold rgb8; lia|].
  split; [exists tf0; auto|].
  split; [|split; [congruence | rewrite Hra, Hafter; reflexivity]].
  intros tf' [= <-]. unfold set_runs_color.
  apply Forall_map, Forall_forall. intros p _. cbn [runs].
  apply Forall_map, Forall_forall. intros r _. reflexivity.
Qed.

Lemma recolouring_is_uniform_witness :
  rgb8 scenario_dark
  /\ Audit.ratio_after
       (Audit.mk 1 7 "Title 1" (0, 0, 2, 1)%Z scenario_fg scenario_bg
                 1.036 13.033 true (Some scenario_dark) "")
     = py_round3 (contrast_ratio scenario_dark scenario_bg).
Proof.
  destruct (recolouring_is_uniform
              (ex_cfg scenario_dark scenario_light) 0 (ex_img scenario_bg)
              (ex_scale 2 1828800) (ex_scale 1 914400)
              (ex_shape (Some scenario_fg))
              (Audit.mk 1 7 "Title 1" (0, 0, 2, 1)%Z scenario_fg scenario_bg
                        1.036 13.033 true (Some scenario_dark) "")
              scenario_dark) as (_ & H8 & _ & _ & _ & Hr).
  - unfold rgb8; cbn; lia.
  - unfold rgb8; cbn; lia.
  - rewrite scenario_first_pass. reflexivity.
  - reflexivity.
  - split; [exact H8 | exact Hr].
Defined.

Lemma process_shape_key (cfg : config) (idx : Z) (img : image)
      (sx sy : Q) (shp : Shape.t) (a : Audit.AuditItem) :
  snd (process_shape cfg idx img sx sy shp) = Some a ->
  Audit.slide a = (idx + 1)%Z
  /\ Audit.shape_id a = Shape.shape_id shp
  /\ Audit.name a = strip (Shape.name shp).
Proof.
  unfold process_shape.
  destruct (Shape.text_frame shp); [|discriminate].
  destruct (_ =? _)%Z; [discriminate|].
  destruct (estimate_fg_bg_from_region _). destruct (remediate _ _ _ _).
  cbn [snd]. intros [= <-]. repeat split.
Qed.

(** X14. Every audit record is consistent with itself: its colours are
    8-bit, [ratio_before] is the rounded contrast of the two measured
    colours and lies between 1 and 21, [fixed] holds exactly when a colour
    was applied, the note is empty or the fallback note, and the fallback
    note comes only with black or white. *)
Theorem audit_record_consistent (cfg : config) (idx : Z) (img : image)
        (sx sy : Q) (shp : Shape.t) (a : Audit.AuditItem) :
  snd (process_shape cfg idx img sx sy shp) = Some a ->
  Audit.slide a = (idx + 1)%Z
  /\ Audit.shape_id a = Shape.shape_id shp
  /\ Audit.name a = strip (Shape.name shp)
  /\ rgb8 (Audit.measured_fg a) /\ rgb8 (Audit.measured_bg a)
  /\ Audit.ratio_before a
     = py_round3 (contrast_ratio (Audit.measured_fg a) (Audit.measured_bg a))
  /\ 1 <= Audit.ratio_before a <= 21
  /\ (Audit.fixed a = true <-> Audit.applied_color a <> None)
  /\ (Audit.note a = ""%string \/ Audit.note a = "used BW fallback"%string)
  /\ (Audit.note a = "used BW fallback"%string ->
      Audit.applied_color a = Some (0, 0, 0)%Z
      \/ Audit.applied_color a = Some (255, 255, 255)%Z).
Proof.
  intros Ha.
  destruct (process_shape_key cfg idx img sx sy shp a Ha) as (Hsl & _ & Hnm).
  apply process_shape_inv in Ha.
  destruct Ha as (tf0 & Htf & _ & Hf & Hb & Hid & E & Hrb & Hra & Hfx & Hap & Hnt).
  pose proof (contrast_ratio_bounds _ _ Hf Hb) as Hrange.
  assert (d_ratio_before
            (snd (remediate cfg (ensure_paragraph_rtl tf0)
                    (Audit.measured_fg a) (Audit.measured_bg a)))
          = contrast_ratio (Audit.measured_fg a) (Audit.measured_bg a)) as Hbefore.
  { unfold remediate.
    destruct (Rlt_dec _ _); [destruct (Rgt_dec _ _)|]; reflexivity. }
  rewrite Hbefore in Hrb.
  split; [exact Hsl|]. split; [exact Hid|]. split; [exact Hnm|].
  split; [exact Hf|]. split; [exact Hb|]. split; [exact Hrb|].
  split.
  { rewrite Hrb. split.
    - rewrite <- (py_round3_integer 1). apply py_round3_mono. lra.
    - rewrite <- (py_round3_integer 21). apply py_round3_mono. lra. }
  rewrite Hfx, Hap, Hnt.
  destruct (remediate_text_frame cfg (ensure_paragraph_rtl tf0)
              (Audit.measured_fg a) (Audit.measured_bg a))
    as [(-> & _ & -> & ->)|(c & -> & _ & -> & _ & Hnote)].
  - split; [split; [discriminate | congruence]|].
    split; [left; reflexivity | discriminate].
  - split; [split; [discriminate | reflexivity]|].
    destruct Hnote as [(-> & _)|(-> & [->| ->])].
    + split; [left; reflexivity | discriminate].
    + split; [right; reflexivity | left; reflexivity].
    + split; [right; reflexivity | right; reflexivity].
Qed.

Lemma audit_record_consistent_witness :
  1 <= Audit.ratio_before
         (Audit.mk 1 7 "Title 1" (0, 0, 2, 1)%Z (0, 0, 0)%Z (255, 255, 255)%Z
                   21 21 false None "") <= 21.
Proof.
  destruct (audit_record_consistent
              (ex_cfg scenario_dark scenario_light) 0
              (ex_img (255, 255, 255)%Z) (ex_scale 2 1828800)
              (ex_scale 1 914400) (ex_shape None)
              (Audit.mk 1 7 "Title 1" (0, 0, 2, 1)%Z (0, 0, 0)%Z
                        (255, 255, 255)%Z 21 21 false None ""))
    as (_ & _ & _ & _ & _ & _ & H & _).
  - rewrite passing_shape. reflexivity.
  - exact H.
Defined.

Lemma process_shapes_keys (cfg : config) (idx : Z) (img : image)
      (sx sy : Q) (shapes : list Shape.t) :
  map (fun a => (Audit.slide a, Audit.shape_id a))
      (snd (process_shapes cfg idx img sx sy shapes))
  = map (fun s => ((idx + 1)%Z, Shape.shape_id s))
        (filter (audited cfg img sx sy) shapes).
Proof.
  induction shapes as [|shp rest IH]; [reflexivity|].
  cbn [process_shapes filter].
  destruct (process_shape_cases cfg idx img sx sy shp)
    as [[Htf E]|[(tf0 & Htf & Hz & E)|(tf0 & a & Htf & Hz & Ha)]].
  - rewrite E. destruct (process_shapes cfg idx img sx sy rest) as [rest' au].
    cbn [snd] in *. unfold audited. rewrite Htf. exact IH.
  - rewrite E. destruct (process_shapes cfg idx img sx sy rest) as [rest' au].
    cbn [snd] in *. unfold audited. rewrite Htf, Hz. exact IH.
  - destruct (process_shape_key cfg idx img sx sy shp a Ha)
      as (Hsl & Hid & _).
    destruct (process_shape cfg idx img sx sy shp) as [shp' o].
    cbn [snd] in Ha. subst o.
    destruct (process_shapes cfg idx img sx sy rest) as [rest' au].
    cbn [snd] in *. unfold audited. rewrite Htf.
    apply Z.eqb_neq in Hz. rewrite Hz. cbn [negb map].
    rewrite IH, Hsl, Hid. reflexivity.
Qed.

Lemma process_slides_slide_numbers (cfg : config) (sw sh : Z)
      (sls : list slide) :
  forall (idx : Z) (images : list image),
  StronglySorted Z.le
    (map Audit.slide (snd (process_slides cfg sw sh idx sls images)))
  /\ Forall (fun a => (idx + 1 <= Audit.slide a
                       <= idx + Z.of_nat (List.length sls))%Z)
            (snd (process_slides cfg sw sh idx sls images)).
Proof.
  induction sls as [|sl sls IH]; intros idx images.
  - cbn. split; constructor.
  - destruct images as [|img images]; [cbn; split; constructor|].
    cbn [process_slides].
    destruct (process_slide cfg sw sh idx img sl) as [sl' a1] eqn:E1.
    destruct (IH (idx + 1)%Z images) as [IHs IHr].
    destruct (process_slides cfg sw sh (idx + 1) sls images) as [rest a2].
    cbn [snd] in *.
    assert (Forall (fun a => Audit.slide a = (idx + 1)%Z) a1) as H1.
    { unfold process_slide in E1.
      match type of E1 with
      | process_shapes _ _ _ ?sx ?sy _ = _ =>
          pose proof (process_shapes_keys cfg idx img sx sy sl) as Hk
      end.
      rewrite E1 in Hk. cbn [snd] in Hk.
      apply Forall_forall. intros a Hin.
      assert (In (Audit.slide a, Audit.shape_id a)
                 (map (fun a => (Audit.slide a, Audit.shape_id a)) a1)) as Hin'
        by (apply in_map_iff; eauto).
      rewrite Hk in Hin'. apply in_map_iff in Hin'.
      destruct Hin' as (s & [= <- _] & _). reflexivity. }
    split.
    + rewrite map_app. clear E1. induction H1 as [|a a1 Ha Hrest IHa].
      * exact IHs.
      * cbn [map app]. constructor; [exact IHa|].
        rewrite <- map_app. apply Forall_map, Forall_app. split.
        -- eapply Forall_impl; [|exact Hrest]. intros x Hx. cbn beta in *. lia.
        -- eapply Forall_impl; [|exact IHr]. intros x Hx. cbn beta in *. lia.
    + apply Forall_app. split.
      * eapply Forall_impl; [|exact H1]. intros x Hx. cbn beta in *.
        cbn [List.length]. lia.
      * eapply Forall_impl; [|exact IHr]. intros x Hx. cbn beta in *.
        cbn [List.length]. lia.
Qed.

(** X15. On each slide the records follow the shapes in document order,
    one for every text shape whose sampled region is not empty and none
    for any other; across the report the slide numbers are 1-based, at
    most the number of slides, and never decrease. *)
Theorem audit_report_order (w : world) (prs : presentation) (stem : string)
        (cfg : config) (audit_out : bool) (audits : list Audit.AuditItem)
        (idx : Z) (img : image) (sx sy : Q) (shapes : list Shape.t) :
  audit_json (snd (process_pptx w prs stem cfg audit_out)) = Some audits ->
  map (fun a => (Audit.slide a, Audit.shape_id a))
      (snd (process_shapes cfg idx img sx sy shapes))
  = map (fun s => ((idx + 1)%Z, Shape.shape_id s))
        (filter (audited cfg img sx sy) shapes)
  /\ StronglySorted Z.le (map Audit.slide audits)
  /\ Forall (fun a => (1 <= Audit.slide a
                       <= Z.of_nat (List.length (slides prs)))%Z) audits.
Proof.
  intros H. split; [apply process_shapes_keys|].
  apply process_pptx_audits in H. destruct H as (images & ->).
  destruct (process_slides_slide_numbers cfg (slide_width prs)
              (slide_height prs) (slides prs) 0 images) as [Hs Hr].
  split; [exact Hs|].
  eapply Forall_impl; [|exact Hr]. intros a Ha. cbn beta in *. lia.
Qed.

Lemma audit_report_order_witness :
  map (fun a => (Audit.slide a, Audit.shape_id a))
      (snd (process_shapes (ex_cfg scenario_dark scenario_light) 0
              (ex_img scenario_bg) (ex_scale 2 1828800) (ex_scale 1 914400)
              [ex_shape (Some scenario_fg); ex_shape_off; ex_shape_half]))
  = [(1, 7); (1, 12)]%Z.
Proof.
  destruct (audit_report_order
              (ex_world [ex_img scenario_bg])
              (ex_prs [ex_shape (Some scenario_fg)]) "deck.pdf"
              (ex_cfg scenario_dark scenario_light) true
              [Audit.mk 1 7 "Title 1" (0, 0, 2, 1)%Z scenario_fg scenario_bg
                        1.036 13.033 true (Some scenario_dark) ""]
              0 (ex_img scenario_bg) (ex_scale 2 1828800) (ex_scale 1 914400)
              [ex_shape (Some scenario_fg); ex_shape_off; ex_shape_half])
    as [H _].
  - rewrite scenario_run. reflexivity.
  - rewrite H. vm_compute. reflexivity.
Defined.

End AuditRecords.

(** ** Running the pass again *)

Section Idempotence.
Local Open Scope R_scope.

Lemma bbox_of_geometry (dpi pad_px : Z) (img : image) (sx sy : Q)
      (shp shp' : Shape.t) :
  Shape.left shp' = Shape.left shp -> Shape.top shp' = Shape.top shp ->
  Shape.width shp' = Shape.width shp -> Shape.height shp' = Shape.height shp ->
  bbox_of dpi pad_px img sx sy shp' = bbox_of dpi pad_px img sx sy shp.
Proof. unfold bbox_of. intros -> -> -> ->. reflexivity. Qed.

(** The pass does not look at the RTL state of a shape: enforcing RTL
    beforehand changes neither the document it produces nor the record. *)
Lemma process_shape_rtl_enforced (cfg : config) (idx : Z) (img : image)
      (sx sy : Q) (shp : Shape.t) :
  process_shape cfg idx img sx sy (rtl_enforced shp)
  = process_shape cfg idx img sx sy shp.
Proof.
  unfold process_shape.
  rewrite (bbox_of_geometry _ _ _ _ _ shp (rtl_enforced shp))
    by reflexivity.
  unfold rtl_enforced at 1.
  cbn [Shape.text_frame Shape.name Shape.shape_id Shape.left Shape.top
       Shape.width Shape.height].
  destruct (Shape.text_frame shp) as [tf0|] eqn:Htf; cbn [option_map].
  - rewrite (ensure_paragraph_rtl_stable (ensure_paragraph_rtl tf0))
      by apply ensure_paragraph_rtl_establishes.
    reflexivity.
  - unfold rtl_enforced. rewrite Htf. destruct shp. cbn in *. subst.
    reflexivity.
Qed.

(** X16. A pass that recolours nothing is idempotent: on a shape it
    skipped or found passing, the same pass over its own output gives
    the same shape and the same record again. *)
Theorem pass_idempotent_when_nothing_fixed (cfg : config) (idx : Z)
        (img : image) (sx sy : Q) (shp : Shape.t) :
  (forall a, snd (process_shape cfg idx img sx sy shp) = Some a ->
             Audit.applied_color a = None) ->
  process_shape cfg idx img sx sy (fst (process_shape cfg idx img sx sy shp))
  = process_shape cfg idx img sx sy shp.
Proof.
  intros Hnone.
  assert (fst (process_shape cfg idx img sx sy shp) = rtl_enforced shp) as ->;
    [|apply process_shape_rtl_enforced].
  destruct (process_shape_cases cfg idx img sx sy shp)
    as [[Htf E]|[(tf0 & Htf & Hz & E)|(tf0 & a & Htf & Hz & Ha)]].
  - rewrite E. unfold rtl_enforced. rewrite Htf. destruct shp. cbn in *.
    subst. reflexivity.
  - rewrite E. reflexivity.
  - specialize (Hnone a Ha).
    destruct (process_shape_inv _ _ _ _ _ _ _ Ha)
      as (tf0' & Htf' & _ & _ & _ & _ & E & _ & _ & _ & Hap & _).
    assert (tf0' = tf0) as -> by congruence.
    destruct (remediate_text_frame cfg (ensure_paragraph_rtl tf0)
                (Audit.measured_fg a) (Audit.measured_bg a))
      as [(_ & Hfst & _)|(c & Hc & _)]; [|congruence].
    rewrite E, Hfst. unfold rtl_enforced. rewrite Htf. reflexivity.
Qed.

Lemma pass_idempotent_when_nothing_fixed_witness :
  process_shape (ex_cfg scenario_dark scenario_light) 0
    (ex_img (255, 255, 255)%Z) (ex_scale 2 1828800) (ex_scale 1 914400)
    (fst (process_shape (ex_cfg scenario_dark scenario_light) 0
            (ex_img (255, 255, 255)%Z) (ex_scale 2 1828800)
            (ex_scale 1 914400) (ex_shape None)))
  = process_shape (ex_cfg scenario_dark scenario_light) 0
      (ex_img (255, 255, 255)%Z) (ex_scale 2 1828800) (ex_scale 1 914400)
      (ex_shape None).
Proof.
  apply (pass_idempotent_when_nothing_fixed
           (ex_cfg scenario_dark scenario_light) 0 (ex_img (255, 255, 255)%Z)
           (ex_scale 2 1828800) (ex_scale 1 914400) (ex_shape None)).
  intros a. rewrite passing_shape. intros [= <-]. reflexivity.
Defined.

End Idempotence.

Section SecondPass.
Local Open Scope R_scope.

Lemma np_sort_repeat (x : Z) (n : nat) : np_sort (repeat x n) = repeat x n.
Proof.
  induction n as [|n IH]; [reflexivity|].
  change (np_sort (repeat x (S n)))
    with (insert_sorted x (np_sort (repeat x n))).
  rewrite IH. destruct n; [reflexivity|].
  cbn [repeat insert_sorted]. rewrite Z.leb_refl. reflexivity.
Qed.

Lemma nth_repeat_lt (x d : Z) (n i : nat) :
  (i < n)%nat -> nth i (repeat x n) d = x.
Proof.
  intros H. rewrite (nth_indep _ d x) by (rewrite repeat_length; exact H).
  apply nth_repeat.
Qed.

Lemma astype_uint8_median_repeat (x : Z) (n : nat) :
  (0 < n)%nat -> (0 <= x <= 255)%Z ->
  astype_uint8 (np_median (repeat x n)) = x.
Proof.
  intros Hn Hx. unfold np_median. rewrite np_sort_repeat, repeat_length.
  assert (n / 2 < n)%nat by (apply Nat.div_lt; lia).
  destruct (Nat.even n).
  - rewrite !nth_repeat_lt by lia. unfold astype_uint8, py_int.
    cbn [Qnum Qden Qdiv Qmult Qplus Qinv inject_Z].
    replace ((x * 1 + x * 1) * 1)%Z with (x * 2)%Z by lia.
    change (Z.pos (1 * 1 * 2)) with 2%Z.
    rewrite Z.quot_mul by lia. apply Z.mod_small. lia.
  - rewrite nth_repeat_lt by lia. unfold astype_uint8.
    rewrite py_int_integer. apply Z.mod_small. lia.
Qed.

Lemma median_rgb_repeat (c : rgb) (n : nat) :
  (0 < n)%nat -> rgb8 c -> median_rgb (repeat c n) = c.
Proof.
  intros Hn H8. destruct c as [[r g] b]. unfold rgb8 in H8.
  unfold median_rgb. rewrite !map_repeat. cbn [fst snd].
  rewrite !astype_uint8_median_repeat by (lia || tauto). reflexivity.
Qed.

Lemma current_colors_set_runs_color (tf : text_frame) (c : rgb) :
  current_colors (set_runs_color tf c)
  = repeat c (List.length (flat_map runs tf)).
Proof.
  unfold current_colors, set_runs_color.
  induction tf as [|p tf IH]; [reflexivity|].
  cbn [map flat_map runs]. rewrite IH, length_app, repeat_app. f_equal.
  induction (runs p) as [|r rs IHr]; [reflexivity|].
  cbn [map flat_map run_color app List.length repeat]. rewrite IHr. reflexivity.
Qed.

Lemma current_colors_rtl (tf : text_frame) :
  current_colors (ensure_paragraph_rtl tf) = current_colors tf.
Proof.
  unfold current_colors, ensure_paragraph_rtl.
  induction tf as [|p tf IH]; [reflexivity|].
  cbn [map flat_map runs]. rewrite IH. f_equal.
  induction (runs p) as [|r rs IHr]; [reflexivity|].
  simpl. simpl in IHr. rewrite IHr. reflexivity.
Qed.

Lemma run_count_rtl (tf : text_frame) :
  List.length (flat_map runs (ensure_paragraph_rtl tf))
  = List.length (flat_map runs tf).
Proof.
  unfold ensure_paragraph_rtl.
  induction tf as [|p tf IH]; [reflexivity|].
  cbn [map flat_map runs]. rewrite !length_app, IH, length_map. reflexivity.
Qed.

Lemma set_runs_color_rtl_commute (tf : text_frame) (c : rgb) :
  ensure_paragraph_rtl (set_runs_color tf c)
  = set_runs_color (ensure_paragraph_rtl tf) c.
Proof.
  unfold ensure_paragraph_rtl, set_runs_color. rewrite !map_map.
  apply map_ext. intros p. cbn [pPr runs get_or_add_pPr]. unfold get_or_add_pPr.
  cbn [pPr]. f_equal. rewrite !map_map. apply map_ext. intros r. reflexivity.
Qed.

Lemma recoloured_frame_is_rtl (tf : text_frame) (c : rgb) :
  ensure_paragraph_rtl (set_runs_color (ensure_paragraph_rtl tf) c)
  = set_runs_color (ensure_paragraph_rtl tf) c.
Proof.
  rewrite set_runs_color_rtl_commute. f_equal.
  apply ensure_paragraph_rtl_stable, ensure_paragraph_rtl_establishes.
Qed.

(** The foreground an audit record reports: the median of the explicit
    run colours when there is one, the pixel estimate otherwise. *)
Lemma process_shape_measures (cfg : config) (idx : Z) (img : image)
      (sx sy : Q) (shp : Shape.t) (tf0 : text_frame) (a : Audit.AuditItem) :
  Shape.text_frame shp = Some tf0 ->
  snd (process_shape cfg idx img sx sy shp) = Some a ->
  Audit.measured_fg a
  = match current_colors tf0 with
    | [] => fst (estimate_fg_bg_from_region
                   (List.concat (sampled_region cfg img sx sy shp)))
    | _ :: _ => median_rgb (current_colors tf0)
    end
  /\ Audit.measured_bg a
     = snd (estimate_fg_bg_from_region
              (List.concat (sampled_region cfg img sx sy shp))).
Proof.
  unfold process_shape, sampled_region. intros ->.
  destruct (_ =? _)%Z; [discriminate|].
  destruct (estimate_fg_bg_from_region _) as [fg_rgb bg_rgb].
  destruct (remediate _ _ _ _) as [tf' d]. cbn [snd]. intros [= <-].
  cbn [Audit.measured_fg Audit.measured_bg fst snd].
  rewrite current_colors_rtl. destruct (current_colors tf0); auto.
Qed.

(** The colour a fix applies does at least as well as both brand colours
    and as the colour measured before. *)
Lemma remediate_applied_dominates (cfg : config) (tf : text_frame)
      (fg bg c : rgb) :
  rgb8 (brand_dark cfg) -> rgb8 (brand_light cfg) -> rgb8 fg -> rgb8 bg ->
  applied (snd (remediate cfg tf fg bg)) = Some c ->
  Rmax (contrast_ratio (brand_dark cfg) bg) (contrast_ratio (brand_light cfg) bg)
  <= contrast_ratio c bg
  /\ contrast_ratio fg bg <= contrast_ratio c bg
  /\ rgb8 c.
Proof.
  intros Hd Hl Hf Hb. unfold remediate.
  destruct (Rlt_dec _ _) as [Hlow|Hok]; [|discriminate].
  destruct (Rgt_dec _ _) as [Hbest|Hnot].
  - destruct (Rge_dec _ _) as [Hge|Hlt]; cbn [snd applied]; intros [= <-].
    + rewrite Rmax_left in * by lra. repeat split; try lra; apply Hd.
    + rewrite Rmax_right in * by lra. repeat split; try lra; apply Hl.
  - pose proof (contrast_ratio_le_bw _ _ Hd Hb) as H1.
    pose proof (contrast_ratio_le_bw _ _ Hl Hb) as H2.
    pose proof (contrast_ratio_le_bw _ _ Hf Hb) as H3.
    assert (Rmax (contrast_ratio (brand_dark cfg) bg)
                 (contrast_ratio (brand_light cfg) bg)
            <= Rmax (contrast_ratio (0, 0, 0)%Z bg)
                    (contrast_ratio (255, 255, 255)%Z bg)) as H4
      by (apply Rmax_lub; assumption).
    destruct (Rge_dec _ _) as [Hge|Hlt]; cbn [snd applied]; intros [= <-].
    + rewrite (Rmax_left (contrast_ratio (0, 0, 0)%Z bg)) in H3, H4 by lra.
      split; [exact H4|]. split; [exact H3 | exact black_rgb8].
    + rewrite (Rmax_right (contrast_ratio (0, 0, 0)%Z bg)) in H3, H4 by lra.
      split; [exact H4|]. split; [exact H3 | unfold rgb8; lia].
Qed.

(** X17. A second pass over a recoloured shape that has a run measures
    the applied colour as its foreground.  If it also estimates the same
    background, its [ratio_before] is the first pass's [ratio_after];
    it changes nothing when that ratio reaches the threshold, and it
    takes the black-or-white fallback, never lowering the ratio, when
    the brand colour fell short. *)
Theorem second_pass_after_fix (cfg : config) (idx idx' : Z) (img img' : image)
        (sx sy sx' sy' : Q) (shp : Shape.t) (a a' : Audit.AuditItem) (c : rgb) :
  rgb8 (brand_dark cfg) -> rgb8 (brand_light cfg) ->
  (forall tf0, Shape.text_frame shp = Some tf0 -> flat_map runs tf0 <> []) ->
  snd (process_shape cfg idx img sx sy shp) = Some a ->
  Audit.applied_color a = Some c ->
  snd (process_shape cfg idx' img' sx' sy'
         (fst (process_shape cfg idx img sx sy shp))) = Some a' ->
  Audit.measured_fg a' = c
  /\ (Audit.measured_bg a' = Audit.measured_bg a ->
      Audit.ratio_before a' = Audit.ratio_after a
      /\ (min_contrast cfg <= contrast_ratio c (Audit.measured_bg a) ->
          Audit.fixed a' = false
          /\ fst (process_shape cfg idx' img' sx' sy'
                    (fst (process_shape cfg idx img sx sy shp)))
             = fst (process_shape cfg idx img sx sy shp))
      /\ (contrast_ratio c (Audit.measured_bg a) < min_contrast cfg ->
          Audit.note a' = "used BW fallback"%string
          /\ Audit.ratio_after a <= Audit.ratio_after a')).
Proof.
  intros Hd Hl Hruns Ha Hc Ha'.
  destruct (process_shape_inv _ _ _ _ _ _ _ Ha)
    as (tf0 & Htf & _ & Hf & Hb & _ & E & _ & Hra & _ & Hap & _).
  rewrite Hc in Hap. symmetry in Hap.
  destruct (remediate_applied_dominates cfg _ _ _ c Hd Hl Hf Hb Hap)
    as (Hdom & _ & Hc8).
  destruct (remediate_text_frame cfg (ensure_paragraph_rtl tf0)
              (Audit.measured_fg a) (Audit.measured_bg a))
    as [(Hn & _)|(c0 & Hc0 & Hfst & _ & Hafter & _)]; [congruence|].
  assert (c0 = c) as -> by congruence.
  rewrite Hfst in E. rewrite Hafter in Hra.
  set (shp1 := fst (process_shape cfg idx img sx sy shp)) in *.
  set (tf1 := set_runs_color (ensure_paragraph_rtl tf0) c) in *.
  assert (Shape.text_frame shp1 = Some tf1) as Htf1 by (rewrite E; reflexivity).
  destruct (process_shape_measures _ _ _ _ _ _ _ _ Htf1 Ha') as [Hm _].
  assert (Audit.measured_fg a' = c) as Hfg'.
  { rewrite Hm. unfold tf1. rewrite current_colors_set_runs_color, run_count_rtl.
    specialize (Hruns tf0 Htf).
    destruct (flat_map runs tf0) as [|r rs] eqn:Er; [contradiction|].
    cbn [List.length repeat]. change (c :: repeat c (List.length rs))
      with (repeat c (S (List.length rs))).
    apply median_rgb_repeat; [lia | exact Hc8]. }
  split; [exact Hfg'|]. intros Hbg.
  destruct (process_shape_inv _ _ _ _ _ _ _ Ha')
    as (tf1' & Htf1' & _ & _ & _ & _ & E' & Hrb' & Hra' & Hfx' & _ & Hnt').
  assert (tf1' = tf1) as -> by congruence.
  rewrite Hfg', Hbg in E', Hrb', Hra', Hfx', Hnt'.
  unfold tf1 in E', Hrb', Hra', Hfx', Hnt'.
  rewrite recoloured_frame_is_rtl in E', Hrb', Hra', Hfx', Hnt'.
  fold tf1 in E', Hrb', Hra', Hfx', Hnt'.
  pose proof (contrast_ratio_le_bw _ _ Hc8 Hb) as Hbw.
  revert E' Hrb' Hra' Hfx' Hnt'. unfold remediate.
  destruct (Rlt_dec _ _) as [Hlow|Hok].
  - destruct (Rgt_dec _ _) as [Hbest|Hnot]; [exfalso; lra|].
    cbn [fst snd d_ratio_before d_ratio_after d_fixed d_note].
    intros E' Hrb' Hra' Hfx' Hnt'.
    split; [congruence|]. split; [intros; exfalso; lra|]. intros _.
    split; [exact Hnt'|]. rewrite Hra, Hra'. apply py_round3_mono. exact Hbw.
  - cbn [fst snd d_ratio_before d_ratio_after d_fixed d_note].
    intros E' Hrb' Hra' Hfx' Hnt'.
    split; [congruence|]. split; [|intros; exfalso; lra]. intros _.
    split; [exact Hfx'|]. rewrite E'. rewrite E. reflexivity.
Qed.

(** Scenario A again, on the shape the first pass produced: the
    foreground measured is the dark brand colour and nothing is fixed. *)
Lemma scenario_second_pass :
  process_shape (ex_cfg scenario_dark scenario_light) 0
    (ex_img scenario_bg) (ex_scale 2 1828800) (ex_scale 1 914400)
    (Shape.mk 7 " Title 1 " 0 0 1828800 914400
       (Some (set_runs_color
          (ensure_paragraph_rtl
             [mk_paragraph None [mk_run "Vision" (Some scenario_fg) None]])
          scenario_dark)))
  = (Shape.mk 7 " Title 1 " 0 0 1828800 914400
       (Some (set_runs_color
          (ensure_paragraph_rtl
             [mk_paragraph None [mk_run "Vision" (Some scenario_fg) None]])
          scenario_dark)),
     Some (Audit.mk 1 7 "Title 1" (0, 0, 2, 1)%Z scenario_dark scenario_bg
             13.033 13.033 false None "")).
Proof.
  change (Shape.mk 7 " Title 1 " 0 0 1828800 914400
            (Some (set_runs_color
               (ensure_paragraph_rtl
                  [mk_paragraph None [mk_run "Vision" (Some scenario_fg) None]])
               scenario_dark)))
    with (rtl_enforced (ex_shape (Some scenario_dark))) at 1.
  rewrite process_shape_rtl_enforced.
  rewrite (ex_process_shape _ _ (Some scenario_dark) scenario_bg scenario_dark);
    [ | vm_compute; reflexivity | vm_compute; reflexivity
      | pose proof lum_242; unfold scenario_bg; lra
      | vm_compute; reflexivity ].
  pose proof scenario_ratio_dark.
  rewrite remediate_passing by (cbn [min_contrast ex_cfg]; lra).
  cbn [fst snd d_ratio_before d_ratio_after d_fixed applied d_note].
  rewrite scenario_round_after. reflexivity.
Qed.

Lemma second_pass_after_fix_witness :
  fst (process_shape (ex_cfg scenario_dark scenario_light) 0
         (ex_img scenario_bg) (ex_scale 2 1828800) (ex_scale 1 914400)
         (fst (process_shape (ex_cfg scenario_dark scenario_light) 0
                 (ex_img scenario_bg) (ex_scale 2 1828800)
                 (ex_scale 1 914400) (ex_shape (Some scenario_fg)))))
  = fst (process_shape (ex_cfg scenario_dark scenario_light) 0
           (ex_img scenario_bg) (ex_scale 2 1828800) (ex_scale 1 914400)
           (ex_shape (Some scenario_fg))).
Proof.
  destruct (second_pass_after_fix
              (ex_cfg scenario_dark scenario_light) 0 0
              (ex_img scenario_bg) (ex_img scenario_bg)
              (ex_scale 2 1828800) (ex_scale 1 914400)
              (ex_scale 2 1828800) (ex_scale 1 914400)
              (ex_shape (Some scenario_fg))
              (Audit.mk 1 7 "Title 1" (0, 0, 2, 1)%Z scenario_fg scenario_bg
                        1.036 13.033 true (Some scenario_dark) "")
              (Audit.mk 1 7 "Title 1" (0, 0, 2, 1)%Z scenario_dark scenario_bg
                        13.033 13.033 false None "")
              scenario_dark) as (_ & H).
  - unfold rgb8; cbn; lia.
  - unfold rgb8; cbn; lia.
  - intros tf0 [= <-]. discriminate.
  - rewrite scenario_first_pass. reflexivity.
  - reflexivity.
  - rewrite scenario_first_pass. cbn [fst]. rewrite scenario_second_pass.
    reflexivity.
  - destruct (H eq_refl) as (_ & Hsame & _). apply Hsame.
    pose proof scenario_ratio_dark. cbn [min_contrast ex_cfg Audit.measured_bg].
    lra.
Defined.

End SecondPass.

(** ** Regions without two gray levels *)

Section FlatRegion.

Lemma select_all_true {A : Type} (l : list A) :
  select (repeat true (List.length l)) l = l.
Proof. induction l as [|x l IH]; [reflexivity|]. cbn. rewrite IH. reflexivity. Qed.

Lemma select_all_false {A : Type} (l : list A) :
  select (repeat false (List.length l)) l = [].
Proof. induction l as [|x l IH]; [reflexivity|]. cbn. exact IH. Qed.

Lemma map_constant {A B : Type} (f : A -> B) (l : list A) (y : B) :
  (forall x, In x l -> f x = y) -> map f l = repeat y (List.length l).
Proof.
  induction l as [|x l IH]; intros H; [reflexivity|].
  cbn. rewrite (H x (or_introl eq_refl)), IH; [reflexivity|].
  intros z Hz. apply H. right. exact Hz.
Qed.

Lemma mask_mean_constant (b : bool) (n : nat) :
  (0 < n)%nat -> mask_mean (repeat b n) == (if b then 1 else 0).
Proof.
  intros Hn. unfold mask_mean. rewrite repeat_length.
  assert (~ inject_Z (Z.of_nat n) == 0) as Hnz.
  { unfold Qeq. cbn. lia. }
  destruct b.
  - assert (filter (fun b => b) (repeat true n) = repeat true n) as ->.
    { clear. induction n as [|n IH]; [reflexivity|]. cbn. rewrite IH. reflexivity. }
    rewrite repeat_length. field. exact Hnz.
  - assert (filter (fun b => b) (repeat false n) = []) as ->.
    { clear. induction n as [|n IH]; [reflexivity|]. cbn. exact IH. }
    cbn [List.length Z.of_nat]. field. exact Hnz.
Qed.

Lemma np_percentile_repeat (g : Z) (n : nat) :
  (0 < n)%nat -> np_percentile (repeat g n) 10 == inject_Z g.
Proof.
  intros Hn. unfold np_percentile. rewrite np_sort_repeat, repeat_length.
  set (idx := inject_Z (Z.of_nat n - 1) * (10 / 100)).
  assert (0 <= Qfloor idx <= Z.of_nat n - 1)%Z as Hlo.
  { assert (0 <= inject_Z (Z.of_nat n - 1)) as H0
      by (unfold Qle; cbn; lia).
    split.
    - change 0%Z with (Qfloor 0). apply Qfloor_resp_le. unfold idx.
      apply Qmult_le_0_compat; [exact H0 | discriminate].
    - rewrite <- (Qfloor_Z (Z.of_nat n - 1)). apply Qfloor_resp_le.
      unfold idx. setoid_replace (10 / 100) with (1 # 10) by reflexivity.
      set (x := inject_Z (Z.of_nat n - 1)) in *. lra. }
  rewrite !nth_repeat_lt by lia. ring.
Qed.

Lemma dark_mask_flat (region : list rgb) (g : Z) :
  region <> [] -> (forall p, In p region -> gray_of p = g) ->
  dark_mask region = repeat true (List.length region).
Proof.
  intros Hne Hg. unfold dark_mask.
  assert (0 < List.length region)%nat as Hn
    by (destruct region; [contradiction | cbn; lia]).
  rewrite (map_constant gray_of region g Hg), !map_repeat.
  pose proof (mask_mean_constant (g <=? otsu_threshold (repeat g (List.length region)))%Z
                                 _ Hn) as Hm.
  assert (Qle_bool (inject_Z g) (np_percentile (repeat g (List.length region)) 10)
          = true) as Hp.
  { apply Qle_bool_iff. rewrite np_percentile_repeat by exact Hn. apply Qle_refl. }
  destruct (Qlt_le_dec _ 0.02) as [_|H1]; [rewrite Hp; reflexivity|].
  destruct (Qlt_le_dec 0.98 _) as [_|H2]; [rewrite Hp; reflexivity|].
  exfalso. rewrite Hm in H1, H2. destruct (g <=? _)%Z.
  - apply (Qle_not_lt _ _ H2). reflexivity.
  - apply (Qle_not_lt _ _ H1). reflexivity.
Qed.

(** X18. A region whose pixels all have one gray level is never split:
    whatever Otsu's threshold is, the estimate falls back to black for
    the foreground and the per-channel median of the whole region for the
    background; for a region of one 8-bit colour the background is that
    colour. *)
Theorem flat_region_estimate (region : list rgb) (c : rgb) :
  region <> [] ->
  (forall p, In p region -> gray_of p = gray_of c) ->
  estimate_fg_bg_from_region region = ((0, 0, 0)%Z, median_rgb region)
  /\ (rgb8 c -> (forall p, In p region -> p = c) ->
      estimate_fg_bg_from_region region = ((0, 0, 0)%Z, c)).
Proof.
  intros Hne Hg.
  assert (estimate_fg_bg_from_region region = ((0, 0, 0)%Z, median_rgb region))
    as E.
  { unfold estimate_fg_bg_from_region.
    rewrite (dark_mask_flat region (gray_of c) Hne Hg), map_repeat.
    cbn [negb]. rewrite select_all_true, select_all_false.
    destruct region; [contradiction | reflexivity]. }
  split; [exact E|]. intros H8 Hall. rewrite E. f_equal.
  assert (region = repeat c (List.length region)) as ->.
  { rewrite <- (map_id region) at 1. apply map_constant. exact Hall. }
  apply median_rgb_repeat; [|exact H8].
  destruct region; [contradiction | cbn; lia].
Qed.

Lemma flat_region_estimate_witness :
  estimate_fg_bg_from_region (repeat scenario_bg 4)
  = ((0, 0, 0)%Z, median_rgb (repeat scenario_bg 4)).
Proof.
  destruct (flat_region_estimate (repeat scenario_bg 4) scenario_bg)
    as [H _].
  - discriminate.
  - cbn [repeat In]. intros p [<-|[<-|[<-|[<-|[]]]]]; reflexivity.
  - exact H.
Defined.

End FlatRegion.

(** ** Regions of two gray levels *)

Section TwoTone.
Local Open Scope Q_scope.

Variables g1 g2 : Z.
Hypothesis levels_ordered : (0 <= g1 < g2)%Z.

Variable gray : list Z.
Hypothesis two_levels : forall g, In g gray -> g = g1 \/ g = g2.


Lemma insert_dark (a b : nat) :
  insert_sorted g1 (repeat g1 a ++ repeat g2 b)
  = repeat g1 (S a) ++ repeat g2 b.
Proof.
  destruct a; [destruct b|]; cbn [repeat app insert_sorted]; [reflexivity| |].
  - destruct (Z.leb_spec g1 g2); [reflexivity | lia].
  - rewrite Z.leb_refl. reflexivity.
Qed.

Lemma insert_light (a b : nat) :
  insert_sorted g2 (repeat g1 a ++ repeat g2 b)
  = repeat g1 a ++ repeat g2 (S b).
Proof.
  induction a as [|a IH].
  - destruct b; cbn [repeat app insert_sorted]; [reflexivity|].
    rewrite Z.leb_refl. reflexivity.
  - cbn [repeat app insert_sorted].
    destruct (Z.leb_spec g2 g1); [lia|]. rewrite IH. reflexivity.
Qed.

Lemma np_sort_two_levels :
  np_sort gray
  = repeat g1 (count_level g1 gray)
    ++ repeat g2 (List.length gray - count_level g1 gray)
  /\ (count_level g1 gray <= List.length gray)%nat.
Proof.
  unfold count_level. clear - levels_ordered two_levels.
  induction gray as [|x l IH]; [split; [reflexivity | cbn; lia]|].
  destruct IH as [IH Hle]; [intros g Hg; apply two_levels; right; exact Hg|].
  change (np_sort (x :: l)) with (insert_sorted x (np_sort l)). rewrite IH.
  cbn [filter List.length].
  destruct (two_levels x (or_introl eq_refl)) as [-> | ->].
  - rewrite Z.eqb_refl. cbn [List.length]. rewrite insert_dark.
    split; [|lia].
    replace (S (List.length l) - S (List.length (filter (Z.eqb g1) l)))%nat
      with (List.length l - List.length (filter (Z.eqb g1) l))%nat by lia.
    reflexivity.
  - destruct (Z.eqb_spec g1 g2); [lia|]. rewrite insert_light.
    split; [|lia].
    replace (S (List.length l) - List.length (filter (Z.eqb g1) l))%nat
      with (S (List.length l - List.length (filter (Z.eqb g1) l)))%nat by lia.
    reflexivity.
Qed.

Lemma nth_two_levels (i : nat) :
  (i < List.length gray)%nat ->
  nth i (np_sort gray) 0%Z
  = if (i <? count_level g1 gray)%nat then g1 else g2.
Proof.
  intros Hi. destruct np_sort_two_levels as [-> Hle].
  destruct (Nat.ltb_spec i (count_level g1 gray)) as [H|H].
  - rewrite app_nth1 by (rewrite repeat_length; exact H).
    apply nth_repeat_lt. exact H.
  - rewrite app_nth2 by (rewrite repeat_length; exact H).
    rewrite repeat_length. apply nth_repeat_lt. lia.
Qed.

Lemma percentile_index (m : Z) :
  (0 <= m)%Z ->
  (10 * Qfloor (inject_Z m * (10 / 100)) <= m
   < 10 * Qfloor (inject_Z m * (10 / 100)) + 10)%Z.
Proof.
  intros Hm.
  assert (inject_Z m * (10 / 100) == m # 10) as E
    by (unfold Qeq; cbn; lia).
  rewrite E. change (Qfloor (m # 10)) with (m / 10)%Z.
  pose proof (Z.div_mod m 10 ltac:(lia)).
  pose proof (Z.mod_pos_bound m 10 ltac:(lia)). lia.
Qed.

(** The 10th percentile of two gray levels: the lower one when it holds
    more than 98% of the pixels, the upper one when the lower one holds
    less than 2%. *)
Lemma np_percentile_two_levels :
  (0 < count_level g1 gray < List.length gray)%nat ->
  ((98 * Z.of_nat (List.length gray) < 100 * Z.of_nat (count_level g1 gray))%Z ->
   np_percentile gray 10 == inject_Z g1)
  /\ ((100 * Z.of_nat (count_level g1 gray) < 2 * Z.of_nat (List.length gray))%Z ->
      np_percentile gray 10 == inject_Z g2).
Proof.
  intros Hk.
  pose proof (percentile_index (Z.of_nat (List.length gray) - 1) ltac:(lia))
    as Hidx.
  assert (List.length (np_sort gray) = List.length gray) as Hlen.
  { destruct np_sort_two_levels as [-> Hle].
    rewrite length_app, !repeat_length. lia. }
  unfold np_percentile. rewrite Hlen.
  set (lo := Qfloor (inject_Z (Z.of_nat (List.length gray) - 1) * (10 / 100)))
    in *.
  split; intros Hfrac.
  - rewrite !nth_two_levels by lia.
    destruct (Nat.ltb_spec (Z.to_nat lo) (count_level g1 gray)); [|lia].
    destruct (Nat.ltb_spec
                (Z.to_nat (Z.min (lo + 1) (Z.of_nat (List.length gray) - 1)))
                (count_level g1 gray)); [|lia].
    ring.
  - rewrite !nth_two_levels by lia.
    destruct (Nat.ltb_spec (Z.to_nat lo) (count_level g1 gray)); [lia|].
    destruct (Nat.ltb_spec
                (Z.to_nat (Z.min (lo + 1) (Z.of_nat (List.length gray) - 1)))
                (count_level g1 gray)); [lia|].
    ring.
Qed.

Lemma filter_below_two_levels (m : nat) :
  List.length (filter (fun g => (0 <=? g) && (g <? Z.of_nat m))%Z gray)
  = if (Z.of_nat m <=? g1)%Z then 0%nat
    else if (Z.of_nat m <=? g2)%Z then count_level g1 gray
         else List.length gray.
Proof.
  unfold count_level. clear - levels_ordered two_levels.
  induction gray as [|x l IH]; [repeat destruct (_ <=? _)%Z; reflexivity|].
  specialize (IH (fun g Hg => two_levels g (or_intror Hg))).
  cbn [filter List.length].
  destruct (two_levels x (or_introl eq_refl)) as [-> | ->].
  - rewrite Z.eqb_refl.
    destruct (Z.leb_spec 0 g1); [|lia]. cbn [andb].
    destruct (Z.ltb_spec g1 (Z.of_nat m)), (Z.leb_spec (Z.of_nat m) g1),
      (Z.leb_spec (Z.of_nat m) g2); cbn [List.length]; lia.
  - destruct (Z.eqb_spec g1 g2); [lia|].
    destruct (Z.leb_spec 0 g2); [|lia]. cbn [andb].
    destruct (Z.ltb_spec g2 (Z.of_nat m)), (Z.leb_spec (Z.of_nat m) g1),
      (Z.leb_spec (Z.of_nat m) g2); cbn [List.length]; lia.
Qed.

(** With both levels present, Otsu's threshold separates them. *)
Lemma otsu_threshold_two_levels :
  (0 < count_level g1 gray < List.length gray)%nat -> (g2 <= 255)%Z ->
  (g1 <= otsu_threshold gray < g2)%Z.
Proof.
  intros Hk H255.
  assert (forall j, two_classes (bincount gray)
                      (inject_Z (Z.of_nat (List.length gray))) j
                    <-> (g1 <= Z.of_nat j < g2)%Z) as Htwo.
  { intros j. unfold two_classes.
    rewrite weight_below_counts, filter_below_two_levels.
    destruct (Z.leb_spec (Z.of_nat (S j)) g1);
      [|destruct (Z.leb_spec (Z.of_nat (S j)) g2)];
      unfold Qeq, Qminus, Qplus, Qopp; cbn [Qnum Qden inject_Z];
      split; lia. }
  destruct (otsu_threshold_maximal gray (Z.to_nat g1)) as [H _].
  - lia.
  - apply Htwo. lia.
  - apply Htwo in H. pose proof (otsu_threshold_range gray). lia.
Qed.

End TwoTone.

Section TwoToneRegion.

Lemma fraction_cases (k n : Z) :
  (0 < n)%Z ->
  (inject_Z k / inject_Z n < 0.02 <-> (100 * k < 2 * n)%Z)
  /\ (0.98 < inject_Z k / inject_Z n <-> (98 * n < 100 * k)%Z).
Proof.
  intros Hn. destruct n as [|p|p]; try lia.
  unfold Qlt, Qdiv, Qmult, Qinv. cbn [Qnum Qden inject_Z Pos.mul].
  split; split; lia.
Qed.

Lemma filter_complement {A : Type} (f g : A -> bool) (l : list A) :
  (forall x, In x l -> g x = negb (f x)) ->
  filter g l = filter (fun x => negb (f x)) l
  /\ (List.length (filter f l) + List.length (filter g l))%nat = List.length l.
Proof.
  intros H. assert (filter g l = filter (fun x => negb (f x)) l) as E
    by (apply filter_ext_in; exact H).
  split; [exact E|]. rewrite E. clear.
  induction l as [|x l IH]; [reflexivity|].
  cbn [filter]. destruct (f x); cbn [negb List.length]; lia.
Qed.

Variable region : list rgb.
Variables g1 g2 : Z.
Hypothesis levels_ordered : (g1 < g2)%Z.
Hypothesis two_levels :
  forall p, In p region -> gray_of p = g1 \/ gray_of p = g2.
Hypothesis dark_present : filter (fun p => (g1 =? gray_of p)%Z) region <> [].
Hypothesis light_present : filter (fun p => (g2 =? gray_of p)%Z) region <> [].

Lemma two_levels_gray :
  forall g, In g (map gray_of region) -> g = g1 \/ g = g2.
Proof.
  intros g Hg. apply in_map_iff in Hg. destruct Hg as (p & <- & Hp).
  apply two_levels. exact Hp.
Qed.

Lemma levels_range : (0 <= g1 /\ g2 <= 255)%Z.
Proof.
  split.
  - destruct (filter _ region) as [|p l] eqn:E in dark_present;
      [contradiction|].
    assert (In p (filter (fun p => (g1 =? gray_of p)%Z) region)) as Hp
      by (rewrite E; left; reflexivity).
    apply filter_In in Hp. destruct Hp as [_ Hp]. apply Z.eqb_eq in Hp.
    pose proof (gray_of_range p). lia.
  - destruct (filter _ region) as [|p l] eqn:E in light_present;
      [contradiction|].
    assert (In p (filter (fun p => (g2 =? gray_of p)%Z) region)) as Hp
      by (rewrite E; left; reflexivity).
    apply filter_In in Hp. destruct Hp as [_ Hp]. apply Z.eqb_eq in Hp.
    pose proof (gray_of_range p). lia.
Qed.

Lemma light_is_complement :
  filter (fun p => (g2 =? gray_of p)%Z) region
  = filter (fun p => negb (g1 =? gray_of p)%Z) region
  /\ (List.length (filter (fun p => (g1 =? gray_of p)%Z) region)
      + List.length (filter (fun p => (g2 =? gray_of p)%Z) region))%nat
     = List.length region.
Proof.
  apply filter_complement. intros p Hp.
  destruct (two_levels p Hp) as [-> | ->]; rewrite Z.eqb_refl.
  - destruct (Z.eqb_spec g2 g1); [lia | reflexivity].
  - destruct (Z.eqb_spec g1 g2); [lia | reflexivity].
Qed.

Lemma count_level_region :
  count_level g1 (map gray_of region)
  = List.length (filter (fun p => (g1 =? gray_of p)%Z) region)
  /\ (0 < count_level g1 (map gray_of region)
      < List.length (map gray_of region))%nat.
Proof.
  unfold count_level. rewrite filter_map_length, length_map.
  split; [reflexivity|].
  destruct light_is_complement as [_ Hsum].
  destruct (filter (fun p => (g1 =? gray_of p)%Z) region);
    [contradiction|].
  destruct (filter (fun p => (g2 =? gray_of p)%Z) region);
    [contradiction|].
  cbn [List.length] in *. lia.
Qed.

(** The dark side of a region of two gray levels: the pixels of the
    lower level, unless they are under 2% of the region; every pixel
    then. *)
Lemma dark_mask_two_levels :
  let dark := filter (fun p => (g1 =? gray_of p)%Z) region in
  ((2 * Z.of_nat (List.length region) <= 100 * Z.of_nat (List.length dark))%Z ->
   dark_mask region = map (fun p => (g1 =? gray_of p)%Z) region)
  /\ ((100 * Z.of_nat (List.length dark) < 2 * Z.of_nat (List.length region))%Z ->
      dark_mask region = repeat true (List.length region)).
Proof.
  intros dark. destruct levels_range as [H0 H255].
  destruct count_level_region as [Hk Hkn].
  pose proof (otsu_threshold_two_levels g1 g2 ltac:(lia) (map gray_of region)
                two_levels_gray Hkn H255) as Ht.
  destruct (np_percentile_two_levels g1 g2 ltac:(lia) (map gray_of region)
              two_levels_gray Hkn) as [Hp1 Hp2].
  destruct (fraction_cases (Z.of_nat (count_level g1 (map gray_of region)))
              (Z.of_nat (List.length (map gray_of region))) ltac:(lia))
    as [Hlo Hhi].
  assert (map (fun g => (g <=? otsu_threshold (map gray_of region))%Z)
              (map gray_of region)
          = map (Z.eqb g1) (map gray_of region)) as Hmask.
  { apply map_ext_in. intros g Hg.
    destruct (two_levels_gray g Hg) as [-> | ->].
    - rewrite Z.eqb_refl. apply Z.leb_le. lia.
    - transitivity false; [apply Z.leb_gt; lia|].
      symmetry. apply Z.eqb_neq. lia. }
  unfold dark_mask. rewrite Hmask, mask_mean_map.
  fold (count_level g1 (map gray_of region)).
  rewrite Hk, length_map in *. fold dark in Hlo, Hhi, Hp1, Hp2 |- *.
  split; intros Hfrac.
  - destruct (Qlt_le_dec _ 0.02) as [H|_]; [apply Hlo in H; lia|].
    destruct (Qlt_le_dec 0.98 _) as [H|_]; [|apply map_map].
    apply Hhi in H. rewrite map_map. apply map_ext_in. intros p Hp.
    destruct (two_levels p Hp) as [-> | ->].
    + rewrite Z.eqb_refl. apply Qle_bool_iff. rewrite (Hp1 H). apply Qle_refl.
    + transitivity false; [|symmetry; apply Z.eqb_neq; lia].
      apply not_true_is_false. intros Hle. apply Qle_bool_iff in Hle.
      rewrite (Hp1 H), <- Zle_Qle in Hle. lia.
  - destruct (Qlt_le_dec _ 0.02) as [_|H];
      [|exfalso; apply (Qle_not_lt _ _ H), Hlo; exact Hfrac].
    rewrite map_map. apply map_constant.
    intros p Hp. apply Qle_bool_iff. rewrite (Hp2 Hfrac), <- Zle_Qle.
    destruct (two_levels p Hp) as [-> | ->]; lia.
Qed.

End TwoToneRegion.

(** X19. A region of two gray levels (text of one tone on a ground of
    another): Otsu's threshold falls between the two levels.  When the
    darker level holds at least 2% of the pixels, the estimate is the
    per-channel medians of the two groups, the one of lower luminance
    first.  When it holds less than 2%, the text is not seen: the
    estimate is black against the median of the whole region. *)
Theorem two_tone_region_estimate (region : list rgb) (g1 g2 : Z) :
  (g1 < g2)%Z ->
  (forall p, In p region -> gray_of p = g1 \/ gray_of p = g2) ->
  let dark := filter (fun p => (g1 =? gray_of p)%Z) region in
  let light := filter (fun p => (g2 =? gray_of p)%Z) region in
  dark <> [] -> light <> [] ->
  (g1 <= otsu_threshold (map gray_of region) < g2)%Z
  /\ ((2 * Z.of_nat (List.length region) <= 100 * Z.of_nat (List.length dark))%Z ->
      estimate_fg_bg_from_region region
      = if Rgt_dec (rel_luminance (median_rgb dark))
                   (rel_luminance (median_rgb light))
        then (median_rgb light, median_rgb dark)
        else (median_rgb dark, median_rgb light))
  /\ ((100 * Z.of_nat (List.length dark) < 2 * Z.of_nat (List.length region))%Z ->
      estimate_fg_bg_from_region region = ((0, 0, 0)%Z, median_rgb region)).
Proof.
  intros Hlt Htwo dark light Hd Hl.
  destruct (levels_range region g1 g2 Hd Hl) as [H0 H255].
  destruct (count_level_region region g1 g2 Hlt Htwo Hd Hl) as [_ Hkn].
  destruct (dark_mask_two_levels region g1 g2 Hlt Htwo Hd Hl) as [Hm1 Hm2].
  destruct (light_is_complement region g1 g2 Hlt Htwo) as [Hlight _].
  split; [|split].
  - apply (otsu_threshold_two_levels g1 g2 ltac:(lia) (map gray_of region)
             (two_levels_gray region g1 g2 Htwo) Hkn H255).
  - intros Hfrac. unfold estimate_fg_bg_from_region.
    rewrite (Hm1 Hfrac), select_map, select_map_negb, <- Hlight.
    fold dark light.
    destruct dark; [contradiction|]. destruct light; [contradiction|].
    destruct (Rgt_dec _ _); reflexivity.
  - intros Hfrac. unfold estimate_fg_bg_from_region.
    rewrite (Hm2 Hfrac), map_repeat. cbn [negb].
    rewrite select_all_true, select_all_false.
    destruct region; [contradiction | reflexivity].
Qed.

Lemma two_tone_region_estimate_witness :
  (0 <= otsu_threshold (map gray_of [(0, 0, 0)%Z; scenario_bg]) < 242)%Z.
Proof.
  apply (two_tone_region_estimate [(0, 0, 0)%Z; scenario_bg] 0 242).
  - lia.
  - intros p [<-|[<-|[]]]; [left | right]; vm_compute; reflexivity.
  - assert (filter (fun p => (0 =? gray_of p)%Z) [(0, 0, 0)%Z; scenario_bg]
            = [(0, 0, 0)%Z]) as -> by (vm_compute; reflexivity).
    discriminate.
  - assert (filter (fun p => (242 =? gray_of p)%Z) [(0, 0, 0)%Z; scenario_bg]
            = [scenario_bg]) as -> by (vm_compute; reflexivity).
    discriminate.
Defined.

(** ** The outcome of a run *)

Section Outcome.

Lemma process_slides_applied_rgb8 (cfg : config) (sw sh : Z)
      (sls : list slide) (idx : Z) (images : list image) :
  rgb8 (brand_dark cfg) -> rgb8 (brand_light cfg) ->
  Forall (fun a => forall c, Audit.applied_color a = Some c -> rgb8 c)
         (snd (process_slides cfg sw sh idx sls images)).
Proof.
  intros Hd Hl. apply Forall_forall. intros a Hin c Hc.
  destruct (process_slides_audit cfg sw sh sls idx images a Hin)
    as (idx' & img & sx & sy & shp & Ha).
  destruct (process_shape_inv _ _ _ _ _ _ _ Ha)
    as (tf0 & _ & _ & Hf & Hb & _ & _ & _ & _ & _ & Hap & _).
  rewrite Hc in Hap. symmetry in Hap.
  destruct (remediate_applied_dominates cfg _ _ _ c Hd Hl Hf Hb Hap)
    as (_ & _ & H8).
  exact H8.
Qed.

(** X20. When a run with 8-bit brand colours returns normally,
    LibreOffice was found and exited with 0, it left a PDF behind (the
    one named after the input, else the first one of the output
    directory) and that PDF rendered to as many pages as the document
    has slides; a document is saved, with the slide size, the slides,
    the shapes and the run texts of the input; the audit report is
    written exactly when an audit path was given, and every colour it
    reports as applied is 8-bit.  (The failures the agent raises itself
    are the converter's and the page count, claim C6; a failure of
    PyMuPDF or of the file system is no answer of the [world].) *)
Theorem process_pptx_outcome (w : world) (prs : presentation) (stem : string)
        (cfg : config) (audit_out : bool) :
  rgb8 (brand_dark cfg) -> rgb8 (brand_light cfg) ->
  let pdf := if stem_pdf_exists w then stem else hd stem (glob_pdf w) in
  let pages := render_pdf_pages w pdf (dpi cfg) in
  let res := process_pptx w prs stem cfg audit_out in
  fst res = inr tt ->
  which_soffice w <> None /\ returncode w = 0%Z
  /\ (stem_pdf_exists w = true \/ glob_pdf w <> [])
  /\ List.length pages = List.length (slides prs)
  /\ (exists prs', saved_pptx (snd res) = Some prs'
                   /\ slide_width prs' = slide_width prs
                   /\ slide_height prs' = slide_height prs
                   /\ map (map shape_skeleton) (slides prs')
                      = map (map shape_skeleton) (slides prs))
  /\ (audit_out = false -> audit_json (snd res) = None)
  /\ (audit_out = true ->
      exists audits,
        audit_json (snd res) = Some audits
        /\ Forall (fun a => forall c, Audit.applied_color a = Some c -> rgb8 c)
                  audits).
Proof.
  intros Hd Hl pdf pages res Hres.
  assert (exists sls audits,
             process_slides cfg (slide_width prs) (slide_height prs) 0
                            (slides prs) pages = (sls, audits)
             /\ which_soffice w <> None /\ returncode w = 0%Z
             /\ (stem_pdf_exists w = true \/ glob_pdf w <> [])
             /\ List.length pages = List.length (slides prs)
             /\ snd res
                = mk_outputs
                    (Some (mk_presentation (slide_width prs) (slide_height prs)
                                           sls))
                    (if audit_out then Some audits else None))
    as (sls & audits & E & H1 & H2 & H3 & H4 & H5).
  { subst pdf pages res. revert Hres.
    unfold process_pptx, pptx_to_pdf, ensure_soffice.
    destruct (which_soffice w) as [s|]; [|discriminate].
    destruct (Z.eqb_spec (returncode w) 0) as [Hrc|Hrc]; cbn [negb];
      [|discriminate].
    destruct (stem_pdf_exists w) eqn:Hex.
    - destruct (Nat.eqb_spec (List.length (render_pdf_pages w stem (dpi cfg)))
                             (List.length (slides prs))) as [E|E];
        cbn [negb]; [|discriminate].
      destruct (process_slides _ _ _ _ _ _) as [sls audits].
      cbn [fst snd]. intros _. exists sls, audits.
      split; [reflexivity|]. split; [discriminate|]. split; [exact Hrc|].
      split; [left; reflexivity|]. split; [exact E | reflexivity].
    - destruct (glob_pdf w) as [|p ps] eqn:Hglob; [discriminate|]. cbn [hd].
      destruct (Nat.eqb_spec (List.length (render_pdf_pages w p (dpi cfg)))
                             (List.length (slides prs))) as [E|E];
        cbn [negb]; [|discriminate].
      destruct (process_slides _ _ _ _ _ _) as [sls audits].
      cbn [fst snd]. intros _. exists sls, audits.
      split; [reflexivity|]. split; [discriminate|]. split; [exact Hrc|].
      split; [right; discriminate|]. split; [exact E | reflexivity]. }
  split; [exact H1|]. split; [exact H2|]. split; [exact H3|].
  split; [exact H4|]. rewrite H5. cbn [saved_pptx audit_json].
  split; [|split].
  - eexists. split; [reflexivity|]. cbn [slide_width slide_height slides].
    split; [reflexivity|]. split; [reflexivity|].
    pose proof (process_slides_fst cfg (slide_width prs) (slide_height prs)
                  (slides prs) 0 pages H4) as Hs.
    rewrite E in Hs. cbn [fst] in Hs. clear E H4 H5.
    induction Hs as [|sl sl' l l' (idx & img & sx & sy & ->) _ IH];
      [reflexivity|].
    cbn [map]. rewrite IH. f_equal. rewrite map_map. apply map_ext.
    intros s. apply process_shape_frame.
  - intros ->. reflexivity.
  - intros ->. exists audits. split; [reflexivity|].
    pose proof (process_slides_applied_rgb8 cfg (slide_width prs)
                  (slide_height prs) (slides prs) 0 pages Hd Hl) as H8.
    rewrite E in H8. exact H8.
Qed.

Lemma process_pptx_outcome_witness :
  audit_json
    (snd (process_pptx (ex_world [ex_img scenario_bg])
            (ex_prs [ex_shape (Some scenario_fg)]) "deck.pdf"
            (ex_cfg scenario_dark scenario_light) false))
  = None.
Proof.
  destruct (process_pptx_outcome
              (ex_world [ex_img scenario_bg])
              (ex_prs [ex_shape (Some scenario_fg)]) "deck.pdf"
              (ex_cfg scenario_dark scenario_light) false)
    as (_ & _ & _ & _ & _ & H & _).
  - unfold rgb8; cbn; lia.
  - unfold rgb8; cbn; lia.
  - unfold process_pptx.
    cbn [pptx_to_pdf ensure_soffice ex_world which_soffice returncode
         stem_pdf_exists render_pdf_pages negb Z.eqb ex_prs slides
         List.length Nat.eqb].
    destruct (process_slides _ _ _ _ _ _). reflexivity.
  - exact (H eq_refl).
Defined.

End Outcome.

(** ** What the pass leaves alone in a paragraph *)

Section ParagraphFrame.

Lemma other_attrs_set_attr (k v : string) (a : attrs) :
  k = "rtl"%string \/ k = "algn"%string ->
  other_attrs (set_attr k v a) = other_attrs a.
Proof.
  intros Hk. unfold other_attrs.
  assert (negb (String.eqb k "rtl" || String.eqb k "algn") = false) as Hf
    by (destruct Hk as [-> | ->]; reflexivity).
  induction a as [|[k' v'] a IH]; cbn [set_attr filter fst].
  - rewrite Hf. reflexivity.
  - destruct (String.eqb_spec k k') as [<-|Hne]; cbn [filter fst].
    + rewrite Hf. reflexivity.
    + rewrite IH. reflexivity.
Qed.

Lemma other_attrs_rtl (tf : text_frame) :
  map (fun p => other_attrs (get_or_add_pPr p)) (ensure_paragraph_rtl tf)
  = map (fun p => other_attrs (get_or_add_pPr p)) tf.
Proof.
  unfold ensure_paragraph_rtl. rewrite map_map. apply map_ext. intros p.
  unfold get_or_add_pPr at 1. cbn [pPr].
  rewrite !other_attrs_set_attr by auto. reflexivity.
Qed.

Lemma other_attrs_set_runs_color (tf : text_frame) (c : rgb) :
  map (fun p => other_attrs (get_or_add_pPr p)) (set_runs_color tf c)
  = map (fun p => other_attrs (get_or_add_pPr p)) tf.
Proof.
  unfold set_runs_color. rewrite map_map. apply map_ext. intros p.
  reflexivity.
Qed.

Lemma run_language_set_runs_color (tf : text_frame) (c : rgb) :
  map (fun p => map run_language_id (runs p)) (set_runs_color tf c)
  = map (fun p => map run_language_id (runs p)) tf.
Proof.
  unfold set_runs_color. rewrite map_map. apply map_ext. intros p.
  cbn [runs]. rewrite map_map. reflexivity.
Qed.

(** X21. In every paragraph the pass leaves the properties other than
    [rtl] and [algn] as they were, values and order; recolouring touches
    neither paragraph properties nor the language of a run. *)
Theorem pass_keeps_other_attributes (cfg : config) (idx : Z) (img : image)
        (sx sy : Q) (shp : Shape.t) (tf0 tf' : text_frame) (c : rgb) :
  Shape.text_frame shp = Some tf0 ->
  Shape.text_frame (fst (process_shape cfg idx img sx sy shp)) = Some tf' ->
  map (fun p => other_attrs (get_or_add_pPr p)) tf'
  = map (fun p => other_attrs (get_or_add_pPr p)) tf0
  /\ map pPr (set_runs_color tf0 c) = map pPr tf0
  /\ map (fun p => map run_language_id (runs p)) (set_runs_color tf0 c)
     = map (fun p => map run_language_id (runs p)) tf0.
Proof.
  intros Htf Htf'.
  split; [|split; [|apply run_language_set_runs_color]].
  - destruct (process_shape_cases cfg idx img sx sy shp)
      as [[Hn _]|[(tf1 & Htf1 & _ & E)|(tf1 & a & Htf1 & _ & Ha)]];
      [congruence| |].
    + rewrite E in Htf'. unfold rtl_enforced in Htf'.
      cbn [fst Shape.text_frame] in Htf'. rewrite Htf in Htf'.
      cbn [option_map] in Htf'. injection Htf' as <-. apply other_attrs_rtl.
    + destruct (process_shape_inv _ _ _ _ _ _ _ Ha)
        as (tf2 & Htf2 & _ & _ & _ & _ & E & _).
      assert (tf2 = tf0) as -> by congruence.
      rewrite E in Htf'. cbn [Shape.text_frame] in Htf'.
      injection Htf' as <-.
      destruct (remediate_text_frame cfg (ensure_paragraph_rtl tf0)
                  (Audit.measured_fg a) (Audit.measured_bg a))
        as [(_ & -> & _)|(c' & _ & -> & _)].
      * apply other_attrs_rtl.
      * rewrite other_attrs_set_runs_color. apply other_attrs_rtl.
  - unfold set_runs_color. rewrite map_map. apply map_ext. reflexivity.
Qed.

Lemma pass_keeps_other_attributes_witness :
  map (fun p => other_attrs (get_or_add_pPr p))
      (ensure_paragraph_rtl
         [mk_paragraph (Some [("lvl", "1"); ("algn", "l"); ("indent", "0")]%string)
                       [mk_run "Vision" None None]])
  = [[("lvl", "1"); ("indent", "0")]%string].
Proof.
  destruct (pass_keeps_other_attributes
              (ex_cfg scenario_dark scenario_light) 0 (ex_img scenario_bg)
              (ex_scale 2 1828800) (ex_scale 1 914400)
              (Shape.mk 7 "Title 1" 0 0 0 0
                 (Some [mk_paragraph
                          (Some [("lvl", "1"); ("algn", "l"); ("indent", "0")]%string)
                          [mk_run "Vision" None None]]))
              [mk_paragraph (Some [("lvl", "1"); ("algn", "l"); ("indent", "0")]%string)
                            [mk_run "Vision" None None]]
              (ensure_paragraph_rtl
                 [mk_paragraph
                    (Some [("lvl", "1"); ("algn", "l"); ("indent", "0")]%string)
                    [mk_run "Vision" None None]])
              scenario_dark) as [H _].
  - reflexivity.
  - vm_compute. reflexivity.
  - exact H.
Defined.

End ParagraphFrame.

(** ** The estimate does not depend on where the pixels are *)

Section PixelOrder.

Lemma insert_sorted_comm (x y : Z) (l : list Z) :
  insert_sorted x (insert_sorted y l) = insert_sorted y (insert_sorted x l).
Proof.
  induction l as [|z l IH]; cbn [insert_sorted].
  - destruct (Z.leb_spec x y), (Z.leb_spec y x); try reflexivity; try lia.
    assert (x = y) as -> by lia. reflexivity.
  - destruct (Z.leb_spec y z), (Z.leb_spec x z); cbn [insert_sorted];
      destruct (Z.leb_spec x y), (Z.leb_spec y x), (Z.leb_spec x z),
        (Z.leb_spec y z); try lia; try reflexivity.
    + assert (x = y) as -> by lia. reflexivity.
    + rewrite IH. reflexivity.
    + rewrite IH. reflexivity.
    + rewrite IH. reflexivity.
Qed.

Lemma np_sort_permutation (l l' : list Z) :
  Permutation l l' -> np_sort l = np_sort l'.
Proof.
  induction 1 as [|x l l' _ IH|x y l|l l' l'' _ IH1 _ IH2].
  - reflexivity.
  - change (insert_sorted x (np_sort l) = insert_sorted x (np_sort l')).
    rewrite IH. reflexivity.
  - apply insert_sorted_comm.
  - congruence.
Qed.

Lemma median_rgb_permutation (px px' : list rgb) :
  Permutation px px' -> median_rgb px = median_rgb px'.
Proof.
  intros H. unfold median_rgb, np_median.
  rewrite (np_sort_permutation _ _ (Permutation_map (fun p => fst (fst p)) H)),
          (np_sort_permutation _ _ (Permutation_map (fun p => snd (fst p)) H)),
          (np_sort_permutation _ _ (Permutation_map snd H)).
  reflexivity.
Qed.

Lemma filter_permutation {A : Type} (f : A -> bool) (l l' : list A) :
  Permutation l l' -> Permutation (filter f l) (filter f l').
Proof.
  induction 1 as [|x l l' _ IH|x y l|l l' l'' _ IH1 _ IH2].
  - constructor.
  - cbn [filter]. destruct (f x); [constructor|]; exact IH.
  - cbn [filter]. destruct (f x), (f y); try apply Permutation_refl.
    constructor.
  - eapply Permutation_trans; eassumption.
Qed.

Lemma otsu_loop_ext (hist hist' : Z -> Q) (total sum_all : Q) (ts : list Z) :
  (forall t, hist t = hist' t) ->
  forall st, otsu_loop hist total sum_all ts st
             = otsu_loop hist' total sum_all ts st.
Proof.
  intros H. induction ts as [|t ts IH]; intros st; [reflexivity|].
  cbn [otsu_loop]. rewrite <- (H t).
  destruct (Qeq_bool _ 0); [apply IH|].
  destruct (Qeq_bool _ 0); [reflexivity|].
  destruct (Qlt_le_dec _ _); apply IH.
Qed.

Lemma otsu_threshold_permutation (gray gray' : list Z) :
  Permutation gray gray' -> otsu_threshold gray = otsu_threshold gray'.
Proof.
  intros H. unfold otsu_threshold.
  assert (forall t, bincount gray t = bincount gray' t) as Hb.
  { intros t. unfold bincount. f_equal. f_equal.
    revert t. apply (Permutation_count_occ Z.eq_dec). exact H. }
  rewrite (Permutation_length H).
  assert (forall (ts : list Z) (acc : Q),
            fold_left (fun acc t => (acc + inject_Z t * bincount gray t)%Q) ts acc
            = fold_left (fun acc t => (acc + inject_Z t * bincount gray' t)%Q)
                        ts acc) as Hs.
  { induction ts as [|t ts IH]; intros acc; [reflexivity|].
    cbn [fold_left]. rewrite (Hb t). apply IH. }
  rewrite Hs. f_equal. apply otsu_loop_ext. exact Hb.
Qed.

(** The dark side is decided pixel by pixel, by a test on the gray level
    that only depends on the pixels of the region as a multiset. *)
Lemma dark_mask_pointwise (region region' : list rgb) :
  Permutation region region' ->
  exists f : rgb -> bool,
    dark_mask region = map f region /\ dark_mask region' = map f region'.
Proof.
  intros H. pose proof (Permutation_map gray_of H) as Hg.
  unfold dark_mask.
  rewrite <- (otsu_threshold_permutation _ _ Hg).
  set (t := otsu_threshold (map gray_of region)).
  assert (mask_mean (map (fun g => (g <=? t)%Z) (map gray_of region'))
          = mask_mean (map (fun g => (g <=? t)%Z) (map gray_of region))) as ->.
  { rewrite !mask_mean_map.
    rewrite (Permutation_length Hg),
      (Permutation_length (filter_permutation (fun g => (g <=? t)%Z) _ _ Hg)).
    reflexivity. }
  assert (np_percentile (map gray_of region') 10
          = np_percentile (map gray_of region) 10) as ->.
  { unfold np_percentile. rewrite (np_sort_permutation _ _ Hg). reflexivity. }
  destruct (if Qlt_le_dec _ 0.02 then true
            else if Qlt_le_dec 0.98 _ then true else false).
  - exists (fun p => Qle_bool (inject_Z (gray_of p))
                              (np_percentile (map gray_of region) 10)).
    rewrite !map_map. split; reflexivity.
  - exists (fun p => (gray_of p <=? t)%Z). rewrite !map_map. split; reflexivity.
Qed.

Lemma mirrored_rows_permutation (rows : list (list rgb)) :
  Permutation (List.concat (map (@rev rgb) rows)) (List.concat rows).
Proof.
  induction rows as [|r rows IH]; [constructor|].
  cbn [map List.concat]. apply Permutation_app; [|exact IH].
  apply Permutation_sym, Permutation_rev.
Qed.

(** X22. The colour estimate depends on the pixels of the region only as
    a multiset: any rearrangement of the pixels, and in particular the
    left-to-right mirror image of the region, gives the same foreground
    and background. *)
Theorem estimate_ignores_pixel_order (region region' : list rgb)
        (rows : list (list rgb)) :
  Permutation region region' ->
  estimate_fg_bg_from_region region' = estimate_fg_bg_from_region region
  /\ estimate_fg_bg_from_region (List.concat (map (@rev rgb) rows))
     = estimate_fg_bg_from_region (List.concat rows).
Proof.
  assert (forall r r', Permutation r r' ->
            estimate_fg_bg_from_region r' = estimate_fg_bg_from_region r) as Hperm.
  { intros r r' H. destruct (dark_mask_pointwise r r' H) as (f & E & E').
    unfold estimate_fg_bg_from_region.
    rewrite E, E', !select_map, !select_map_negb.
    pose proof (filter_permutation f _ _ H) as Hf.
    pose proof (filter_permutation (fun x => negb (f x)) _ _ H) as Hb.
    rewrite <- (median_rgb_permutation _ _ H).
    destruct (filter f r) as [|p fr] eqn:Ef.
    - apply Permutation_nil in Hf. rewrite Hf. reflexivity.
    - destruct (filter f r') as [|p' fr'] eqn:Ef';
        [apply Permutation_sym, Permutation_nil in Hf; discriminate|].
      destruct (filter (fun x => negb (f x)) r) as [|q br] eqn:Eb.
      + apply Permutation_nil in Hb. rewrite Hb. reflexivity.
      + destruct (filter (fun x => negb (f x)) r') as [|q' br'] eqn:Eb';
          [apply Permutation_sym, Permutation_nil in Hb; discriminate|].
        rewrite <- (median_rgb_permutation _ _ Hf),
                <- (median_rgb_permutation _ _ Hb).
        reflexivity. }
  intros H. split; [apply Hperm; exact H|].
  apply Hperm, Permutation_sym, mirrored_rows_permutation.
Qed.

Lemma estimate_ignores_pixel_order_witness :
  estimate_fg_bg_from_region [scenario_bg; (0, 0, 0)%Z]
  = estimate_fg_bg_from_region [(0, 0, 0)%Z; scenario_bg].
Proof.
  destruct (estimate_ignores_pixel_order
              [(0, 0, 0)%Z; scenario_bg] [scenario_bg; (0, 0, 0)%Z] [])
    as [H _].
  - apply perm_swap.
  - exact H.
Defined.

End PixelOrder.
